(** * auto-sub: the speech-translator content-script controller

    A shallow embedding of [src/content_script.ts] (class
    [SpeechTranslatorController]) and of the few platform operations it
    relies on (JavaScript strings, JSON values as they arrive over the
    extension's message channel, the DOM operations used by [escapeHtml]),
    with the translation relay of [src/background.ts] and the popup
    script that follows the type declarations in [src/types.ts].

    Layout: definitions first (strings, HTML escaping, JSON, the
    controller and its handlers), then the properties. *)

From Stdlib Require Import List ZArith NArith PArith Lia Bool String Ascii.
From Stdlib Require Import DecimalString.
Import ListNotations.

(* ================================================================== *)
(** ** JavaScript strings *)

(** A JavaScript string is a sequence of UTF-16 code units. *)
Module JsString.

Definition codeunit := N.
Definition jsstring := list codeunit.

(** An ASCII literal as a JavaScript string. *)
Definition lit (s : string) : jsstring :=
  map N_of_ascii (list_ascii_of_string s).
Arguments lit s%_string.

Fixpoint eqb (a b : jsstring) : bool :=
  match a, b with
  | [], [] => true
  | x :: a', y :: b' => N.eqb x y && eqb a' b'
  | _, _ => false
  end.

Definition isEmpty (s : jsstring) : bool :=
  match s with [] => true | _ :: _ => false end.

(** ECMAScript WhiteSpace and LineTerminator code points, the ones
    [String.prototype.trim] strips. *)
Definition isWhiteSpace (c : codeunit) : bool :=
  (N.eqb c 9 || N.eqb c 10 || N.eqb c 11 || N.eqb c 12 || N.eqb c 13
   || N.eqb c 32 || N.eqb c 160 || N.eqb c 5760
   || (N.leb 8192 c && N.leb c 8202)
   || N.eqb c 8232 || N.eqb c 8233 || N.eqb c 8239 || N.eqb c 8287
   || N.eqb c 12288 || N.eqb c 65279)%bool.

Fixpoint trimStart (s : jsstring) : jsstring :=
  match s with
  | [] => []
  | c :: r => if isWhiteSpace c then trimStart r else s
  end.

Definition trimEnd (s : jsstring) : jsstring := rev (trimStart (rev s)).

(** [s.trim()] *)
Definition trim (s : jsstring) : jsstring := trimEnd (trimStart s).

Fixpoint startsWith (s p : jsstring) : bool :=
  match p, s with
  | [], _ => true
  | y :: p', x :: s' => N.eqb x y && startsWith s' p'
  | _ :: _, [] => false
  end.

(** [s.includes(p)] *)
Fixpoint includes (s p : jsstring) : bool :=
  startsWith s p ||
  match s with
  | [] => false
  | _ :: r => includes r p
  end.

(** [s.split(sep)[0]] for a one-unit separator: the part of [s] before
    the first [sep], the whole of [s] when there is none. *)
Fixpoint splitHead (sep : codeunit) (s : jsstring) : jsstring :=
  match s with
  | [] => []
  | c :: r => if N.eqb c sep then [] else c :: splitHead sep r
  end.

(** [s.replaceAll(c, by)] for a one-unit pattern. *)
Definition replaceAll (c : codeunit) (by_ : jsstring) (s : jsstring)
  : jsstring :=
  flat_map (fun x => if N.eqb x c then by_ else [x]) s.

(** How many times the code unit [c] occurs in [s]. *)
Definition occurrences (c : codeunit) (s : jsstring) : nat :=
  count_occ N.eq_dec s c.

End JsString.
Import JsString.

(* ================================================================== *)
(** ** The DOM operations behind [escapeHtml] *)

Module Html.

Definition AMP : codeunit := 38%N.
Definition LT : codeunit := 60%N.
Definition GT : codeunit := 62%N.
Definition NBSP : codeunit := 160%N.
Definition QUOT : codeunit := 34%N.
Definition LF : codeunit := 10%N.

(** The children a freshly created [div] can get through its
    [textContent] setter: nothing, or one text node. *)
Inductive ChildNode :=
| Text (data : jsstring).

Record Div := { childNodes : list ChildNode }.

(** [document.createElement('div')] *)
Definition createElement_div : Div := {| childNodes := [] |}.

(** [div.textContent = text]: all children are replaced by one text
    node holding [text], or by nothing when [text] is empty. *)
Definition set_textContent (text : jsstring) (_ : Div) : Div :=
  if isEmpty text then {| childNodes := [] |}
  else {| childNodes := [Text text] |}.

(** The HTML fragment serialisation algorithm's "escaping a string"
    (not in attribute mode), in the order the HTML standard lists its
    replacements: ampersand, no-break space, less-than, greater-than. *)
Definition escapeString (s : jsstring) : jsstring :=
  replaceAll GT (lit "&gt;")
    (replaceAll LT (lit "&lt;")
       (replaceAll NBSP (lit "&nbsp;")
          (replaceAll AMP (lit "&amp;") s))).

Definition serializeChild (n : ChildNode) : jsstring :=
  match n with
  | Text data => escapeString data
  end.

(** [div.innerHTML] (getter) *)
Definition innerHTML (d : Div) : jsstring :=
  flat_map serializeChild (childNodes d).

(** [escapeHtml(text)], content_script.ts 679-683. *)
Definition escapeHtml (text : jsstring) : jsstring :=
  let div := createElement_div in
  let div := set_textContent text div in
  innerHTML div.

(** The replacement the specification describes: only the three markup
    characters are rewritten. *)
Definition specEscapeChar (c : codeunit) : jsstring :=
  if N.eqb c AMP then lit "&amp;"
  else if N.eqb c LT then lit "&lt;"
  else if N.eqb c GT then lit "&gt;"
  else [c].

Definition specEscape (s : jsstring) : jsstring :=
  flat_map specEscapeChar s.

(** The same with the no-break space, which the serialiser rewrites
    too. *)
Definition escapeChar (c : codeunit) : jsstring :=
  if N.eqb c AMP then lit "&amp;"
  else if N.eqb c NBSP then lit "&nbsp;"
  else if N.eqb c LT then lit "&lt;"
  else if N.eqb c GT then lit "&gt;"
  else [c].

Definition escapeChars (s : jsstring) : jsstring :=
  flat_map escapeChar s.

End Html.
Import Html.

(* ================================================================== *)
(** ** Exceptions *)

(** A thrown [Error] object; only its [message] is ever inspected. *)
Record JsError := { message : jsstring }.

Inductive Completion (A : Type) :=
| Normal (a : A)
| Throw (e : JsError).
Arguments Normal {A} a.
Arguments Throw {A} e.

Definition cbind {A B} (c : Completion A) (k : A -> Completion B)
: Completion B :=
match c with
| Normal a => k a
| Throw e => Throw e
end.

(** [xs.map(f)] where [f] may throw: the first exception ends the map. *)
Fixpoint mapC {A B} (f : A -> Completion B) (xs : list A)
: Completion (list B) :=
match xs with
| [] => Normal []
| x :: r =>
    cbind (f x) (fun y => cbind (mapC f r) (fun ys => Normal (y :: ys)))
end.

(** V8's message for a property read on [undefined] or [null]. *)
Definition typeErrorReading (what prop : jsstring) : JsError :=
  {| message := lit "Cannot read properties of " ++ what
                ++ lit " (reading '" ++ prop ++ lit "')" |}.

(** The numbers of a response, for concrete instances: integers,
    truthy when not zero, printed in decimal. *)
Definition intTruthy (z : Z) : bool := negb (Z.eqb z 0).
Definition intToString (z : Z) : jsstring :=
  lit (NilZero.string_of_int (Z.to_int z)).

Section Model.

Local Set Warnings "-register-all".

(** JavaScript numbers are IEEE doubles.  The controller never computes
    with the numbers of a response; it only tests them for truthiness
    and converts them to strings, so both operations are parameters. *)
Variable Num : Type.
Variable num_truthy : Num -> bool.
Variable num_toString : Num -> jsstring.

(* ================================================================ *)
(** ** JSON values *)

(** What [chrome.runtime.sendMessage] can resolve to: a JSON value.
    [undefined] is [None] at the places where it can occur. *)
Inductive JSON :=
| JNull
| JBool (b : bool)
| JNum (n : Num)
| JStr (s : jsstring)
| JArr (items : list JSON)
| JObj (fields : list (jsstring * JSON)).

(** ToBoolean *)
Definition truthy (v : JSON) : bool :=
  match v with
  | JNull => false
  | JBool b => b
  | JNum n => num_truthy n
  | JStr s => negb (isEmpty s)
  | JArr _ => true
  | JObj _ => true
  end.

Definition truthyOpt (v : option JSON) : bool :=
  match v with
  | Some v' => truthy v'
  | None => false
  end.

Definition isArray (v : option JSON) : bool :=
  match v with
  | Some (JArr _) => true
  | _ => false
  end.

(** Own-property lookup; a later duplicate key overrides an earlier
    one, as in [JSON.parse]. *)
Fixpoint lookup (key : jsstring) (fields : list (jsstring * JSON))
  : option JSON :=
  match fields with
  | [] => None
  | (k, v) :: r =>
      match lookup key r with
      | Some v' => Some v'
      | None => if eqb k key then Some v else None
      end
  end.

(** [v.name] for the property names the controller reads
    ([success], [error], [data], [sentences], [trans]): none of them is
    a property of a string, number, boolean or array. *)
Definition getProp (v : option JSON) (name : jsstring)
  : Completion (option JSON) :=
  match v with
  | None => Throw (typeErrorReading (lit "undefined") name)
  | Some JNull => Throw (typeErrorReading (lit "null") name)
  | Some (JObj fields) => Normal (lookup name fields)
  | Some _ => Normal None
  end.

(** [v[0]] *)
Definition getIndex0 (v : JSON) : Completion (option JSON) :=
  match v with
  | JNull => Throw (typeErrorReading (lit "null") (lit "0"))
  | JArr items => Normal (hd_error items)
  | JStr s => Normal (match s with [] => None | c :: _ => Some (JStr [c]) end)
  | JObj fields => Normal (lookup (lit "0") fields)
  | JBool _ => Normal None
  | JNum _ => Normal None
  end.

(** The [TypeError] of ToPrimitive when neither [toString] nor
    [valueOf] gives a primitive (V8's message). *)
Definition cannotConvert : JsError :=
  {| message := lit "Cannot convert object to primitive value" |}.

(** ToString.  An array is its elements joined by commas, [null]
    elements contributing nothing.  An object is converted by its
    [toString] method: the inherited one gives "[object Object]"; an
    own [toString] property hides it, and as no value of a response is
    callable the conversion then ends in a [TypeError] (the inherited
    [valueOf] returns the object itself).  The conversion of an array
    throws when that of one of its elements does. *)
Fixpoint toStr (v : JSON) : Completion jsstring :=
  match v with
  | JNull => Normal (lit "null")
  | JBool true => Normal (lit "true")
  | JBool false => Normal (lit "false")
  | JNum n => Normal (num_toString n)
  | JStr s => Normal s
  | JArr items =>
      (fix joinComma (l : list JSON) : Completion jsstring :=
         match l with
         | [] => Normal []
         | x :: r =>
             cbind (match x with JNull => Normal [] | _ => toStr x end)
               (fun s =>
                  match r with
                  | [] => Normal s
                  | _ :: _ =>
                      cbind (joinComma r)
                            (fun t => Normal (s ++ lit "," ++ t))
                  end)
         end) items
  | JObj fields =>
      match lookup (lit "toString") fields with
      | Some _ => Throw cannotConvert
      | None => Normal (lit "[object Object]")
      end
  end.

(** What an element contributes to a join: nothing for [null], its
    string otherwise. *)
Definition joinElement (x : JSON) : Completion jsstring :=
  match x with
  | JNull => Normal []
  | _ => toStr x
  end.

(** [xs.join('')]: the elements are converted in order, and the first
    conversion that throws ends the join. *)
Definition joinEmpty (xs : list JSON) : Completion jsstring :=
  cbind (mapC joinElement xs) (fun parts => Normal (List.concat parts)).

(** [x || ''] *)
Definition orEmpty (x : option JSON) : JSON :=
  if truthyOpt x then match x with Some v => v | None => JStr [] end
  else JStr [].

(* ================================================================ *)
(** ** Messages, events and effects *)

(** [MessageType], types.ts 22-29. *)
Inductive MessageType :=
| START_RECOGNITION
| STOP_RECOGNITION
| STATUS_UPDATE
| RECOGNITION_RESULT
| TRANSLATION_RESULT
| ERROR.

(** [RecognitionConfig], types.ts 34-37. *)
Record RecognitionConfig := {
  inputLang : jsstring;
  outputLang : jsstring
}.

(** An inbound [ExtensionMessage]: its type and optional [config]. *)
Record ExtensionMessage := {
  msg_type : MessageType;
  msg_config : option RecognitionConfig
}.

(** The messages the controller sends with [chrome.runtime.sendMessage]. *)
Inductive OutMessage :=
| MsgStatusUpdate (isActive : bool) (status : jsstring)
    (* type STATUS_UPDATE, data {isActive, status} *)
| MsgError (error : jsstring)
    (* type ERROR, error *)
| MsgTranslationRequest (text sourceLang targetLang : jsstring).
    (* type TRANSLATION_RESULT, data {text, sourceLang, targetLang} *)

(** [TranslationResult], types.ts 73-79. *)
Record TranslationResult := {
  originalText : jsstring;
  translatedText : jsstring;
  sourceLang : jsstring;
  targetLang : jsstring;
  timestamp : Z
}.

(** One alternative of a recognition result slot. *)
Record SpeechRecognitionAlternative := {
  transcript : jsstring;
  confidence : Num
}.

(** One slot of [event.results]: its alternatives and its [isFinal]. *)
Record SpeechRecognitionResult := {
  alternatives : list SpeechRecognitionAlternative;
  isFinal : bool
}.

Record SpeechRecognitionEvent := {
  results : list SpeechRecognitionResult
}.

Inductive EventTarget := OverlayTarget | DocumentTarget.
Inductive MouseEventKind := Mousedown | Mousemove | Mouseup.

(** What a handler does to the world outside the controller object, in
    program order.  Console output and the no-op [updateStatus] leave no
    trace. *)
Inductive Effect :=
| NewRecognition (lang : jsstring)       (* new SpeechRecognitionAPI(), configured *)
| RecognitionStart                       (* recognition.start() *)
| RecognitionStop                        (* recognition.stop() *)
| SendMessage (m : OutMessage)           (* chrome.runtime.sendMessage *)
| StorageSetIsActive (b : bool)          (* chrome.storage.local.set *)
| SetTimeoutRestart (ms : Z)             (* setTimeout(restart callback, ms) *)
| ClearTimeout (id : positive)           (* clearTimeout *)
| AddEventListener (t : EventTarget) (k : MouseEventKind)
| RemoveEventListener (t : EventTarget) (k : MouseEventKind)
| PreventDefault.                        (* e.preventDefault() *)

(* ================================================================ *)
(** ** The overlay panel *)

Inductive CssValue :=
| Css (text : jsstring)
| Px (n : Z).                             (* `${n}px` *)

(** The inline style properties the controller writes after creation. *)
Record PanelStyle := {
  style_left : CssValue;
  style_right : CssValue;
  style_top : CssValue;
  style_bottom : CssValue;
  style_margin : CssValue;
  style_width : CssValue;
  style_maxWidth : CssValue;
  style_transition : CssValue;
  style_borderColor : CssValue
}.

(** A child of the [.st-list] element: the live block or a history
    block.  [markup] is the string assigned to its [innerHTML] (a clone
    carries the same content). *)
Record Block := {
  isLive : bool;                          (* class list contains st-live *)
  markup : jsstring;
  marginBottom : jsstring;
  borderBottom : jsstring;
  paddingBottom : jsstring
}.

(** The children of the overlay element: plain text (set through
    [textContent]) or the [.st-container] with its header buttons and
    its [.st-list]. *)
Inductive PanelContent :=
| Plain (text : jsstring)
| Container (toggleLabel : jsstring) (stList : list Block).

Record Panel := {
  parentNode : bool;                      (* attached to document.body *)
  content : PanelContent;
  style : PanelStyle;
  stSize : option jsstring                (* dataset['stSize'] *)
}.

(* ================================================================ *)
(** ** The controller object *)

(** The capture-engine handle as the controller configures it. *)
Record Recognition := {
  lang : jsstring;
  continuous : bool;
  interimResults : bool;
  maxAlternatives : Z
}.

(** The fields of [SpeechTranslatorController], content_script.ts 22-29.
    Timer handles are positive integers ([setTimeout] never returns 0). *)
Record Controller := {
  recognition : option Recognition;
  config : option RecognitionConfig;
  overlay : option Panel;
  isActive : bool;
  isDragging : bool;
  dragOffset : Z * Z;
  clearTimer : option positive;
  lastLineKey : option jsstring
}.

(** The controller as its field initialisers leave it. *)
Definition initialController : Controller :=
  {| recognition := None; config := None; overlay := None;
     isActive := false; isDragging := false; dragOffset := (0, 0)%Z;
     clearTimer := None; lastLineKey := None |}.

Definition set_recognition (v : option Recognition) (c : Controller) :=
  {| recognition := v; config := config c; overlay := overlay c;
     isActive := isActive c; isDragging := isDragging c;
     dragOffset := dragOffset c; clearTimer := clearTimer c;
     lastLineKey := lastLineKey c |}.

Definition set_config (v : option RecognitionConfig) (c : Controller) :=
  {| recognition := recognition c; config := v; overlay := overlay c;
     isActive := isActive c; isDragging := isDragging c;
     dragOffset := dragOffset c; clearTimer := clearTimer c;
     lastLineKey := lastLineKey c |}.

Definition set_overlay (v : option Panel) (c : Controller) :=
  {| recognition := recognition c; config := config c; overlay := v;
     isActive := isActive c; isDragging := isDragging c;
     dragOffset := dragOffset c; clearTimer := clearTimer c;
     lastLineKey := lastLineKey c |}.

Definition set_isActive (v : bool) (c : Controller) :=
  {| recognition := recognition c; config := config c; overlay := overlay c;
     isActive := v; isDragging := isDragging c;
     dragOffset := dragOffset c; clearTimer := clearTimer c;
     lastLineKey := lastLineKey c |}.

Definition set_isDragging (v : bool) (c : Controller) :=
  {| recognition := recognition c; config := config c; overlay := overlay c;
     isActive := isActive c; isDragging := v;
     dragOffset := dragOffset c; clearTimer := clearTimer c;
     lastLineKey := lastLineKey c |}.

Definition set_dragOffset (v : Z * Z) (c : Controller) :=
  {| recognition := recognition c; config := config c; overlay := overlay c;
     isActive := isActive c; isDragging := isDragging c;
     dragOffset := v; clearTimer := clearTimer c;
     lastLineKey := lastLineKey c |}.

Definition set_clearTimer (v : option positive) (c : Controller) :=
  {| recognition := recognition c; config := config c; overlay := overlay c;
     isActive := isActive c; isDragging := isDragging c;
     dragOffset := dragOffset c; clearTimer := v;
     lastLineKey := lastLineKey c |}.

Definition set_lastLineKey (v : option jsstring) (c : Controller) :=
  {| recognition := recognition c; config := config c; overlay := overlay c;
     isActive := isActive c; isDragging := isDragging c;
     dragOffset := dragOffset c; clearTimer := clearTimer c;
     lastLineKey := v |}.

Definition set_content (v : PanelContent) (p : Panel) : Panel :=
  {| parentNode := parentNode p; content := v; style := style p;
     stSize := stSize p |}.

Definition set_style (v : PanelStyle) (p : Panel) : Panel :=
  {| parentNode := parentNode p; content := content p; style := v;
     stSize := stSize p |}.

Definition set_stSize (v : option jsstring) (p : Panel) : Panel :=
  {| parentNode := parentNode p; content := content p; style := style p;
     stSize := v |}.

(* ================================================================ *)
(** ** The handler monad: controller state, effects, exceptions *)

(** A synchronous piece of a method: it may read and write the
    controller's fields, performs effects in order, and completes
    normally or by throwing. *)
Definition M (A : Type) : Type :=
  Controller -> Completion A * Controller * list Effect.

Definition ret {A} (a : A) : M A := fun c => (Normal a, c, []).

Definition bind {A B} (m : M A) (k : A -> M B) : M B :=
  fun c =>
    match m c with
    | (Normal a, c1, o1) =>
        match k a c1 with
        | (r, c2, o2) => (r, c2, o1 ++ o2)
        end
    | (Throw e, c1, o1) => (Throw e, c1, o1)
    end.

Definition throw {A} (e : JsError) : M A := fun c => (Throw e, c, []).

(** [try { body } catch (error) { handler(error) }] *)
Definition tryCatch {A} (body : M A) (handler : JsError -> M A) : M A :=
  fun c =>
    match body c with
    | (Normal a, c1, o1) => (Normal a, c1, o1)
    | (Throw e, c1, o1) =>
        match handler e c1 with
        | (r, c2, o2) => (r, c2, o1 ++ o2)
        end
    end.

Definition gets {A} (f : Controller -> A) : M A := fun c => (Normal (f c), c, []).
Definition modify (f : Controller -> Controller) : M unit :=
  fun c => (Normal tt, f c, []).
Definition emit (e : Effect) : M unit := fun c => (Normal tt, c, [e]).
Definition liftC {A} (x : Completion A) : M A := fun c => (x, c, []).

Notation "x <- m ;; k" := (bind m (fun x => k))
  (at level 61, m at next level, right associativity).
Notation "m ;;; k" := (bind m (fun _ => k))
  (at level 61, right associativity).

(** The state and the trace a handler leaves. *)
Definition stateAfter {A} (r : Completion A * Controller * list Effect)
  : Controller := snd (fst r).
Definition effectsOf {A} (r : Completion A * Controller * list Effect)
  : list Effect := snd r.
Definition completionOf {A} (r : Completion A * Controller * list Effect)
  : Completion A := fst (fst r).

(* ================================================================ *)
(** ** Small helpers of the controller *)

(** [RecognitionStatus], types.ts 52-58. *)
Inductive RecognitionStatus :=
| Status_IDLE
| Status_LISTENING
| Status_PROCESSING
| Status_TRANSLATING
| Status_ERROR.

(** [updateStatus], 632-634: the body is empty. *)
Definition updateStatus (_ : RecognitionStatus) : M unit := ret tt.

(** [sendErrorMessage], 639-648. *)
Definition sendErrorMessage (error : jsstring) : M unit :=
  emit (SendMessage (MsgError error)).

Definition optEqb (a : option jsstring) (b : jsstring) : bool :=
  match a with
  | Some a' => eqb a' b
  | None => false
  end.

(** [if (this.clearTimer) { clearTimeout(this.clearTimer);
    this.clearTimer = null; }], 367-370 and 655-658. *)
Definition clearPendingTimer : M unit :=
  t <- gets clearTimer ;;
  match t with
  | Some id => emit (ClearTimeout id) ;;; modify (set_clearTimer None)
  | None => ret tt
  end.

(** Apply [f] to the overlay panel, if there is one. *)
Definition modifyPanel (f : Panel -> Panel) : M unit :=
  modify (fun c => set_overlay (option_map f (overlay c)) c).

(* ================================================================ *)
(** ** Overlay creation and removal *)

(** The style [createOverlay] assigns, 477-502 (the properties that are
    written again later; [top] and [borderColor] start unset). *)
Definition initialStyle : PanelStyle :=
  {| style_left := Css (lit "0");
     style_right := Css (lit "0");
     style_top := Css [];
     style_bottom := Css (lit "80px");
     style_margin := Css (lit "0 auto");
     style_width := Css (lit "100%");
     style_maxWidth := Css (lit "900px");
     style_transition := Css (lit "opacity 0.2s ease, transform 0.1s ease");
     style_borderColor := Css [] |}.

(** [createOverlay], 468-510. *)
Definition createOverlay : M unit :=
  ov <- gets overlay ;;
  match ov with
  | Some _ => ret tt
  | None =>
      modify (set_overlay
                (Some {| parentNode := false; content := Plain [];
                         style := initialStyle; stSize := None |})) ;;;
      emit (AddEventListener OverlayTarget Mousedown) ;;;
      emit (AddEventListener DocumentTarget Mousemove) ;;;
      emit (AddEventListener DocumentTarget Mouseup) ;;;
      (* document.body.appendChild(this.overlay) *)
      modifyPanel (fun p => {| parentNode := true; content := content p;
                               style := style p; stSize := stSize p |})
  end.

(** [updateOverlay(content, borderColor)], 601-617, with [isHtml] at its
    default [false], as at its only call site. *)
Definition updateOverlay (text borderColor : jsstring) : M unit :=
  ov <- gets overlay ;;
  match ov with
  | None => ret tt
  | Some _ =>
      modifyPanel (set_content (Plain text)) ;;;
      modifyPanel (fun p =>
        set_style {| style_left := style_left (style p);
                     style_right := style_right (style p);
                     style_top := style_top (style p);
                     style_bottom := style_bottom (style p);
                     style_margin := style_margin (style p);
                     style_width := style_width (style p);
                     style_maxWidth := style_maxWidth (style p);
                     style_transition := style_transition (style p);
                     style_borderColor := Css borderColor |} p)
  end.

(** [removeOverlay], 622-627. *)
Definition removeOverlay : M unit :=
  ov <- gets overlay ;;
  match ov with
  | Some p =>
      if parentNode p then modify (set_overlay None) else ret tt
  | None => ret tt
  end.

(** [cleanup], 653-674.  The three [removeEventListener] calls are given
    freshly bound functions. *)
Definition cleanup : M unit :=
  clearPendingTimer ;;;
  (ov <- gets overlay ;;
   match ov with
   | Some _ => emit (RemoveEventListener OverlayTarget Mousedown)
   | None => ret tt
   end) ;;;
  emit (RemoveEventListener DocumentTarget Mousemove) ;;;
  emit (RemoveEventListener DocumentTarget Mouseup) ;;;
  removeOverlay ;;;
  modify (set_isActive false) ;;;
  modify (set_config None) ;;;
  modify (set_lastLineKey None).

(* ================================================================ *)
(** ** Session start and stop *)

(** The overlay's first text: a microphone emoji (U+1F3A4, a surrogate
    pair) and " Ready". *)
Definition readyText : jsstring := [55356; 57252]%N ++ lit " Ready".

(** [stopRecognition], 133-152.  It has no [await]: it runs to its end
    when called. *)
Definition stopRecognition : M unit :=
  modify (set_isActive false) ;;;
  (r <- gets recognition ;;
   match r with
   | Some _ => emit RecognitionStop ;;; modify (set_recognition None)
   | None => ret tt
   end) ;;;
  cleanup ;;;
  updateStatus Status_IDLE ;;;
  emit (StorageSetIsActive false) ;;;
  emit (SendMessage (MsgStatusUpdate false (lit "Recognition Stopped"))).

(** [startRecognition], 79-128.  [supported] says whether the window
    offers a speech-recognition constructor. *)
Definition startRecognition (supported : bool) (cfg : RecognitionConfig)
  : M unit :=
  tryCatch
    ((if negb supported
      then throw {| message :=
             lit "Speech Recognition API is not supported in this browser" |}
      else ret tt) ;;;
     modify (set_config (Some cfg)) ;;;
     modify (set_isActive true) ;;;
     createOverlay ;;;
     emit (NewRecognition (inputLang cfg)) ;;;
     modify (set_recognition
               (Some {| lang := inputLang cfg; continuous := true;
                        interimResults := true; maxAlternatives := 1 |})) ;;;
     emit RecognitionStart ;;;
     updateStatus Status_LISTENING ;;;
     updateOverlay readyText (lit "#4caf50"))
    (fun error =>
       sendErrorMessage (message error) ;;;
       cleanup).

(** [handleMessage], 59-74. *)
Definition handleMessage (supported : bool) (m : ExtensionMessage) : M unit :=
  match msg_type m with
  | START_RECOGNITION =>
      match msg_config m with
      | Some cfg => startRecognition supported cfg
      | None => ret tt
      end
  | STOP_RECOGNITION => stopRecognition
  | _ => ret tt
  end.

(* ================================================================ *)
(** ** Capture-engine callbacks *)

(** [handleRecognitionStart], 157-159. *)
Definition handleRecognitionStart : M unit := ret tt.

(** The message computed by the [switch] of [handleRecognitionError]. *)
Definition errorMessageFor (error : jsstring) : jsstring :=
  if eqb error (lit "no-speech") then lit "No speech detected"
  else if eqb error (lit "audio-capture") then lit "Microphone not available"
  else if eqb error (lit "not-allowed") then lit "Microphone permission denied"
  else if eqb error (lit "network") then lit "Network error"
  else lit "Error: " ++ error.

(** [handleRecognitionError], 221-257. *)
Definition handleRecognitionError (error : jsstring) : M unit :=
  let errorMessage := errorMessageFor error in
  active <- gets isActive ;;
  if active && (eqb error (lit "no-speech") || eqb error (lit "aborted"))
  then emit (SetTimeoutRestart 1000)
  else sendErrorMessage errorMessage.

(** The callback given to [setTimeout], 249-253. *)
Definition restartCallback : M unit :=
  r <- gets recognition ;;
  active <- gets isActive ;;
  match r with
  | Some _ => if active then emit RecognitionStart else ret tt
  | None => ret tt
  end.

(** [handleRecognitionEnd], 262-268. *)
Definition handleRecognitionEnd : M unit :=
  active <- gets isActive ;;
  if negb active then cleanup else ret tt.

(* ================================================================ *)
(** ** Rendering: [displayBothLanguages] *)

Definition indent (n : nat) : jsstring := LF :: repeat 32%N n.

(** The template assigned to [liveBlock.innerHTML], 431-438: its text
    before the first hole, between the holes and after the second. *)
Definition liveMarkupPrefix : jsstring :=
  indent 6 ++ lit "<div style=" ++ [QUOT]
  ++ lit "font-size:15px;font-weight:600;line-height:1.3;color:#ffffff;white-space:normal;word-break:break-word;"
  ++ [QUOT] ++ lit ">"
  ++ indent 8.

Definition liveMarkupMiddle : jsstring :=
  indent 6 ++ lit "</div>"
  ++ indent 6 ++ lit "<div style=" ++ [QUOT]
  ++ lit "font-size:12px;font-weight:400;line-height:1.2;color:#b0b0b0;white-space:normal;word-break:break-word;margin-top:2px;"
  ++ [QUOT] ++ lit ">"
  ++ indent 8.

Definition liveMarkupSuffix : jsstring :=
  indent 6 ++ lit "</div>" ++ indent 4.

Definition liveMarkup (translatedText originalText : jsstring) : jsstring :=
  liveMarkupPrefix ++ escapeHtml translatedText
  ++ liveMarkupMiddle ++ escapeHtml originalText
  ++ liveMarkupSuffix.

(** The element created at 422-426. *)
Definition newLiveBlock : Block :=
  {| isLive := true; markup := [];
     marginBottom := lit "8px";
     borderBottom := lit "1px solid rgba(255,255,255,0.15)";
     paddingBottom := lit "6px" |}.

(** [overlay.querySelector('.st-live')] finds a block of the list or
    nothing: the header carries no such class, and a block's own markup
    is the template above, whose two [div]s have no class. *)
Definition hasLive (l : list Block) : bool := existsb isLive l.

(** 418-428: when no live block exists, one is inserted before the
    list's first child. *)
Definition ensureLive (l : list Block) : list Block :=
  if hasLive l then l else newLiveBlock :: l.

(** 431: the live block (the first one in document order) gets the new
    markup. *)
Fixpoint setLiveMarkup (m : jsstring) (l : list Block) : list Block :=
  match l with
  | [] => []
  | b :: r =>
      if isLive b
      then {| isLive := isLive b; markup := m;
              marginBottom := marginBottom b;
              borderBottom := borderBottom b;
              paddingBottom := paddingBottom b |} :: r
      else b :: setLiveMarkup m r
  end.

(** 446-450: the deep clone, without the [st-live] class and restyled. *)
Definition cloneAsHistory (live : Block) : Block :=
  {| isLive := false; markup := markup live;
     marginBottom := lit "6px";
     borderBottom := lit "none";
     paddingBottom := lit "0" |}.

(** 453-457: the clone goes right after the live block. *)
Fixpoint insertHistory (l : list Block) : list Block :=
  match l with
  | [] => []
  | b :: r =>
      if isLive b then b :: cloneAsHistory b :: r
      else b :: insertHistory r
  end.

(** The toggle button's initial label, U+2922. *)
Definition maximizeIcon : jsstring := [10530%N].
(** Its label when maximised, U+2921. *)
Definition minimizeIcon : jsstring := [10529%N].

(** 377-410: the container is written when the overlay has none. *)
Definition ensureContainer (c : PanelContent) : PanelContent :=
  match c with
  | Plain _ => Container maximizeIcon []
  | Container lbl l => Container lbl l
  end.

Definition mapStList (f : list Block -> list Block) (c : PanelContent)
  : PanelContent :=
  match c with
  | Plain t => Plain t
  | Container lbl l => Container lbl (f l)
  end.

(** `${translatedText}|||${originalText}`, 442. *)
Definition lineKey (translatedText originalText : jsstring) : jsstring :=
  translatedText ++ lit "|||" ++ originalText.

(** [displayBothLanguages], 361-463. *)
Definition displayBothLanguages
  (translatedText originalText : jsstring) (isFinal_ : bool) : M unit :=
  clearPendingTimer ;;;
  ov <- gets overlay ;;
  match ov with
  | None => ret tt
  | Some _ =>
      modifyPanel (fun p => set_content (ensureContainer (content p)) p) ;;;
      modifyPanel (fun p => set_content (mapStList ensureLive (content p)) p) ;;;
      modifyPanel (fun p =>
        set_content
          (mapStList (setLiveMarkup (liveMarkup translatedText originalText))
                     (content p)) p) ;;;
      (if isFinal_ then
         let currentKey := lineKey translatedText originalText in
         last <- gets lastLineKey ;;
         if negb (optEqb last currentKey) then
           modify (set_lastLineKey (Some currentKey)) ;;;
           modifyPanel (fun p =>
             set_content (mapStList insertHistory (content p)) p)
         else ret tt
       else ret tt) ;;;
      updateStatus Status_LISTENING
  end.

(* ================================================================ *)
(** ** Translation *)

(** The outcome of [await chrome.runtime.sendMessage(...)]: the promise
    resolves with a response ([None] is [undefined]) or rejects. *)
Inductive Reply :=
| Resolved (response : option JSON)
| Rejected (reason : JsError).

(** 306-323: the text extracted from [response.data]. *)
Definition extractTranslation (data : option JSON) : Completion jsstring :=
  cbind (getProp data (lit "sentences")) (fun sentences =>
    if truthyOpt sentences && isArray sentences then
      match sentences with
      | Some (JArr l) =>
          cbind (mapC (fun sentence =>
                         cbind (getProp (Some sentence) (lit "trans"))
                               (fun t => Normal (orEmpty t))) l)
                joinEmpty
      | _ => Normal []
      end
    else
      match data with
      | Some (JArr (first :: _)) =>
          match first with
          | JArr items =>
              cbind (mapC (fun item =>
                             cbind (getIndex0 item)
                                   (fun x => Normal (orEmpty x))) items)
                    (fun xs => joinEmpty (filter truthy xs))
          | _ => Normal []
          end
      | _ => Normal []
      end).

Definition contextInvalidated (error : JsError) : bool :=
  includes (message error) (lit "Extension context invalidated").

(** [translateText] up to its [await], 279-289. *)
Definition translateText_send (text sourceLang_ targetLang_ : jsstring)
  : M unit :=
  updateStatus Status_TRANSLATING ;;;
  emit (SendMessage (MsgTranslationRequest text sourceLang_ targetLang_)).

(** [translateText] from the [await] on, 291-355; [now] is [Date.now()]. *)
Definition translateText_resume
  (text sourceLang_ targetLang_ : jsstring) (reply : Reply) (now : Z)
  : M (option TranslationResult) :=
  tryCatch
    (response <- match reply with
                 | Resolved r => ret r
                 | Rejected e => throw e
                 end ;;
     if negb (truthyOpt response) then ret None
     else
       success <- liftC (getProp response (lit "success")) ;;
       (if negb (truthyOpt success) then
          err <- liftC (getProp response (lit "error")) ;;
          msg <- liftC (match err with
                        | Some v => if truthy v then toStr v
                                    else Normal (lit "Translation failed")
                        | None => Normal (lit "Translation failed")
                        end) ;;
          throw {| message := msg |}
        else ret tt) ;;;
       data <- liftC (getProp response (lit "data")) ;;
       translated <- liftC (extractTranslation data) ;;
       if isEmpty translated then ret None
       else ret (Some {| originalText := text;
                         translatedText := translated;
                         sourceLang := sourceLang_;
                         targetLang := targetLang_;
                         timestamp := now |}))
    (fun error =>
       if contextInvalidated error
       then stopRecognition ;;; ret None
       else ret None).

(** What [handleRecognitionResult] holds across its [await]. *)
Record PendingTranslation := {
  pending_transcript : jsstring;
  pending_isFinal : bool;
  pending_sourceLang : jsstring;
  pending_targetLang : jsstring
}.

Definition HYPHEN : codeunit := 45%N.

(** [handleRecognitionResult] up to the [await] inside [translateText],
    164-195: [Some p] when a translation request was sent. *)
Definition handleRecognitionResult_begin (event : SpeechRecognitionEvent)
  : M (option PendingTranslation) :=
  tryCatch
    (cfg <- gets config ;;
     active <- gets isActive ;;
     match cfg with
     | None => ret None
     | Some cfg0 =>
         if negb active then ret None
         else
           match last (map Some (results event)) None with
           | None => throw (typeErrorReading (lit "undefined") (lit "0"))
           | Some result =>
               match alternatives result with
               | [] => throw (typeErrorReading (lit "undefined")
                                               (lit "transcript"))
               | alt :: _ =>
                   let transcript_ := transcript alt in
                   let isFinal_ := isFinal result in
                   if negb isFinal_
                      && (List.length (trim transcript_) <? 5)%nat
                   then ret None
                   else
                     updateStatus Status_TRANSLATING ;;;
                     let src := splitHead HYPHEN (inputLang cfg0) in
                     translateText_send transcript_ src (outputLang cfg0) ;;;
                     ret (Some {| pending_transcript := transcript_;
                                  pending_isFinal := isFinal_;
                                  pending_sourceLang := src;
                                  pending_targetLang := outputLang cfg0 |})
               end
           end
     end)
    (fun error =>
       if contextInvalidated error
       then stopRecognition ;;; ret None
       else ret None).

(** [handleRecognitionResult] from the [await] on, 191-215. *)
Definition handleRecognitionResult_resume
  (p : PendingTranslation) (reply : Reply) (now : Z) : M unit :=
  tryCatch
    (translation <- translateText_resume (pending_transcript p)
                      (pending_sourceLang p) (pending_targetLang p)
                      reply now ;;
     match translation with
     | Some t =>
         displayBothLanguages (translatedText t) (pending_transcript p)
                              (pending_isFinal p)
     | None =>
         active <- gets isActive ;;
         if negb active then ret tt else ret tt
     end)
    (fun error =>
       if contextInvalidated error then stopRecognition else ret tt).

(* ================================================================ *)
(** ** Pointer interaction *)

(** Coordinates are in CSS pixels, as integers: the handlers only
    subtract and compare them. *)
Record MouseEvent := { clientX : Z; clientY : Z }.

(** [overlay.getBoundingClientRect()]: the panel's origin. *)
Record DOMRect := { rect_left : Z; rect_top : Z }.

(** What [handleDragMove] reads from the layout: [window.innerWidth],
    [window.innerHeight], [overlay.offsetWidth], [overlay.offsetHeight]. *)
Record Layout := {
  innerWidth : Z;
  innerHeight : Z;
  offsetWidth : Z;
  offsetHeight : Z
}.

Definition set_transition (v : CssValue) (p : Panel) : Panel :=
  set_style {| style_left := style_left (style p);
               style_right := style_right (style p);
               style_top := style_top (style p);
               style_bottom := style_bottom (style p);
               style_margin := style_margin (style p);
               style_width := style_width (style p);
               style_maxWidth := style_maxWidth (style p);
               style_transition := v;
               style_borderColor := style_borderColor (style p) |} p.

(** [handleDragStart], 548-560. *)
Definition handleDragStart (e : MouseEvent) (rect : DOMRect) : M unit :=
  ov <- gets overlay ;;
  match ov with
  | None => ret tt
  | Some _ =>
      modify (set_isDragging true) ;;;
      modify (set_dragOffset (clientX e - rect_left rect,
                              clientY e - rect_top rect)%Z) ;;;
      modifyPanel (set_transition (Css (lit "none")))
  end.

(** 571-579: the position computed from the pointer and clamped. *)
Definition dragPosition (offset : Z * Z) (e : MouseEvent) (l : Layout)
  : Z * Z :=
  let newLeft := (clientX e - fst offset)%Z in
  let newTop := (clientY e - snd offset)%Z in
  let maxLeft := (innerWidth l - offsetWidth l)%Z in
  let maxTop := (innerHeight l - offsetHeight l)%Z in
  (Z.max 0 (Z.min newLeft maxLeft), Z.max 0 (Z.min newTop maxTop)).

(** [handleDragMove], 565-586. *)
Definition handleDragMove (e : MouseEvent) (l : Layout) : M unit :=
  dragging <- gets isDragging ;;
  ov <- gets overlay ;;
  if negb dragging then ret tt
  else
    match ov with
    | None => ret tt
    | Some _ =>
        emit PreventDefault ;;;
        offset <- gets dragOffset ;;
        let pos := dragPosition offset e l in
        modifyPanel (fun p =>
          set_style {| style_left := Px (fst pos);
                       style_right := Css (lit "auto");
                       style_top := Px (snd pos);
                       style_bottom := Css (lit "auto");
                       style_margin := style_margin (style p);
                       style_width := style_width (style p);
                       style_maxWidth := style_maxWidth (style p);
                       style_transition := style_transition (style p);
                       style_borderColor := style_borderColor (style p) |} p)
    end.

(** [handleDragEnd], 591-596. *)
Definition handleDragEnd : M unit :=
  ov <- gets overlay ;;
  match ov with
  | None => ret tt
  | Some _ =>
      modify (set_isDragging false) ;;;
      modifyPanel (set_transition (Css (lit "opacity 0.2s ease")))
  end.

Definition set_toggleLabel (lbl : jsstring) (c : PanelContent)
  : PanelContent :=
  match c with
  | Plain t => Plain t
  | Container _ l => Container lbl l
  end.

(** [toggleOverlaySize], 515-543. *)
Definition toggleOverlaySize : M unit :=
  ov <- gets overlay ;;
  match ov with
  | None => ret tt
  | Some p0 =>
      let isMaximized := optEqb (stSize p0) (lit "max") in
      modifyPanel (fun p =>
        set_style {| style_left := Css (lit "0");
                     style_right := Css (lit "0");
                     style_top := style_top (style p);
                     style_bottom := style_bottom (style p);
                     style_margin :=
                       Css (if isMaximized then lit "0 auto" else lit "0");
                     style_width := Css (lit "100%");
                     style_maxWidth :=
                       Css (if isMaximized then lit "900px" else lit "100%");
                     style_transition := style_transition (style p);
                     style_borderColor := style_borderColor (style p) |} p) ;;;
      modifyPanel (set_stSize
                     (Some (if isMaximized then lit "min" else lit "max"))) ;;;
      modifyPanel (fun p =>
        set_content
          (set_toggleLabel (if isMaximized then maximizeIcon else minimizeIcon)
                           (content p)) p)
  end.

Definition hasContainer (c : Controller) : bool :=
  match overlay c with
  | Some p => match content p with Container _ _ => true | Plain _ => false end
  | None => false
  end.

(* ================================================================ *)
(** ** The event loop *)

(** Everything the controller reacts to.  A translation round trip is
    two events: the recognition result, which may send a request, and
    the arrival of the reply, at which the rest of the handler runs. *)
Inductive Event :=
| OnMessage (supported : bool) (m : ExtensionMessage)
| OnStart
| OnResult (event : SpeechRecognitionEvent)
| OnReply (p : PendingTranslation) (reply : Reply) (now : Z)
| OnError (error : jsstring)
| OnEnd
| OnRestartTimer
| OnMouseDown (e : MouseEvent) (rect : DOMRect)
| OnMouseMove (e : MouseEvent) (l : Layout)
| OnMouseUp
| OnCloseClick
| OnToggleClick.

Definition discard {A} (m : M A) : M unit := bind m (fun _ => ret tt).

Definition dispatch (ev : Event) : M unit :=
  match ev with
  | OnMessage supported m => handleMessage supported m
  | OnStart => handleRecognitionStart
  | OnResult event => discard (handleRecognitionResult_begin event)
  | OnReply p reply now => handleRecognitionResult_resume p reply now
  | OnError error => handleRecognitionError error
  | OnEnd => handleRecognitionEnd
  | OnRestartTimer => restartCallback
  | OnMouseDown e rect => handleDragStart e rect
  | OnMouseMove e l => handleDragMove e l
  | OnMouseUp => handleDragEnd
  | OnCloseClick =>
      (* the button exists only inside the container *)
      has <- gets hasContainer ;;
      if has then stopRecognition else ret tt
  | OnToggleClick =>
      has <- gets hasContainer ;;
      if has then toggleOverlaySize else ret tt
  end.

Definition step (c : Controller) (ev : Event) : Controller :=
  stateAfter (dispatch ev c).

(** The controller after a sequence of events. *)
Definition run (evs : list Event) (c : Controller) : Controller :=
  fold_left step evs c.

(** A sequence of finalized display calls, one per (translated,
    original) pair. *)
Definition displayFinals (pairs : list (jsstring * jsstring))
  (c : Controller) : Controller :=
  fold_left
    (fun c' p => stateAfter (displayBothLanguages (fst p) (snd p) true c'))
    pairs c.

(* ================================================================ *)
(** ** Observations on a controller *)

Definition stListOf (c : Controller) : list Block :=
  match overlay c with
  | Some p =>
      match content p with
      | Container _ l => l
      | Plain _ => []
      end
  | None => []
  end.

(** The history entries of the panel, in document order. *)
Definition history (c : Controller) : list Block :=
  filter (fun b => negb (isLive b)) (stListOf c).

(** The number of live blocks in the panel. *)
Definition liveCount (c : Controller) : nat :=
  List.length (filter isLive (stListOf c)).

(** The overlay is on the page. *)
Definition overlayPresent (c : Controller) : bool :=
  match overlay c with
  | Some p => parentNode p
  | None => false
  end.

(** The number of positions of [keys] whose key differs from the one
    before it, [prev] standing before the first. *)
Fixpoint keyChanges (prev : option jsstring) (keys : list jsstring) : nat :=
  match keys with
  | [] => 0
  | k :: r =>
      (if optEqb prev k then 0 else 1) + keyChanges (Some k) r
  end.

Definition isSendMessage (e : Effect) : bool :=
  match e with
  | SendMessage _ => true
  | _ => false
  end.

Definition isTranslationRequest (e : Effect) : bool :=
  match e with
  | SendMessage (MsgTranslationRequest _ _ _) => true
  | _ => false
  end.

(** A history entry showing [m]: what the clone of a live block with
    that markup is after 447-450. *)
Definition historyBlock (m : jsstring) : Block :=
  {| isLive := false; markup := m;
     marginBottom := lit "6px";
     borderBottom := lit "none";
     paddingBottom := lit "0" |}.

(** The history entry a finalized pair produces. *)
Definition historyEntry (translatedText originalText : jsstring) : Block :=
  historyBlock (liveMarkup translatedText originalText).

(** The panel, when the controller holds one, is attached to the page. *)
Definition panelAttached (c : Controller) : Prop :=
  match overlay c with
  | Some p => parentNode p = true
  | None => True
  end.

(** The text a value contributes after [x || ''] and [join('')]:
    nothing when it is missing or falsy, its string otherwise; there is
    none when the conversion to a string throws. *)
Definition textOf (v : option JSON) : option jsstring :=
  match v with
  | Some v' =>
      if truthy v' then
        match toStr v' with
        | Normal s => Some s
        | Throw _ => None
        end
      else Some []
  | None => Some []
  end.

(** What a [map] callback [x => read(x) || ''] gives for an entry. *)
Definition picked (read : JSON -> Completion (option JSON)) (x : JSON)
  : Completion JSON :=
  cbind (read x) (fun t => Normal (orEmpty t)).

(** The text of an entry: that of the value read from it; there is
    none when the read throws. *)
Definition readText (read : JSON -> Completion (option JSON)) (x : JSON)
  : option jsstring :=
  match read x with
  | Normal t => textOf t
  | Throw _ => None
  end.

(** The text of a [sentences] entry: that of its [trans] value.  A
    [null] entry has none, the read of [trans] throws on it. *)
Definition transValue (sentence : JSON) : option jsstring :=
  readText (fun s => getProp (Some s) (lit "trans")) sentence.

(** The text of a tuple: that of its first element.  A [null] item has
    none, the read of [0] throws on it. *)
Definition firstValue (item : JSON) : option jsstring :=
  readText getIndex0 item.

(** [parts] are the texts of the entries [l], in order. *)
Definition textsOf (f : JSON -> option jsstring) (l : list JSON)
  (parts : list jsstring) : Prop :=
  Forall2 (fun x s => f x = Some s) l parts.

(** Some entry of [l] has no text. *)
Definition someWithout (f : JSON -> option jsstring) (l : list JSON) : Prop :=
  Exists (fun x => f x = None) l.

(** Shape (a): an object with a [sentences] array. *)
Definition isShapeA (data : option JSON) : bool :=
  match data with
  | Some (JObj fields) => isArray (lookup (lit "sentences") fields)
  | _ => false
  end.

(** Shape (b): an array whose first element is an array. *)
Definition isShapeB (data : option JSON) : bool :=
  match data with
  | Some (JArr (JArr _ :: _)) => true
  | _ => false
  end.

(** What [translateText] returns for an extracted text: [null] when it
    is empty, the result record otherwise. *)
Definition resultOf (text sourceLang_ targetLang_ : jsstring) (now : Z)
  (translated : jsstring) : option TranslationResult :=
  if isEmpty translated then None
  else Some {| originalText := text; translatedText := translated;
               sourceLang := sourceLang_; targetLang := targetLang_;
               timestamp := now |}.

(** The errors after which the engine is restarted. *)
Definition recoverable (error : jsstring) : Prop :=
  error = lit "no-speech" \/ error = lit "aborted".

(** The list after the unconditional part of a display call. *)
Definition liveUpdated (t o : jsstring) (c : Controller) : list Block :=
  setLiveMarkup (liveMarkup t o) (ensureLive (stListOf c)).

(** [m] keeps [P]: whatever [m] does, a controller satisfying [P]
    satisfies it afterwards. *)
Definition preserves {A} (P : Controller -> Prop) (m : M A) : Prop :=
  forall c, P c -> P (stateAfter (m c)).

(** The panel has at most one live block and, when the controller
    holds one, it is on the page. *)
Definition panelInvariant (c : Controller) : Prop :=
  liveCount c <= 1 /\ panelAttached c.

(* ================================================================ *)
(** ** Example sessions *)

Definition demoConfig : RecognitionConfig :=
  {| inputLang := lit "en-US"; outputLang := lit "es" |}.

(** The controller after START_RECOGNITION with [demoConfig]. *)
Definition listening : Controller :=
  stateAfter (startRecognition true demoConfig initialController).

(** The controller after a STOP_RECOGNITION that follows. *)
Definition stopped : Controller := stateAfter (stopRecognition listening).

(** An inactive controller that still holds a panel. *)
Definition orphaned : Controller := set_isActive false listening.

(** The commands of the settings UI. *)
Definition startCommand : ExtensionMessage :=
  {| msg_type := START_RECOGNITION; msg_config := Some demoConfig |}.
Definition stopCommand : ExtensionMessage :=
  {| msg_type := STOP_RECOGNITION; msg_config := None |}.

Definition hola : jsstring := lit "Hola".
Definition helloThere : jsstring := lit "Hello there".

(** A final result "Hello there" waiting for its translation. *)
Definition helloPending : PendingTranslation :=
  {| pending_transcript := helloThere; pending_isFinal := true;
     pending_sourceLang := lit "en"; pending_targetLang := lit "es" |}.

(** A viewport 800 pixels wide and a panel 832 pixels wide (a width of
    100% of the viewport and the panel's horizontal padding on top). *)
Definition narrowLayout : Layout :=
  {| innerWidth := 800; innerHeight := 600;
     offsetWidth := 832; offsetHeight := 120 |}.

Definition wideLayout : Layout :=
  {| innerWidth := 1280; innerHeight := 720;
     offsetWidth := 932; offsetHeight := 120 |}.

(** [listening] after a pointer-down on the panel. *)
Definition dragging : Controller :=
  stateAfter (handleDragStart {| clientX := 100; clientY := 500 |}
                              {| rect_left := 0; rect_top := 480 |}
                              listening).

(* ================================================================ *)
(** ** Further observations *)

(** The list is empty, or its first child is the live block and every
    other child is a history entry. *)
Definition liveFirst (l : list Block) : Prop :=
  match l with
  | [] => True
  | b :: r => isLive b = true /\ Forall (fun h => isLive h = false) r
  end.

(** What the controller's fields say about each other between two
    events. *)
Definition sessionInvariant (c : Controller) : Prop :=
  panelAttached c /\
  liveFirst (stListOf c) /\
  (isActive c = true <-> overlay c <> None) /\
  (isActive c = true <-> config c <> None) /\
  (isActive c = true -> recognition c <> None) /\
  (isActive c = false -> lastLineKey c = None) /\
  clearTimer c = None.

Definition isErrorMessage (e : Effect) : bool :=
  match e with
  | SendMessage (MsgError _) => true
  | _ => false
  end.

(** Every effect of [m], from whatever controller, satisfies [Q]. *)
Definition emitsOnly {A} (Q : Effect -> Prop) (m : M A) : Prop :=
  forall c, Forall Q (effectsOf (m c)).

(** The events after which an ERROR message can go to the UI: an engine
    error, and a start command where speech recognition is missing. *)
Definition mayReportError (ev : Event) : bool :=
  match ev with
  | OnError _ => true
  | OnMessage supported m =>
      match msg_type m, msg_config m with
      | START_RECOGNITION, Some _ => negb supported
      | _, _ => false
      end
  | _ => false
  end.

(** The session is not active. *)
Definition inactive (c : Controller) : Prop := isActive c = false.

(** The start command that can begin a session. *)
Definition isStartCommand (ev : Event) : bool :=
  match ev with
  | OnMessage supported m =>
      match msg_type m, msg_config m with
      | START_RECOGNITION, Some _ => supported
      | _, _ => false
      end
  | _ => false
  end.

(* ================================================================ *)
(** ** The command listener *)

(** The argument of [sendResponse], content_script.ts 46-49. *)
Record Acknowledgement := {
  ack_success : bool;
  ack_error : option jsstring
}.

(** The listener of [initializeMessageListener], 39-53: it runs
    [handleMessage] and answers with its outcome. *)
Definition messageListener (supported : bool) (m : ExtensionMessage)
  : M Acknowledgement :=
  fun c =>
    match handleMessage supported m c with
    | (Normal _, c', o) =>
        (Normal {| ack_success := true; ack_error := None |}, c', o)
    | (Throw e, c', o) =>
        (Normal {| ack_success := false; ack_error := Some (message e) |},
         c', o)
    end.

(** The message of the [Error] built at 299-301 from a response
    without a truthy [success]: [response.error || 'Translation failed']
    converted to a string, a conversion that may itself throw. *)
Definition failureMessage (response : JSON) : Completion jsstring :=
  match response with
  | JObj fields =>
      match lookup (lit "error") fields with
      | Some v => if truthy v then toStr v
                  else Normal (lit "Translation failed")
      | None => Normal (lit "Translation failed")
      end
  | _ => Normal (lit "Translation failed")
  end.

(** The response does not carry a truthy [success]. *)
Definition reportsFailure (response : JSON) : bool :=
  match response with
  | JObj fields => negb (truthyOpt (lookup (lit "success") fields))
  | _ => true
  end.

(** The transcript and finality [handleRecognitionResult] reads from an
    event: those of the first alternative of the last slot, when the
    event has them. *)
Definition lastTranscript (event : SpeechRecognitionEvent)
  : option (jsstring * bool) :=
  match last (map Some (results event)) None with
  | Some result =>
      match alternatives result with
      | alt :: _ => Some (transcript alt, isFinal result)
      | [] => None
      end
  | None => None
  end.

(** The interim filter of 185: final results pass, interim ones pass
    from five code units on, trimmed. *)
Definition passesGate (t : jsstring) (fin : bool) : bool :=
  fin || (5 <=? List.length (trim t))%nat.

Definition isEngineCall (e : Effect) : bool :=
  match e with
  | NewRecognition _ => true
  | RecognitionStart => true
  | RecognitionStop => true
  | _ => false
  end.

Definition noErrorMessage (e : Effect) : Prop := isErrorMessage e = false.

(* ================================================================ *)
(** ** The background service worker (background.ts) *)

(** [response.json()]: the parsed body, or a rejection. *)
Inductive BodyOutcome :=
| BodyJson (v : JSON)
| BodyRejected (e : JsError).

(** [await fetch(url)]: a rejection, or a response with its status. *)
Inductive FetchOutcome :=
| FetchRejected (e : JsError)
| FetchResponse (status : Z) (body : BodyOutcome).

(** [response.ok]: the status is in the range 200-299. *)
Definition responseOk (status : Z) : bool :=
  (200 <=? status)%Z && (status <=? 299)%Z.

(** The object given to [URLSearchParams], background.ts 90-96, for the
    data of a translation request. *)
Definition translationQuery (text sourceLang_ targetLang_ : jsstring)
  : list (jsstring * jsstring) :=
  [(lit "client", lit "gtx"); (lit "sl", sourceLang_);
   (lit "tl", targetLang_); (lit "dt", lit "t"); (lit "q", text)].

(** The query the background builds for a message of the content
    script, when the message is a translation request. *)
Definition queryFor (m : OutMessage) : option (list (jsstring * jsstring)) :=
  match m with
  | MsgTranslationRequest text src tgt => Some (translationQuery text src tgt)
  | _ => None
  end.

(** [handleTranslationRequest], background.ts 84-111, from the outcome
    of its [fetch] on. *)
Definition handleTranslationRequest (outcome : FetchOutcome)
  : Completion JSON :=
  match outcome with
  | FetchRejected e => Throw e
  | FetchResponse status body =>
      if negb (responseOk status)
      then Throw {| message := lit "Translation API error: "
                               ++ intToString status |}
      else match body with
           | BodyJson v => Normal v
           | BodyRejected e => Throw e
           end
  end.

(** [{ received: true }] *)
Definition receivedResponse : JSON := JObj [(lit "received", JBool true)].

Record ListenerResult := {
  sentResponse : JSON;        (* the argument of sendResponse *)
  keepsChannelOpen : bool;    (* the listener's return value *)
  forwardsMessage : bool      (* chrome.runtime.sendMessage(message) *)
}.

(** The [onMessage] listener of the background, background.ts 39-79;
    [outcome] is the outcome of the fetch a translation request
    starts. *)
Definition backgroundListener (type : MessageType) (outcome : FetchOutcome)
  : ListenerResult :=
  match type with
  | STATUS_UPDATE =>
      {| sentResponse := receivedResponse; keepsChannelOpen := false;
         forwardsMessage := true |}
  | ERROR =>
      {| sentResponse := receivedResponse; keepsChannelOpen := false;
         forwardsMessage := false |}
  | TRANSLATION_RESULT =>
      {| sentResponse :=
           match handleTranslationRequest outcome with
           | Normal result =>
               JObj [(lit "success", JBool true); (lit "data", result)]
           | Throw error =>
               JObj [(lit "success", JBool false);
                     (lit "error", JStr (message error))]
           end;
         keepsChannelOpen := true;
         forwardsMessage := false |}
  | _ =>
      {| sentResponse := receivedResponse; keepsChannelOpen := false;
         forwardsMessage := false |}
  end.

(** [s] holds no code unit [x]. *)
Definition lacks (x : codeunit) (s : jsstring) : bool :=
  forallb (fun c => negb (N.eqb c x)) s.

(* ================================================================ *)
(** ** The popup (the script that follows the types in types.ts) *)

(** [chrome.storage.local], at the three keys the extension uses. *)
Record Storage := {
  stored_inputLang : option jsstring;
  stored_outputLang : option jsstring;
  stored_isActive : option bool
}.

Definition emptyStorage : Storage :=
  {| stored_inputLang := None; stored_outputLang := None;
     stored_isActive := None |}.

(** [ExtensionState], types.ts 119-124. *)
Record ExtensionState := {
  state_inputLang : jsstring;
  state_outputLang : jsstring;
  state_isActive : bool
}.

(** [v || d] for a stored string. *)
Definition orDefault (v : option jsstring) (d : jsstring) : jsstring :=
  match v with
  | Some s => if isEmpty s then d else s
  | None => d
  end.

(** [loadState], types.ts 180-193. *)
Definition loadState (s : Storage) : ExtensionState :=
  {| state_inputLang := orDefault (stored_inputLang s) (lit "en-US");
     state_outputLang := orDefault (stored_outputLang s) (lit "es");
     state_isActive := match stored_isActive s with
                       | Some b => b
                       | None => false
                       end |}.

(** [Partial<ExtensionState>] *)
Record PartialState := {
  partial_inputLang : option jsstring;
  partial_outputLang : option jsstring;
  partial_isActive : option bool
}.

Definition orStored {A} (v stored : option A) : option A :=
  match v with
  | Some x => Some x
  | None => stored
  end.

(** [saveState], types.ts 198-214. *)
Definition saveState (ps : PartialState) (s : Storage) : Storage :=
  {| stored_inputLang := orStored (partial_inputLang ps) (stored_inputLang s);
     stored_outputLang :=
       orStored (partial_outputLang ps) (stored_outputLang s);
     stored_isActive := orStored (partial_isActive ps) (stored_isActive s) |}.

(** The [onInstalled] listener, background.ts 11-27. *)
Definition onInstalled (reason : jsstring) (s : Storage) : Storage :=
  if eqb reason (lit "install")
  then saveState {| partial_inputLang := Some (lit "en-US");
                    partial_outputLang := Some (lit "es");
                    partial_isActive := Some false |} s
  else s.

(** The popup's controls. *)
Record PopupUI := {
  startDisabled : bool;
  stopDisabled : bool;
  inputDisabled : bool;
  outputDisabled : bool;
  inputValue : jsstring;          (* inputLangSelect.value *)
  outputValue : jsstring;         (* outputLangSelect.value *)
  statusText : jsstring;          (* statusDiv.textContent *)
  statusActive : bool             (* statusDiv has class active *)
}.

(** [updateUIState], types.ts 309-321. *)
Definition updateUIState (isActive_ : bool) (u : PopupUI) : PopupUI :=
  {| startDisabled := isActive_;
     stopDisabled := negb isActive_;
     inputDisabled := isActive_;
     outputDisabled := isActive_;
     inputValue := inputValue u; outputValue := outputValue u;
     statusText := statusText u; statusActive := statusActive u |}.

(** The popup's [updateStatus], types.ts 326-334. *)
Definition popup_updateStatus (text : jsstring) (isActive_ : bool)
  (u : PopupUI) : PopupUI :=
  {| startDisabled := startDisabled u; stopDisabled := stopDisabled u;
     inputDisabled := inputDisabled u; outputDisabled := outputDisabled u;
     inputValue := inputValue u; outputValue := outputValue u;
     statusText := text; statusActive := isActive_ |}.

Record Popup := {
  ui : PopupUI;
  storage : Storage
}.

Definition onlyIsActive (b : bool) : PartialState :=
  {| partial_inputLang := None; partial_outputLang := None;
     partial_isActive := Some b |}.

(** The popup's [onMessage] listener, types.ts 350-366, for a message
    of the content script; the second component is the argument of
    [sendResponse]. *)
Definition popupListener (m : OutMessage) (s : Popup) : Popup * JSON :=
  (match m with
   | MsgStatusUpdate active status =>
       {| ui := popup_updateStatus
                  (if isEmpty status then lit "Unknown status" else status)
                  active (ui s);
          storage := storage s |}
   | MsgError error =>
       {| ui := updateUIState false
                  (popup_updateStatus (lit "Error: " ++ error) false (ui s));
          storage := saveState (onlyIsActive false) (storage s) |}
   | MsgTranslationRequest _ _ _ => s
   end,
   receivedResponse).

(** [handleLanguageChange], types.ts 339-345. *)
Definition handleLanguageChange (s : Popup) : Popup :=
  {| ui := ui s;
     storage := saveState {| partial_inputLang := Some (inputValue (ui s));
                             partial_outputLang := Some (outputValue (ui s));
                             partial_isActive := None |} (storage s) |}.

(** The message [handleStart] sends, types.ts 265-268. *)
Definition startMessage (u : PopupUI) : ExtensionMessage :=
  {| msg_type := START_RECOGNITION;
     msg_config := Some {| inputLang := inputValue u;
                           outputLang := outputValue u |} |}.

(** [handleStart], types.ts 250-280, run to its end; [delivery] is how
    [sendMessageToContentScript] completed. *)
Definition handleStart (delivery : Completion unit) (s : Popup) : Popup :=
  let saved :=
    saveState {| partial_inputLang := Some (inputValue (ui s));
                 partial_outputLang := Some (outputValue (ui s));
                 partial_isActive := Some true |} (storage s) in
  match delivery with
  | Normal _ =>
      {| ui := popup_updateStatus (lit "Recognition Started") true
                 (updateUIState true (ui s));
         storage := saved |}
  | Throw _ =>
      {| ui := popup_updateStatus (lit "Failed to start - reload page") false
                 (ui s);
         storage := saveState (onlyIsActive false) saved |}
  end.

(** [handleStop], types.ts 285-304, run to its end; [delivery] as
    above. *)
Definition handleStop (delivery : Completion unit) (s : Popup) : Popup :=
  match delivery with
  | Normal _ =>
      {| ui := popup_updateStatus (lit "Recognition Stopped") false
                 (updateUIState false (ui s));
         storage := saveState (onlyIsActive false) (storage s) |}
  | Throw _ =>
      {| ui := popup_updateStatus (lit "Failed to stop") false (ui s);
         storage := storage s |}
  end.

(** The start button is disabled exactly when the stop button is
    enabled, and the two selectors are disabled with it. *)
Definition buttonsConsistent (u : PopupUI) : Prop :=
  stopDisabled u = negb (startDisabled u) /\
  inputDisabled u = startDisabled u /\
  outputDisabled u = startDisabled u.

(** What an effect of the content script does to an open popup and to
    the shared storage. *)
Definition deliver (s : Popup) (e : Effect) : Popup :=
  match e with
  | StorageSetIsActive b =>
      {| ui := ui s; storage := saveState (onlyIsActive b) (storage s) |}
  | SendMessage m => fst (popupListener m s)
  | _ => s
  end.

Definition deliverAll (effects : list Effect) (s : Popup) : Popup :=
  fold_left deliver effects s.

(* ================================================================ *)
(** * Properties *)

(** ** Strings *)

Lemma eqb_eq (a b : jsstring) : eqb a b = true <-> a = b.
Proof.
  revert b; induction a as [|x a IH]; intros [|y b]; simpl;
    try (split; [discriminate | discriminate]); try tauto.
  rewrite andb_true_iff, N.eqb_eq, IH.
  split; [intros [-> ->]; reflexivity | intros [= -> ->]; auto].
Qed.

Lemma eqb_refl (a : jsstring) : eqb a a = true.
Proof. apply eqb_eq; reflexivity. Qed.

Lemma eqb_neq (a b : jsstring) : eqb a b = false <-> a <> b.
Proof.
  rewrite <- eqb_eq. destruct (eqb a b); split; congruence.
Qed.

Lemma optEqb_true (o : option jsstring) (k : jsstring) :
  optEqb o k = true <-> o = Some k.
Proof.
  destruct o as [a|]; simpl; [|split; discriminate].
  rewrite eqb_eq. split; [intros ->; reflexivity | intros [= ->]; reflexivity].
Qed.

Lemma optEqb_false (o : option jsstring) (k : jsstring) :
  optEqb o k = false <-> o <> Some k.
Proof.
  rewrite <- optEqb_true. destruct (optEqb o k); split; congruence.
Qed.

(** ** HTML escaping *)

Lemma replaceAll_cons (c : codeunit) (r : jsstring) (x : codeunit)
  (s : jsstring) :
  replaceAll c r (x :: s) = (if N.eqb x c then r else [x]) ++ replaceAll c r s.
Proof. reflexivity. Qed.

Lemma replaceAll_app (c : codeunit) (r a b : jsstring) :
  replaceAll c r (a ++ b) = replaceAll c r a ++ replaceAll c r b.
Proof. unfold replaceAll. apply flat_map_app. Qed.

(** The four passes of the serialiser amount to one pass that rewrites
    each code unit on its own. *)
Lemma escapeString_cons (x : codeunit) (s : jsstring) :
  escapeString (x :: s) = escapeChar x ++ escapeString s.
Proof.
  unfold escapeString, escapeChar.
  rewrite (replaceAll_cons AMP).
  rewrite !replaceAll_app.
  f_equal.
  destruct (N.eqb_spec x AMP) as [->|Hamp]; [reflexivity|].
  destruct (N.eqb_spec x NBSP) as [->|Hnb]; [reflexivity|].
  destruct (N.eqb_spec x LT) as [->|Hlt]; [reflexivity|].
  destruct (N.eqb_spec x GT) as [->|Hgt]; [reflexivity|].
  cbn [replaceAll flat_map app].
  apply N.eqb_neq in Hnb, Hlt, Hgt.
  rewrite Hnb. cbn [flat_map app]. rewrite Hlt. cbn [flat_map app].
  rewrite Hgt. reflexivity.
Qed.

Lemma escapeString_escapeChars (s : jsstring) :
  escapeString s = escapeChars s.
Proof.
  induction s as [|x s IH]; [reflexivity|].
  rewrite escapeString_cons, IH. reflexivity.
Qed.

Lemma escapeHtml_escapeChars (s : jsstring) : escapeHtml s = escapeChars s.
Proof.
  unfold escapeHtml, set_textContent, innerHTML.
  destruct s as [|x s]; [reflexivity|].
  cbn [isEmpty childNodes flat_map serializeChild].
  rewrite app_nil_r. apply escapeString_escapeChars.
Qed.

Lemma occurrences_app (c : codeunit) (a b : jsstring) :
  occurrences c (a ++ b) = occurrences c a + occurrences c b.
Proof. unfold occurrences. apply count_occ_app. Qed.

Lemma escapeChar_no_markup (x : codeunit) :
  occurrences LT (escapeChar x) = 0 /\ occurrences GT (escapeChar x) = 0.
Proof.
  unfold escapeChar.
  destruct (N.eqb_spec x AMP); [split; reflexivity|].
  destruct (N.eqb_spec x NBSP); [split; reflexivity|].
  destruct (N.eqb_spec x LT) as [|Hlt]; [split; reflexivity|].
  destruct (N.eqb_spec x GT) as [|Hgt]; [split; reflexivity|].
  split; apply count_occ_not_In; intros [H|[]]; congruence.
Qed.

Lemma escapeHtml_no_markup (s : jsstring) :
  occurrences LT (escapeHtml s) = 0 /\ occurrences GT (escapeHtml s) = 0.
Proof.
  rewrite escapeHtml_escapeChars. unfold escapeChars.
  induction s as [|x s [IH1 IH2]]; [split; reflexivity|].
  change (flat_map escapeChar (x :: s))
    with (escapeChar x ++ flat_map escapeChar s).
  rewrite !occurrences_app, IH1, IH2.
  destruct (escapeChar_no_markup x) as [-> ->]. split; reflexivity.
Qed.

Lemma escapeChar_without_nbsp (x : codeunit) :
  x <> NBSP -> escapeChar x = specEscapeChar x.
Proof.
  intros H. unfold escapeChar, specEscapeChar.
  apply N.eqb_neq in H. rewrite H. reflexivity.
Qed.

(** Whatever the two texts are, the markup of a block has the four
    tags of the template and no other. *)
Lemma liveMarkup_tag_count (t o : jsstring) :
  occurrences LT (liveMarkup t o) = 4 /\ occurrences GT (liveMarkup t o) = 4.
Proof.
  unfold liveMarkup.
  destruct (escapeHtml_no_markup t) as [Ht1 Ht2].
  destruct (escapeHtml_no_markup o) as [Ho1 Ho2].
  rewrite !occurrences_app, Ht1, Ht2, Ho1, Ho2.
  split; reflexivity.
Qed.

(** ** Running handlers symbolically *)

(** Unfolds the monad and the field updates, leaving strings, markup and
    list operations folded. *)
Ltac run_handler :=
  cbv beta iota zeta delta
    [bind ret throw tryCatch gets modify emit liftC discard
     stateAfter effectsOf completionOf
     updateStatus sendErrorMessage clearPendingTimer modifyPanel
     createOverlay updateOverlay removeOverlay cleanup
     stopRecognition startRecognition handleMessage
     handleRecognitionStart handleRecognitionError restartCallback
     handleRecognitionEnd displayBothLanguages
     handleDragStart handleDragMove handleDragEnd toggleOverlaySize
     set_recognition set_config set_overlay set_isActive set_isDragging
     set_dragOffset set_clearTimer set_lastLineKey
     set_content set_style set_stSize set_transition
     recognition config overlay isActive isDragging dragOffset clearTimer
     lastLineKey parentNode content style stSize
     option_map fst snd app negb andb orb].

(** ** The panel's list under a display call *)

Lemma ensureLive_hasLive (l : list Block) : hasLive (ensureLive l) = true.
Proof.
  unfold ensureLive. destruct (hasLive l) eqn:E; [exact E | reflexivity].
Qed.

Lemma setLiveMarkup_hasLive (m : jsstring) (l : list Block) :
  hasLive (setLiveMarkup m l) = hasLive l.
Proof.
  unfold hasLive. induction l as [|b r IH]; [reflexivity|].
  cbn [setLiveMarkup]. destruct (isLive b) eqn:E; cbn [existsb isLive].
  - rewrite E. reflexivity.
  - rewrite E, IH. reflexivity.
Qed.

Lemma filter_live_ensureLive (l : list Block) :
  List.length (filter isLive (ensureLive l))
  = Nat.max 1 (List.length (filter isLive l)).
Proof.
  unfold ensureLive, hasLive.
  destruct (existsb isLive l) eqn:E.
  - apply existsb_exists in E. destruct E as [b [Hin Hb]].
    assert (In b (filter isLive l)) as H by (apply filter_In; auto).
    destruct (filter isLive l); [destruct H|]. cbn [List.length]. lia.
  - assert (filter isLive l = []) as H.
    { induction l as [|b r IH]; [reflexivity|].
      cbn [existsb] in E. apply orb_false_iff in E. destruct E as [E1 E2].
      cbn [filter]. rewrite E1. auto. }
    change (filter isLive (newLiveBlock :: l))
      with (newLiveBlock :: filter isLive l).
    rewrite H. reflexivity.
Qed.

Lemma filter_live_setLiveMarkup (m : jsstring) (l : list Block) :
  List.length (filter isLive (setLiveMarkup m l))
  = List.length (filter isLive l).
Proof.
  induction l as [|b r IH]; [reflexivity|].
  cbn [setLiveMarkup]. destruct (isLive b) eqn:E; cbn [filter isLive].
  - rewrite E. reflexivity.
  - rewrite E. exact IH.
Qed.

Lemma filter_live_insertHistory (l : list Block) :
  filter isLive (insertHistory l) = filter isLive l.
Proof.
  induction l as [|b r IH]; [reflexivity|].
  cbn [insertHistory]. destruct (isLive b) eqn:E;
    cbn [filter isLive cloneAsHistory]; rewrite E.
  - reflexivity.
  - exact IH.
Qed.

Lemma filter_history_ensureLive (l : list Block) :
  filter (fun b => negb (isLive b)) (ensureLive l)
  = filter (fun b => negb (isLive b)) l.
Proof.
  unfold ensureLive. destruct (hasLive l); reflexivity.
Qed.

Lemma filter_history_setLiveMarkup (m : jsstring) (l : list Block) :
  filter (fun b => negb (isLive b)) (setLiveMarkup m l)
  = filter (fun b => negb (isLive b)) l.
Proof.
  induction l as [|b r IH]; [reflexivity|].
  cbn [setLiveMarkup]. destruct (isLive b) eqn:E; cbn [filter isLive].
  - rewrite E. reflexivity.
  - rewrite E. cbn [negb]. f_equal. exact IH.
Qed.

(** Inserting the clone adds exactly one entry, which shows the markup
    just written, and leaves every older entry as it was and where it
    was relative to the others. *)
Lemma filter_history_insertHistory (m : jsstring) (l : list Block) :
  hasLive l = true ->
  exists h1 h2,
    filter (fun b => negb (isLive b)) l = h1 ++ h2 /\
    filter (fun b => negb (isLive b)) (insertHistory (setLiveMarkup m l))
    = h1 ++ historyBlock m :: h2.
Proof.
  unfold hasLive. induction l as [|b r IH]; [discriminate|].
  cbn [existsb setLiveMarkup]. destruct (isLive b) eqn:E.
  - intros _. exists [], (filter (fun b => negb (isLive b)) r).
    cbn [insertHistory isLive filter negb cloneAsHistory app markup].
    rewrite E. split; reflexivity.
  - cbn [orb]. intros H. destruct (IH H) as [h1 [h2 [H1 H2]]].
    exists (b :: h1), h2.
    cbn [insertHistory]. rewrite E. cbn [filter]. rewrite E. cbn [negb].
    rewrite H1, H2. split; reflexivity.
Qed.

(** ** What a display call does to the controller *)

Lemma display_absent (t o : jsstring) (f : bool) (c : Controller) :
  overlay c = None ->
  let c' := stateAfter (displayBothLanguages t o f c) in
  overlay c' = None /\ lastLineKey c' = lastLineKey c.
Proof.
  destruct c as [r cf ov a d off tm k]. cbn [overlay]. intros ->.
  run_handler. destruct tm; run_handler; split; reflexivity.
Qed.

Lemma display_present (t o : jsstring) (f : bool) (c : Controller) (p : Panel) :
  overlay c = Some p ->
  let c' := stateAfter (displayBothLanguages t o f c) in
  let fresh := f && negb (optEqb (lastLineKey c) (lineKey t o)) in
  stListOf c' = (if fresh then insertHistory (liveUpdated t o c)
                 else liveUpdated t o c) /\
  lastLineKey c' = (if fresh then Some (lineKey t o) else lastLineKey c) /\
  (exists p', overlay c' = Some p' /\ parentNode p' = parentNode p) /\
  isActive c' = isActive c.
Proof.
  destruct c as [r cf ov a d off tm k]. cbn [overlay lastLineKey]. intros ->.
  unfold liveUpdated, stListOf. cbn [overlay].
  destruct p as [pn [txt|lbl l] st sz]; destruct tm; destruct f;
    run_handler; cbn [ensureContainer mapStList];
    try destruct (optEqb k (lineKey t o));
    run_handler; cbn [ensureContainer mapStList stListOf overlay content];
    repeat split; try reflexivity; eexists; split; reflexivity.
Qed.

Lemma history_liveUpdated (t o : jsstring) (c : Controller) :
  filter (fun b => negb (isLive b)) (liveUpdated t o c) = history c.
Proof.
  unfold liveUpdated, history.
  rewrite filter_history_setLiveMarkup. apply filter_history_ensureLive.
Qed.

Lemma history_display_nonfinal (t o : jsstring) (c : Controller) :
  history (stateAfter (displayBothLanguages t o false c)) = history c.
Proof.
  destruct (overlay c) as [p|] eqn:E.
  - destruct (display_present t o false c p E) as [Hl _].
    cbn [andb] in Hl. unfold history at 1. rewrite Hl.
    apply history_liveUpdated.
  - destruct (display_absent t o false c E) as [Hov _].
    unfold history, stListOf. rewrite Hov, E. reflexivity.
Qed.

Lemma history_display_same_key (t o : jsstring) (c : Controller) (p : Panel) :
  overlay c = Some p ->
  lastLineKey c = Some (lineKey t o) ->
  history (stateAfter (displayBothLanguages t o true c)) = history c.
Proof.
  intros E K. destruct (display_present t o true c p E) as [Hl _].
  apply optEqb_true in K. rewrite K in Hl. cbn [andb negb] in Hl.
  unfold history at 1. rewrite Hl. apply history_liveUpdated.
Qed.

Lemma history_display_new_key (t o : jsstring) (c : Controller) (p : Panel) :
  overlay c = Some p ->
  lastLineKey c <> Some (lineKey t o) ->
  exists h1 h2,
    history c = h1 ++ h2 /\
    history (stateAfter (displayBothLanguages t o true c))
    = h1 ++ historyEntry t o :: h2.
Proof.
  intros E K. destruct (display_present t o true c p E) as [Hl _].
  apply optEqb_false in K. rewrite K in Hl. cbn [andb negb] in Hl.
  unfold history at 2. rewrite Hl. unfold liveUpdated.
  destruct (filter_history_insertHistory (liveMarkup t o)
              (ensureLive (stListOf c)) (ensureLive_hasLive _))
    as [h1 [h2 [H1 H2]]].
  exists h1, h2. split; [|exact H2].
  rewrite <- H1. symmetry. apply filter_history_ensureLive.
Qed.

Lemma lastLineKey_display_final (t o : jsstring) (c : Controller) (p : Panel) :
  overlay c = Some p ->
  lastLineKey (stateAfter (displayBothLanguages t o true c))
  = Some (lineKey t o).
Proof.
  intros E. destruct (display_present t o true c p E) as [_ [Hk _]].
  rewrite Hk. cbn [andb].
  destruct (optEqb (lastLineKey c) (lineKey t o)) eqn:K; [|reflexivity].
  apply optEqb_true in K. exact K.
Qed.

Lemma length_history_display_final (t o : jsstring) (c : Controller)
  (p : Panel) :
  overlay c = Some p ->
  List.length (history (stateAfter (displayBothLanguages t o true c)))
  = List.length (history c)
    + (if optEqb (lastLineKey c) (lineKey t o) then 0 else 1).
Proof.
  intros E. destruct (optEqb (lastLineKey c) (lineKey t o)) eqn:K.
  - apply optEqb_true in K.
    rewrite (history_display_same_key t o c p E K). lia.
  - apply optEqb_false in K.
    destruct (history_display_new_key t o c p E K) as [h1 [h2 [H1 H2]]].
    rewrite H1, H2, !length_app. cbn [List.length]. lia.
Qed.

Lemma keyChanges_repeat (prev : option jsstring) (k : jsstring) (n : nat) :
  keyChanges prev (repeat k n) <= 1.
Proof.
  assert (forall m, keyChanges (Some k) (repeat k m) = 0) as H.
  { induction m as [|m IH]; [reflexivity|].
    cbn [repeat keyChanges optEqb]. rewrite eqb_refl, IH. reflexivity. }
  destruct n as [|n]; cbn [repeat keyChanges]; [lia|].
  rewrite H. destruct (optEqb prev k); lia.
Qed.

Lemma displayFinals_spec (pairs : list (jsstring * jsstring)) :
  forall (c : Controller) (p : Panel),
    overlay c = Some p ->
    List.length (history (displayFinals pairs c))
    = List.length (history c)
      + keyChanges (lastLineKey c)
          (map (fun q => lineKey (fst q) (snd q)) pairs).
Proof.
  induction pairs as [|[t o] r IH]; intros c p E.
  - cbn [displayFinals fold_left map keyChanges]. lia.
  - cbn [displayFinals fold_left map keyChanges fst snd].
    destruct (display_present t o true c p E) as [_ [_ [[p' [E' _]] _]]].
    fold (displayFinals r (stateAfter (displayBothLanguages t o true c))).
    rewrite (IH _ p' E').
    rewrite (length_history_display_final t o c p E).
    rewrite (lastLineKey_display_final t o c p E). lia.
Qed.

Lemma history_kept_display_final (t o : jsstring) (c : Controller)
  (p : Panel) (b : Block) :
  overlay c = Some p ->
  In b (history c) ->
  In b (history (stateAfter (displayBothLanguages t o true c))).
Proof.
  intros E Hin.
  destruct (optEqb (lastLineKey c) (lineKey t o)) eqn:K.
  - apply optEqb_true in K.
    rewrite (history_display_same_key t o c p E K). exact Hin.
  - apply optEqb_false in K.
    destruct (history_display_new_key t o c p E K) as [h1 [h2 [H1 H2]]].
    rewrite H2. rewrite H1 in Hin. apply in_app_or in Hin.
    apply in_or_app. destruct Hin as [H|H]; [left; exact H|].
    right. right. exact H.
Qed.

Lemma history_kept_displayFinals (pairs : list (jsstring * jsstring)) :
  forall (c : Controller) (p : Panel) (b : Block),
    overlay c = Some p ->
    In b (history c) -> In b (history (displayFinals pairs c)).
Proof.
  induction pairs as [|[t o] r IH]; intros c p b E Hin; [exact Hin|].
  cbn [displayFinals fold_left fst snd].
  destruct (display_present t o true c p E) as [_ [_ [[p' [E' _]] _]]].
  fold (displayFinals r (stateAfter (displayBothLanguages t o true c))).
  apply (IH _ p' b E').
  apply (history_kept_display_final t o c p b E Hin).
Qed.

(** Without a panel a display call, final or not, renders nothing and
    stores no key, and so does any sequence of finalized calls. *)
Lemma displayFinals_absent (pairs : list (jsstring * jsstring)) :
  forall c,
    overlay c = None ->
    overlay (displayFinals pairs c) = None /\
    lastLineKey (displayFinals pairs c) = lastLineKey c.
Proof.
  induction pairs as [|[t o] r IH]; intros c E; [split; [exact E|reflexivity]|].
  cbn [displayFinals fold_left fst snd].
  fold (displayFinals r (stateAfter (displayBothLanguages t o true c))).
  destruct (display_absent t o true c E) as [E' K'].
  destruct (IH _ E') as [E'' K'']. split; [exact E''|].
  rewrite K''. exact K'.
Qed.

Lemma history_absent (c : Controller) : overlay c = None -> history c = [].
Proof. unfold history, stListOf. intros ->. reflexivity. Qed.

(** C1 (as amended).  While the controller holds an overlay panel, a
    finalized display call adds a history entry exactly when the key of
    its (translated, original) pair differs from [lastLineKey]; the key
    is then stored.  Every older entry stays as it was (the new one is
    inserted among them, after the live block); a non-final call leaves
    the history alone.  Over a sequence of finalized calls the history
    grows by the number of key changes, so a run of identical pairs adds
    at most one entry, and every entry present before is present after.
    While the controller holds no overlay panel, a display call, final
    or not, and any sequence of finalized calls, creates no panel, adds
    no history entry and leaves [lastLineKey] as it was, whatever the
    key of the pair. *)
Theorem display_final_dedup :
  forall c : Controller,
    (forall p : Panel,
        overlay c = Some p ->
        (forall t o,
            let c' := stateAfter (displayBothLanguages t o true c) in
            lastLineKey c' = Some (lineKey t o) /\
            (List.length (history c') = S (List.length (history c))
             <-> lastLineKey c <> Some (lineKey t o)) /\
            (lastLineKey c = Some (lineKey t o) -> history c' = history c) /\
            (lastLineKey c <> Some (lineKey t o) ->
             exists h1 h2,
               history c = h1 ++ h2 /\
               history c' = h1 ++ historyEntry t o :: h2)) /\
        (forall t o,
            history (stateAfter (displayBothLanguages t o false c))
            = history c) /\
        (forall pairs,
            List.length (history (displayFinals pairs c))
            = List.length (history c)
              + keyChanges (lastLineKey c)
                  (map (fun q => lineKey (fst q) (snd q)) pairs)) /\
        (forall t o n,
            List.length (history (displayFinals (repeat (t, o) n) c))
            <= S (List.length (history c))) /\
        (forall pairs b,
            In b (history c) -> In b (history (displayFinals pairs c)))) /\
    (overlay c = None ->
     (forall t o f,
         let c' := stateAfter (displayBothLanguages t o f c) in
         overlay c' = None /\ history c' = [] /\
         history c' = history c /\ lastLineKey c' = lastLineKey c) /\
     (forall pairs,
         let c' := displayFinals pairs c in
         overlay c' = None /\ history c' = [] /\
         history c' = history c /\ lastLineKey c' = lastLineKey c)).
Proof.
  intros c. split.
  - intros p E.
    split; [|split; [|split; [|split]]];
      [| | | |intros pairs b;
              apply (history_kept_displayFinals pairs c p b E)].
    all: repeat split.
    + apply (lastLineKey_display_final t o c p E).
    + intros H K. rewrite (history_display_same_key t o c p E K) in H. lia.
    + intros K. rewrite (length_history_display_final t o c p E).
      apply optEqb_false in K. rewrite K. lia.
    + apply (history_display_same_key t o c p E).
    + apply (history_display_new_key t o c p E).
    + intros t o. apply history_display_nonfinal.
    + intros pairs. apply (displayFinals_spec pairs c p E).
    + intros t o n. rewrite (displayFinals_spec _ c p E), map_repeat.
      pose proof (keyChanges_repeat (lastLineKey c) (lineKey t o) n).
      cbn [fst snd]. lia.
  - intros E. split.
    + intros t o f c'. destruct (display_absent t o f c E) as [E' K'].
      fold c' in E', K'.
      rewrite (history_absent c E), (history_absent c' E').
      repeat split; assumption.
    + intros pairs c'. destruct (displayFinals_absent pairs c E) as [E' K'].
      fold c' in E', K'.
      rewrite (history_absent c E), (history_absent c' E').
      repeat split; assumption.
Qed.

(** ** Invariants of the event loop *)

Section Preservation.

Variable P : Controller -> Prop.

Lemma preserves_ret {A} (a : A) : preserves P (ret a).
Proof. intros c H. exact H. Qed.

Lemma preserves_throw {A} (e : JsError) : preserves P (@throw A e).
Proof. intros c H. exact H. Qed.

Lemma preserves_gets {A} (f : Controller -> A) : preserves P (gets f).
Proof. intros c H. exact H. Qed.

Lemma preserves_emit (e : Effect) : preserves P (emit e).
Proof. intros c H. exact H. Qed.

Lemma preserves_liftC {A} (x : Completion A) : preserves P (liftC x).
Proof. intros c H. exact H. Qed.

Lemma preserves_bind {A B} (m : M A) (k : A -> M B) :
  preserves P m -> (forall a, preserves P (k a)) -> preserves P (bind m k).
Proof.
  intros Hm Hk c H. unfold bind, stateAfter.
  specialize (Hm c H). unfold stateAfter in Hm.
  destruct (m c) as [[[a|e] c1] o1]; cbn [fst snd] in *.
  - specialize (Hk a c1 Hm). unfold stateAfter in Hk.
    destruct (k a c1) as [[r c2] o2]. exact Hk.
  - exact Hm.
Qed.

Lemma preserves_tryCatch {A} (body : M A) (handler : JsError -> M A) :
  preserves P body -> (forall e, preserves P (handler e)) ->
  preserves P (tryCatch body handler).
Proof.
  intros Hb Hh c H. unfold tryCatch, stateAfter.
  specialize (Hb c H). unfold stateAfter in Hb.
  destruct (body c) as [[[a|e] c1] o1]; cbn [fst snd] in *.
  - exact Hb.
  - specialize (Hh e c1 Hb). unfold stateAfter in Hh.
    destruct (handler e c1) as [[r c2] o2]. exact Hh.
Qed.

Lemma preserves_discard {A} (m : M A) : preserves P m -> preserves P (discard m).
Proof.
  intros H. unfold discard. apply preserves_bind; [exact H|].
  intros a. apply preserves_ret.
Qed.

End Preservation.

(** A field update that leaves the overlay alone keeps the invariant. *)
Lemma preserves_modify_frame (f : Controller -> Controller) :
  (forall c, overlay (f c) = overlay c) ->
  preserves panelInvariant (modify f).
Proof.
  intros Hf c [H1 H2]. unfold modify, stateAfter. cbn [fst snd].
  unfold panelInvariant, liveCount, stListOf, panelAttached in *.
  rewrite Hf. split; assumption.
Qed.

(** So does an update of the panel that leaves its content and its
    place on the page alone. *)
Lemma inv_panel_style (f : Panel -> Panel) :
  (forall p, content (f p) = content p /\ parentNode (f p) = parentNode p) ->
  preserves panelInvariant (modifyPanel f).
Proof.
  intros Hf [r cf [p|] a d off tm k] [H1 H2]; run_handler;
    [|split; assumption].
  destruct (Hf p) as [Hc Hp].
  unfold panelInvariant, liveCount, stListOf, panelAttached in *.
  cbn [overlay] in *. rewrite Hc, Hp. split; assumption.
Qed.

Create HintDb handlers.

(** Decomposes a handler along its binds, branches and field updates;
    handlers already shown to keep the invariant are taken from the
    [handlers] database. *)
Ltac preserve :=
  repeat first
    [ solve [auto with handlers nocore]
    | apply preserves_ret
    | apply preserves_throw
    | apply preserves_gets
    | apply preserves_emit
    | apply preserves_liftC
    | apply preserves_discard
    | apply preserves_modify_frame; intros []; reflexivity
    | apply inv_panel_style; intros ?; split; reflexivity
    | assumption
    | apply preserves_bind; [|intros ?]
    | apply preserves_tryCatch; [|intros ?]
    | match goal with
      | |- preserves _ (match ?x with _ => _ end) => destruct x
      end ].

Lemma inv_clearPendingTimer : preserves panelInvariant clearPendingTimer.
Proof. unfold clearPendingTimer. preserve. Qed.
#[local] Hint Resolve inv_clearPendingTimer : handlers.

Lemma inv_createOverlay : preserves panelInvariant createOverlay.
Proof.
  intros [r cf [p|] a d off tm k] H; run_handler; [exact H|].
  split; [cbn; lia | reflexivity].
Qed.
#[local] Hint Resolve inv_createOverlay : handlers.

Lemma inv_updateOverlay (t b : jsstring) :
  preserves panelInvariant (updateOverlay t b).
Proof.
  intros [r cf [p|] a d off tm k] [H1 H2]; run_handler; [|split; assumption].
  split; [cbn; lia | exact H2].
Qed.
#[local] Hint Resolve inv_updateOverlay : handlers.

Lemma inv_removeOverlay : preserves panelInvariant removeOverlay.
Proof.
  intros [r cf [[[] ct st sz]|] a d off tm k] H; run_handler;
    first [exact H | split; [cbn; lia | exact I]].
Qed.
#[local] Hint Resolve inv_removeOverlay : handlers.

Lemma inv_cleanup : preserves panelInvariant cleanup.
Proof.
  unfold cleanup. preserve.
Qed.
#[local] Hint Resolve inv_cleanup : handlers.

Lemma inv_stopRecognition : preserves panelInvariant stopRecognition.
Proof.
  unfold stopRecognition, updateStatus. preserve.
Qed.
#[local] Hint Resolve inv_stopRecognition : handlers.

Lemma inv_startRecognition (supported : bool) (cfg : RecognitionConfig) :
  preserves panelInvariant (startRecognition supported cfg).
Proof.
  unfold startRecognition, updateStatus, sendErrorMessage. preserve.
Qed.
#[local] Hint Resolve inv_startRecognition : handlers.

Lemma inv_displayBothLanguages (t o : jsstring) (f : bool) :
  preserves panelInvariant (displayBothLanguages t o f).
Proof.
  intros c [H1 H2]. destruct (overlay c) as [p|] eqn:E.
  - destruct (display_present t o f c p E) as [Hl [_ [[p' [E' Hp]] _]]].
    split.
    + unfold liveCount. rewrite Hl.
      assert (List.length (filter isLive (liveUpdated t o c)) <= 1) as Hu.
      { unfold liveUpdated.
        rewrite filter_live_setLiveMarkup, filter_live_ensureLive.
        unfold liveCount in H1. lia. }
      destruct (f && negb (optEqb (lastLineKey c) (lineKey t o)));
        [rewrite filter_live_insertHistory|]; exact Hu.
    + unfold panelAttached in *. rewrite E', Hp. rewrite E in H2. exact H2.
  - destruct (display_absent t o f c E) as [Hov _].
    unfold panelInvariant, liveCount, stListOf, panelAttached.
    rewrite Hov. split; [cbn; lia | exact I].
Qed.
#[local] Hint Resolve inv_displayBothLanguages : handlers.

Lemma inv_translateText_resume (text src tgt : jsstring) (reply : Reply)
  (now : Z) :
  preserves panelInvariant (translateText_resume text src tgt reply now).
Proof.
  unfold translateText_resume. preserve.
Qed.
#[local] Hint Resolve inv_translateText_resume : handlers.

Lemma inv_handleRecognitionResult_begin (event : SpeechRecognitionEvent) :
  preserves panelInvariant (handleRecognitionResult_begin event).
Proof.
  unfold handleRecognitionResult_begin, translateText_send, updateStatus.
  preserve.
Qed.
#[local] Hint Resolve inv_handleRecognitionResult_begin : handlers.

Lemma inv_handleRecognitionResult_resume (p : PendingTranslation)
  (reply : Reply) (now : Z) :
  preserves panelInvariant (handleRecognitionResult_resume p reply now).
Proof.
  unfold handleRecognitionResult_resume. preserve.
Qed.
#[local] Hint Resolve inv_handleRecognitionResult_resume : handlers.

Lemma inv_handleDragStart (e : MouseEvent) (rect : DOMRect) :
  preserves panelInvariant (handleDragStart e rect).
Proof.
  unfold handleDragStart. preserve.
Qed.
#[local] Hint Resolve inv_handleDragStart : handlers.

Lemma inv_handleDragMove (e : MouseEvent) (l : Layout) :
  preserves panelInvariant (handleDragMove e l).
Proof.
  unfold handleDragMove. preserve.
Qed.
#[local] Hint Resolve inv_handleDragMove : handlers.

Lemma inv_handleDragEnd : preserves panelInvariant handleDragEnd.
Proof.
  unfold handleDragEnd. preserve.
Qed.
#[local] Hint Resolve inv_handleDragEnd : handlers.

Lemma inv_toggleOverlaySize : preserves panelInvariant toggleOverlaySize.
Proof.
  intros [r cf [[pn [txt|lbl l] st sz]|] a d off tm k] H; run_handler;
    exact H.
Qed.
#[local] Hint Resolve inv_toggleOverlaySize : handlers.

Lemma inv_dispatch (ev : Event) : preserves panelInvariant (dispatch ev).
Proof.
  destruct ev as [supported m| |event|p reply now|error| | |e rect|e l| | |];
    cbn [dispatch].
  - unfold handleMessage.
    destruct (msg_type m); [destruct (msg_config m)|..]; preserve.
  - unfold handleRecognitionStart. preserve.
  - preserve.
  - preserve.
  - unfold handleRecognitionError, sendErrorMessage. preserve.
  - unfold handleRecognitionEnd. preserve.
  - unfold restartCallback. preserve.
  - preserve.
  - preserve.
  - preserve.
  - preserve.
  - preserve.
Qed.

Lemma inv_initial : panelInvariant initialController.
Proof. split; [cbn; lia | exact I]. Qed.

Lemma inv_run (evs : list Event) :
  forall c, panelInvariant c -> panelInvariant (run evs c).
Proof.
  induction evs as [|ev r IH]; intros c H; [exact H|].
  cbn [run fold_left]. apply IH. apply (inv_dispatch ev c H).
Qed.

(** The number of live blocks after a display call: one when the panel
    had none, unchanged otherwise. *)
Lemma liveCount_display (t o : jsstring) (f : bool) (c : Controller) :
  liveCount (stateAfter (displayBothLanguages t o f c))
  = match overlay c with
    | Some _ => Nat.max 1 (liveCount c)
    | None => liveCount c
    end.
Proof.
  destruct (overlay c) as [p|] eqn:E.
  - destruct (display_present t o f c p E) as [Hl _].
    unfold liveCount at 1. rewrite Hl.
    assert (List.length (filter isLive (liveUpdated t o c))
            = Nat.max 1 (liveCount c)) as Hu.
    { unfold liveUpdated.
      rewrite filter_live_setLiveMarkup. apply filter_live_ensureLive. }
    destruct (f && negb (optEqb (lastLineKey c) (lineKey t o)));
      [rewrite filter_live_insertHistory|]; exact Hu.
  - destruct (display_absent t o f c E) as [Hov _].
    unfold liveCount, stListOf. rewrite Hov, E. reflexivity.
Qed.

(** C9.  A display call creates a live block only when the panel has
    none and otherwise keeps the ones there are, so the panel that had
    at most one has exactly one afterwards; and in every state the
    controller reaches from its initial one, by any sequence of events
    (commands, engine callbacks, translation replies, pointer events),
    the panel has at most one live block. *)
Theorem live_block_unique :
  (forall t o f c,
      liveCount (stateAfter (displayBothLanguages t o f c))
      = match overlay c with
        | Some _ => Nat.max 1 (liveCount c)
        | None => liveCount c
        end) /\
  (forall evs, liveCount (run evs initialController) <= 1) /\
  (forall evs calls,
      liveCount
        (fold_left
           (fun c' q =>
              stateAfter (displayBothLanguages (fst (fst q)) (snd (fst q))
                                               (snd q) c'))
           calls (run evs initialController)) <= 1).
Proof.
  split; [exact liveCount_display|]. split.
  - intros evs. apply (inv_run evs _ inv_initial).
  - intros evs calls.
    pose proof (inv_run evs _ inv_initial) as H. revert H.
    generalize (run evs initialController).
    induction calls as [|[[t o] f] r IH]; intros c H; [apply H|].
    cbn [fold_left fst snd]. apply IH.
    apply inv_displayBothLanguages. exact H.
Qed.

(** ** Stopping *)

Lemma stopRecognition_state (c : Controller) :
  let c' := stateAfter (stopRecognition c) in
  completionOf (stopRecognition c) = Normal tt /\
  recognition c' = None /\ config c' = None /\ isActive c' = false /\
  clearTimer c' = None /\ lastLineKey c' = None /\
  isDragging c' = isDragging c /\ dragOffset c' = dragOffset c /\
  overlay c' = match overlay c with
               | Some p => if parentNode p then None else Some p
               | None => None
               end.
Proof.
  destruct c as [[r|] cf [[[] ct st sz]|] a d off [id|] k]; run_handler;
    repeat split; reflexivity.
Qed.




(** ** Engine end and engine errors *)

Lemma cleanup_state (c : Controller) :
  let r := cleanup c in
  completionOf r = Normal tt /\
  overlayPresent (stateAfter r) = false /\
  isActive (stateAfter r) = false /\
  config (stateAfter r) = None /\
  lastLineKey (stateAfter r) = None /\
  clearTimer (stateAfter r) = None /\
  recognition (stateAfter r) = recognition c /\
  existsb isSendMessage (effectsOf r) = false.
Proof.
  destruct c as [r cf [[[] ct st sz]|] a d off [id|] k]; run_handler;
    repeat split; reflexivity.
Qed.

(** C2 (as amended).  When the engine's [onend] fires while the session
    is still marked active the handler does nothing: no field changes
    and nothing is emitted.  When it fires with the session marked
    inactive the handler runs [cleanup]: the overlay is off the page,
    the configuration, the deduplication key and the timer handle are
    cleared, and no message is sent. *)
Theorem handleRecognitionEnd_cleans_when_inactive :
  forall c : Controller,
    (isActive c = true ->
     handleRecognitionEnd c = (Normal tt, c, [])) /\
    (isActive c = false ->
     let r := handleRecognitionEnd c in
     r = cleanup c /\
     completionOf r = Normal tt /\
     overlayPresent (stateAfter r) = false /\
     isActive (stateAfter r) = false /\
     config (stateAfter r) = None /\
     lastLineKey (stateAfter r) = None /\
     clearTimer (stateAfter r) = None /\
     existsb isSendMessage (effectsOf r) = false).
Proof.
  intros c. split; intros Ha.
  - unfold handleRecognitionEnd, bind, gets. rewrite Ha. reflexivity.
  - assert (handleRecognitionEnd c = cleanup c) as E.
    { unfold handleRecognitionEnd, bind, gets. rewrite Ha. cbn [negb].
      destruct (cleanup c) as [[x c'] o]. reflexivity. }
    cbv zeta. rewrite E.
    destruct (cleanup_state c) as [H1 [H2 [H3 [H4 [H5 [H6 [_ H8]]]]]]].
    repeat split; assumption.
Qed.

Lemma recoverable_test (error : jsstring) :
  (eqb error (lit "no-speech") || eqb error (lit "aborted")) = true
  <-> recoverable error.
Proof.
  unfold recoverable. rewrite orb_true_iff, !eqb_eq. tauto.
Qed.

Lemma restartCallback_restarts (c : Controller) (r : Recognition) :
  recognition c = Some r -> isActive c = true ->
  restartCallback c = (Normal tt, c, [RecognitionStart]).
Proof.
  intros Hr Ha. unfold restartCallback, bind, gets. rewrite Hr, Ha.
  reflexivity.
Qed.

(** C3 (what the code does).  The error handler never changes the
    controller and never throws.  For [no-speech] or [aborted] while the
    session is active it schedules the restart callback after 1000 ms
    and sends nothing (the callback starts the engine again if the
    session is still active and the handle still there).  In every
    other case it sends one ERROR message, the one computed from the
    error code (a permission message for [not-allowed]), and schedules
    nothing; but it leaves the controller as it was, so a session that
    was active is still active after a fatal error, with its engine
    handle and its overlay: the teardown that [startRecognition]'s own
    [catch] pairs with the same ERROR message is missing here. *)
Theorem handleRecognitionError_policy :
  forall (c : Controller) (error : jsstring),
    let r := handleRecognitionError error c in
    completionOf r = Normal tt /\
    stateAfter r = c /\
    (isActive c = true -> recoverable error ->
     effectsOf r = [SetTimeoutRestart 1000]) /\
    (isActive c = false \/ ~ recoverable error ->
     effectsOf r = [SendMessage (MsgError (errorMessageFor error))]) /\
    (forall h, recognition c = Some h -> isActive c = true ->
               restartCallback c = (Normal tt, c, [RecognitionStart])) /\
    errorMessageFor (lit "not-allowed") = lit "Microphone permission denied".
Proof.
  intros c error.
  unfold handleRecognitionError, sendErrorMessage, bind, gets, emit.
  cbv zeta.
  destruct (isActive c) eqn:Ha; cbn [andb];
    destruct (eqb error (lit "no-speech") || eqb error (lit "aborted"))
      eqn:Hrec;
    cbn [stateAfter effectsOf completionOf fst snd app];
    (split; [reflexivity|]); (split; [reflexivity|]).
  - split; [reflexivity|]. split.
    + intros [H|H]; [discriminate|]. apply recoverable_test in Hrec.
      contradiction.
    + split; [intros h Hh _; apply (restartCallback_restarts c h Hh Ha)
             | reflexivity].
  - split.
    + intros _ H. apply recoverable_test in H. congruence.
    + split; [reflexivity|].
      split; [intros h Hh _; apply (restartCallback_restarts c h Hh Ha)
             | reflexivity].
  - split; [discriminate|]. split; [reflexivity|].
    split; [discriminate | reflexivity].
  - split; [discriminate|]. split; [reflexivity|].
    split; [discriminate | reflexivity].
Qed.

(** ** The interim filter *)

Lemma last_slot (earlier : list SpeechRecognitionResult)
  (result : SpeechRecognitionResult) :
  last (map Some (earlier ++ [result])) None = Some result.
Proof. rewrite map_app. cbn [map]. apply last_last. Qed.

(** C5.  A recognition event whose last slot is not final and whose
    transcript, trimmed, is shorter than five code units is dropped at
    once: the handler returns without sending a translation request
    (without any effect at all) and without touching the controller,
    the overlay included. *)
Theorem short_interim_dropped :
  forall (c : Controller) (event : SpeechRecognitionEvent)
         (earlier : list SpeechRecognitionResult)
         (result : SpeechRecognitionResult)
         (alt : SpeechRecognitionAlternative)
         (others : list SpeechRecognitionAlternative),
    results event = earlier ++ [result] ->
    alternatives result = alt :: others ->
    isFinal result = false ->
    List.length (trim (transcript alt)) < 5 ->
    handleRecognitionResult_begin event c = (Normal None, c, []).
Proof.
  intros c event earlier result alt others Hres Halt Hfin Hlen.
  unfold handleRecognitionResult_begin, tryCatch, bind, gets.
  destruct (config c) as [cfg|]; [|reflexivity].
  destruct (isActive c); cbn [negb]; [|reflexivity].
  rewrite Hres, last_slot, Halt, Hfin. cbn [negb andb].
  apply Nat.ltb_lt in Hlen. rewrite Hlen. reflexivity.
Qed.

(** The other side of the gate: with a configuration and an active
    session, a final result or a long enough interim one sends exactly
    one translation request, for the transcript, the primary subtag of
    the input language and the output language. *)
Lemma long_or_final_translated (c : Controller) (cfg : RecognitionConfig)
  (event : SpeechRecognitionEvent)
  (earlier : list SpeechRecognitionResult) (result : SpeechRecognitionResult)
  (alt : SpeechRecognitionAlternative)
  (others : list SpeechRecognitionAlternative) :
  config c = Some cfg -> isActive c = true ->
  results event = earlier ++ [result] ->
  alternatives result = alt :: others ->
  isFinal result = true \/ 5 <= List.length (trim (transcript alt)) ->
  handleRecognitionResult_begin event c
  = (Normal (Some {| pending_transcript := transcript alt;
                     pending_isFinal := isFinal result;
                     pending_sourceLang := splitHead HYPHEN (inputLang cfg);
                     pending_targetLang := outputLang cfg |}),
     c,
     [SendMessage (MsgTranslationRequest (transcript alt)
                     (splitHead HYPHEN (inputLang cfg)) (outputLang cfg))]).
Proof.
  intros Hcfg Ha Hres Halt Hgate.
  unfold handleRecognitionResult_begin, tryCatch, bind, gets.
  rewrite Hcfg, Ha. cbn [negb].
  rewrite Hres, last_slot, Halt.
  assert (negb (isFinal result)
          && (List.length (trim (transcript alt)) <? 5) = false) as ->.
  { destruct Hgate as [-> | H]; [reflexivity|].
    apply Nat.ltb_ge in H. rewrite H. apply andb_false_r. }
  reflexivity.
Qed.

(** ** A request without a response *)

Lemma translateText_no_response (text src tgt : jsstring) (now : Z)
  (c : Controller) :
  translateText_resume text src tgt (Resolved None) now c
  = (Normal None, c, []).
Proof. reflexivity. Qed.

(** The sibling path: when the request fails with a message that
    mentions the invalidated context, the session is stopped. *)
Lemma translateText_context_invalidated (text src tgt : jsstring) (now : Z)
  (c : Controller) (e : JsError) :
  contextInvalidated e = true ->
  let r := translateText_resume text src tgt (Rejected e) now c in
  completionOf r = Normal None /\
  stateAfter r = stateAfter (stopRecognition c) /\
  isActive (stateAfter r) = false.
Proof.
  intros He. unfold translateText_resume, tryCatch, bind, throw.
  rewrite He.
  destruct (stopRecognition_state c) as [Hc [_ [_ [Ha _]]]].
  unfold completionOf, stateAfter in *.
  destruct (stopRecognition c) as [[[[]|x] c1] o1]; cbn [fst snd] in *;
    [|discriminate].
  repeat split; try reflexivity. exact Ha.
Qed.

(** C7 (what the code does).  When the request resolves with no
    response, the rest of the result handler changes nothing and emits
    nothing: [translateText] returns [null] and the session is left as
    it was, still active if it was active. *)
Theorem no_response_leaves_session :
  forall (c : Controller) (p : PendingTranslation) (now : Z),
    translateText_resume (pending_transcript p) (pending_sourceLang p)
      (pending_targetLang p) (Resolved None) now c
    = (Normal None, c, []) /\
    handleRecognitionResult_resume p (Resolved None) now c
    = (Normal tt, c, []) /\
    isActive (stateAfter (handleRecognitionResult_resume p (Resolved None)
                            now c))
    = isActive c.
Proof.
  intros c p now.
  assert (handleRecognitionResult_resume p (Resolved None) now c
          = (Normal tt, c, [])) as E.
  { unfold handleRecognitionResult_resume, tryCatch, bind.
    rewrite translateText_no_response. unfold gets.
    destruct (isActive c); reflexivity. }
  split; [apply translateText_no_response|]. split; [exact E|].
  rewrite E. reflexivity.
Qed.

(** ** Dragging *)

(** C8 (as amended).  A pointer move while dragging puts the panel at
    the pointer position minus the captured offset, clamped first from
    above by (viewport - panel) and then from below by 0.  The left and
    top coordinates are therefore never negative; they are within
    [0, viewport - panel] whenever the panel fits in the viewport in
    that direction, and 0 when it does not. *)
Theorem handleDragMove_clamps :
  forall (c : Controller) (p : Panel) (e : MouseEvent) (l : Layout),
    isDragging c = true ->
    overlay c = Some p ->
    let c' := stateAfter (handleDragMove e l c) in
    let x := Z.max 0 (Z.min (clientX e - fst (dragOffset c))
                            (innerWidth l - offsetWidth l)) in
    let y := Z.max 0 (Z.min (clientY e - snd (dragOffset c))
                            (innerHeight l - offsetHeight l)) in
    (exists p', overlay c' = Some p' /\
                style_left (style p') = Px x /\
                style_top (style p') = Px y /\
                style_right (style p') = Css (lit "auto") /\
                style_bottom (style p') = Css (lit "auto")) /\
    (0 <= x /\ 0 <= y)%Z /\
    ((offsetWidth l <= innerWidth l)%Z ->
     (0 <= x <= innerWidth l - offsetWidth l)%Z) /\
    ((offsetHeight l <= innerHeight l)%Z ->
     (0 <= y <= innerHeight l - offsetHeight l)%Z) /\
    ((innerWidth l < offsetWidth l)%Z -> x = 0%Z) /\
    ((innerHeight l < offsetHeight l)%Z -> y = 0%Z).
Proof.
  intros c p e l Hd Ho c' x y.
  split.
  { subst c'. destruct c as [r cf ov a d off tm k].
    cbn [isDragging overlay dragOffset] in *. subst d ov.
    run_handler. eexists. repeat split; reflexivity. }
  subst x y. repeat split; lia.
Qed.

(** ** Parsing the translation response *)

Lemma mapC_total {A B} (f : A -> Completion B) (g : A -> B) (xs : list A) :
  Forall (fun x => f x = Normal (g x)) xs ->
  mapC f xs = Normal (map g xs).
Proof.
  induction 1 as [|x r Hx _ IH]; [reflexivity|].
  cbn [mapC map]. rewrite Hx. cbn [cbind]. rewrite IH. reflexivity.
Qed.

Lemma mapC_throw {A B} (f : A -> Completion B) (xs : list A) (e : JsError) :
  mapC f xs = Throw e -> exists x, In x xs /\ f x = Throw e.
Proof.
  induction xs as [|x r IH]; [discriminate|].
  cbn [mapC]. destruct (f x) as [y|e'] eqn:Hx; cbn [cbind].
  - destruct (mapC f r) as [ys|e''] eqn:Hr; cbn [cbind]; [discriminate|].
    intros [= ->]. destruct (IH eq_refl) as [x' [Hin Hx']].
    exists x'. split; [right; exact Hin | exact Hx'].
  - intros [= ->]. exists x. split; [left; reflexivity | exact Hx].
Qed.

(** Induction on a value, with the elements of an array as
    sub-values. *)
Lemma JSON_induction (P : JSON -> Prop) :
  P JNull -> (forall b, P (JBool b)) -> (forall n, P (JNum n)) ->
  (forall s, P (JStr s)) ->
  (forall items, Forall P items -> P (JArr items)) ->
  (forall fields, P (JObj fields)) ->
  forall v, P v.
Proof.
  intros HN HB HNu HS HA HO. fix IH 1.
  intros [|b|n|s|items|fields];
    [exact HN | apply HB | apply HNu | apply HS | | apply HO].
  apply HA. induction items as [|x r IHr]; constructor;
    [apply IH | exact IHr].
Qed.

Lemma toStr_cons (x : JSON) (r : list JSON) :
  toStr (JArr (x :: r))
  = cbind (joinElement x)
      (fun s => match r with
                | [] => Normal s
                | _ :: _ => cbind (toStr (JArr r))
                                  (fun t => Normal (s ++ lit "," ++ t))
                end).
Proof. destruct x; reflexivity. Qed.

(** The only exception of a conversion to a string. *)
Lemma toStr_throw (v : JSON) :
  forall e, toStr v = Throw e -> e = cannotConvert.
Proof.
  induction v as [|b|n|s|items IHitems|fields] using JSON_induction;
    intros e; try discriminate.
  - destruct b; discriminate.
  - induction IHitems as [|x r Hx _ IHr] in e |- *; [discriminate|].
    rewrite toStr_cons.
    destruct (joinElement x) as [s|e'] eqn:Ex; cbn [cbind].
    + destruct r as [|y r']; [discriminate|].
      destruct (toStr (JArr (y :: r'))) as [t|e''] eqn:Er; cbn [cbind];
        [discriminate|].
      intros [= <-]. apply IHr. reflexivity.
    + intros [= <-]. apply Hx. destruct x; try discriminate; exact Ex.
  - cbn [toStr]. destruct (lookup (lit "toString") fields);
      [|discriminate].
    intros [= <-]. reflexivity.
Qed.

Lemma joinElement_throw (x : JSON) (e : JsError) :
  joinElement x = Throw e -> e = cannotConvert.
Proof.
  destruct x; try discriminate; apply toStr_throw.
Qed.

(** The conversion of an array throws as soon as that of one of its
    elements does. *)
Lemma toStr_array_throws (x : JSON) (before after : list JSON) :
  toStr x = Throw cannotConvert ->
  toStr (JArr (before ++ x :: after)) = Throw cannotConvert.
Proof.
  intros Hx. induction before as [|y r IH].
  - cbn [app]. rewrite toStr_cons.
    replace (joinElement x) with (@Throw jsstring cannotConvert);
      [reflexivity|].
    destruct x; try (symmetry; exact Hx). discriminate.
  - cbn [app]. rewrite toStr_cons.
    destruct (joinElement y) as [s|e] eqn:Ey; cbn [cbind].
    + destruct (r ++ x :: after) eqn:El; [destruct r; discriminate|].
      rewrite IH. reflexivity.
    + rewrite (joinElement_throw _ _ Ey). reflexivity.
Qed.

Lemma joinEmpty_cons (x : JSON) (r : list JSON) :
  joinEmpty (x :: r)
  = cbind (joinElement x)
          (fun s => cbind (joinEmpty r) (fun t => Normal (s ++ t))).
Proof.
  unfold joinEmpty. cbn [mapC].
  destruct (joinElement x); cbn [cbind]; [|reflexivity].
  destruct (mapC joinElement r); reflexivity.
Qed.

Lemma joinEmpty_throw (xs : list JSON) (e : JsError) :
  joinEmpty xs = Throw e -> e = cannotConvert.
Proof.
  unfold joinEmpty.
  destruct (mapC joinElement xs) as [parts|e'] eqn:E; cbn [cbind];
    [discriminate|].
  intros [= <-]. apply mapC_throw in E. destruct E as [x [_ Hx]].
  exact (joinElement_throw _ _ Hx).
Qed.

Lemma truthy_orEmpty (v : option JSON) : truthy (orEmpty v) = truthyOpt v.
Proof.
  unfold orEmpty. destruct (truthyOpt v) eqn:E; [|reflexivity].
  destruct v as [v'|]; [exact E | discriminate].
Qed.

(** The value [x || ''] contributes what [textOf] says to a join. *)
Lemma join_orEmpty (v : option JSON) (s : jsstring) :
  textOf v = Some s -> joinElement (orEmpty v) = Normal s.
Proof.
  unfold orEmpty, textOf, truthyOpt. destruct v as [v'|].
  - destruct (truthy v') eqn:Et.
    + destruct (toStr v') as [t|e] eqn:E; [|discriminate].
      intros [= <-]. destruct v'; try exact E. discriminate.
    + intros [= <-]. reflexivity.
  - intros [= <-]. reflexivity.
Qed.

Lemma join_orEmpty_none (v : option JSON) :
  textOf v = None ->
  truthy (orEmpty v) = true /\ exists e, joinElement (orEmpty v) = Throw e.
Proof.
  unfold textOf. destruct v as [v'|]; [|discriminate].
  destruct (truthy v') eqn:Et; [|discriminate].
  destruct (toStr v') as [t|e] eqn:E; [discriminate|]. intros _.
  unfold orEmpty. cbn [truthyOpt]. rewrite Et. split; [exact Et|].
  exists e. destruct v'; try exact E. discriminate.
Qed.

Lemma textOf_falsy (v : option JSON) :
  truthyOpt v = false -> textOf v = Some [].
Proof.
  unfold textOf, truthyOpt. destruct v as [v'|]; [|reflexivity].
  intros ->. reflexivity.
Qed.

Section MapJoin.

(** The read a [map] callback makes on an entry ([sentence.trans],
    [item[0]]). *)
Variable read : JSON -> Completion (option JSON).

Lemma picked_text (x : JSON) (s : jsstring) :
  readText read x = Some s ->
  exists y, picked read x = Normal y /\ joinElement y = Normal s /\
            (truthy y = false -> s = []).
Proof.
  unfold readText, picked. destruct (read x) as [t|e]; [|discriminate].
  intros H. exists (orEmpty t). split; [reflexivity|].
  split; [exact (join_orEmpty _ _ H)|].
  rewrite truthy_orEmpty. intros Hf.
  rewrite (textOf_falsy _ Hf) in H. congruence.
Qed.

(** When every entry has a text, the join gives their concatenation,
    with or without the filter. *)
Lemma map_join_texts (l : list JSON) (parts : list jsstring) :
  textsOf (readText read) l parts ->
  exists ys, mapC (picked read) l = Normal ys /\
             joinEmpty ys = Normal (List.concat parts) /\
             joinEmpty (filter truthy ys) = Normal (List.concat parts).
Proof.
  induction 1 as [|x s r ss Hx _ [ys [Hm [Hj Hf]]]].
  - exists []. repeat split.
  - destruct (picked_text x s Hx) as [y [Hp [Hy Hempty]]].
    exists (y :: ys). cbn [mapC]. rewrite Hp, Hm. cbn [cbind].
    split; [reflexivity|]. cbn [List.concat filter]. split.
    + rewrite joinEmpty_cons, Hy, Hj. reflexivity.
    + destruct (truthy y).
      * rewrite joinEmpty_cons, Hy, Hf. reflexivity.
      * rewrite (Hempty eq_refl). exact Hf.
Qed.

(** When some entry has no text, the map or the join throws, with or
    without the filter. *)
Lemma map_join_without (l : list JSON) :
  someWithout (readText read) l ->
  (exists e, cbind (mapC (picked read) l) joinEmpty = Throw e) /\
  (exists e, cbind (mapC (picked read) l)
                   (fun xs => joinEmpty (filter truthy xs)) = Throw e).
Proof.
  induction l as [|x r IH]; intros H; [inversion H|].
  cbn [mapC].
  destruct (readText read x) as [s|] eqn:Hx.
  - destruct (picked_text x s Hx) as [y [Hp [Hy Hempty]]].
    rewrite Hp. cbn [cbind].
    assert (someWithout (readText read) r) as Hr.
    { inversion H as [? ? Hx'|? ? Hr']; [congruence | exact Hr']. }
    destruct (IH Hr) as [[e1 H1] [e2 H2]].
    destruct (mapC (picked read) r) as [ys|e]; cbn [cbind] in *;
      [|split; eexists; reflexivity].
    split.
    + exists e1. rewrite joinEmpty_cons, Hy, H1. reflexivity.
    + cbn [filter]. destruct (truthy y).
      * exists e2. rewrite joinEmpty_cons, Hy, H2. reflexivity.
      * exists e2. exact H2.
  - unfold readText in Hx. unfold picked at 1 3.
    destruct (read x) as [t|e]; cbn [cbind];
      [|split; eexists; reflexivity].
    destruct (join_orEmpty_none _ Hx) as [Ht [e He]].
    destruct (mapC (picked read) r) as [ys|e']; cbn [cbind];
      [|split; eexists; reflexivity].
    cbn [filter]. rewrite Ht, !joinEmpty_cons, He.
    split; eexists; reflexivity.
Qed.

End MapJoin.

Lemma extract_shapeA (fields : list (jsstring * JSON)) (ss : list JSON)
  (parts : list jsstring) :
  lookup (lit "sentences") fields = Some (JArr ss) ->
  textsOf transValue ss parts ->
  extractTranslation (Some (JObj fields)) = Normal (List.concat parts).
Proof.
  intros Hs Ht. unfold extractTranslation.
  cbn [getProp cbind]. rewrite Hs. cbn [truthyOpt truthy isArray andb].
  destruct (map_join_texts (fun s => getProp (Some s) (lit "trans"))
              ss parts Ht) as [ys [Hm [Hj _]]].
  change (cbind (mapC (picked (fun s => getProp (Some s) (lit "trans"))) ss)
                joinEmpty = Normal (List.concat parts)).
  rewrite Hm. exact Hj.
Qed.

Lemma extract_shapeA_without (fields : list (jsstring * JSON))
  (ss : list JSON) :
  lookup (lit "sentences") fields = Some (JArr ss) ->
  someWithout transValue ss ->
  exists e, extractTranslation (Some (JObj fields)) = Throw e.
Proof.
  intros Hs Hw. unfold extractTranslation.
  cbn [getProp cbind]. rewrite Hs. cbn [truthyOpt truthy isArray andb].
  exact (proj1 (map_join_without (fun s => getProp (Some s) (lit "trans"))
                  ss Hw)).
Qed.

Lemma extract_shapeB (items rest : list JSON) (parts : list jsstring) :
  textsOf firstValue items parts ->
  extractTranslation (Some (JArr (JArr items :: rest)))
  = Normal (List.concat parts).
Proof.
  intros Ht. unfold extractTranslation.
  cbn [getProp cbind truthyOpt andb].
  destruct (map_join_texts getIndex0 items parts Ht) as [ys [Hm [_ Hf]]].
  change (cbind (mapC (picked getIndex0) items)
                (fun xs => joinEmpty (filter truthy xs))
          = Normal (List.concat parts)).
  rewrite Hm. exact Hf.
Qed.

Lemma extract_shapeB_without (items rest : list JSON) :
  someWithout firstValue items ->
  exists e, extractTranslation (Some (JArr (JArr items :: rest))) = Throw e.
Proof.
  intros Hw. unfold extractTranslation.
  cbn [getProp cbind truthyOpt andb].
  exact (proj2 (map_join_without getIndex0 items Hw)).
Qed.

(** Whatever the data, an exception of the extraction is a [TypeError]
    on a read of [undefined] or [null], or on a conversion to a string;
    its message does not mention the extension context. *)
Lemma extract_throw (data : option JSON) (e : JsError) :
  extractTranslation data = Throw e -> contextInvalidated e = false.
Proof.
  unfold extractTranslation.
  destruct data as [[| | | |l|fields]|]; cbn [getProp cbind truthyOpt andb];
    try discriminate; try (intros [= <-]; vm_compute; reflexivity).
  - destruct l as [|[| | | |items|] rest]; try discriminate.
    destruct (mapC _ items) as [xs|e'] eqn:Hm; cbn [cbind].
    + intros Hj. rewrite (joinEmpty_throw _ _ Hj). vm_compute. reflexivity.
    + intros [= ->]. apply mapC_throw in Hm. destruct Hm as [i [_ Hi]].
      destruct i; cbn [getIndex0 cbind] in Hi; try discriminate.
      injection Hi as <-. vm_compute. reflexivity.
  - destruct (lookup (lit "sentences") fields) as [[| | | |ss|]|];
      cbn [truthyOpt truthy isArray andb isEmpty negb];
      try discriminate;
      try (destruct (num_truthy _); discriminate);
      try (destruct (negb _); discriminate);
      try (destruct b; discriminate).
    destruct (mapC _ ss) as [xs|e'] eqn:Hm; cbn [cbind].
    + intros Hj. rewrite (joinEmpty_throw _ _ Hj). vm_compute. reflexivity.
    + intros [= ->]. apply mapC_throw in Hm. destruct Hm as [x [_ Hx]].
      destruct x; cbn [getProp cbind] in Hx; try discriminate.
      injection Hx as <-. vm_compute. reflexivity.
Qed.

Lemma extract_neither (data : option JSON) :
  isShapeA data = false -> isShapeB data = false ->
  extractTranslation data = Normal []
  \/ exists e, extractTranslation data = Throw e.
Proof.
  unfold isShapeA, isShapeB, extractTranslation.
  destruct data as [[| | | |l|fields]|]; cbn [getProp cbind truthyOpt andb];
    intros HA HB; try (left; reflexivity); try (right; eexists; reflexivity).
  - destruct l as [|[| | | |items|] rest]; try (left; reflexivity).
    discriminate.
  - destruct (lookup (lit "sentences") fields) as [[| | | |ss|]|];
      cbn [isArray] in HA; try discriminate;
      cbn [truthyOpt truthy isArray andb]; try (left; reflexivity);
      rewrite andb_false_r; left; reflexivity.
Qed.

Lemma translateText_success (text src tgt : jsstring) (now : Z)
  (c : Controller) (fields : list (jsstring * JSON)) (sv : JSON) :
  lookup (lit "success") fields = Some sv -> truthy sv = true ->
  translateText_resume text src tgt (Resolved (Some (JObj fields))) now c
  = match extractTranslation (lookup (lit "data") fields) with
    | Normal t => (Normal (resultOf text src tgt now t), c, [])
    | Throw _ => (Normal None, c, [])
    end.
Proof.
  intros Hs Ht.
  unfold translateText_resume, tryCatch, bind, ret, liftC, throw.
  cbn [truthyOpt truthy negb getProp]. rewrite Hs.
  cbn [truthyOpt]. rewrite Ht. cbn [negb app].
  destruct (extractTranslation (lookup (lit "data") fields)) as [t|e] eqn:E.
  - unfold resultOf. destruct (isEmpty t); reflexivity.
  - rewrite (extract_throw _ _ E). reflexivity.
Qed.

(** [translateText] never completes by throwing. *)
Lemma translateText_total (text src tgt : jsstring) (reply : Reply) (now : Z)
  (c : Controller) :
  exists v c' o,
    translateText_resume text src tgt reply now c = (Normal v, c', o).
Proof.
  unfold translateText_resume. unfold tryCatch at 1.
  match goal with
  | |- context [match ?body c with _ => _ end] =>
      destruct (body c) as [[[a|e] c1] o1]
  end.
  - eauto.
  - destruct (contextInvalidated e).
    + unfold bind, ret.
      destruct (stopRecognition_state c1) as [Hc _].
      unfold completionOf in Hc.
      destruct (stopRecognition c1) as [[[[]|x] c2] o2]; cbn [fst] in Hc;
        [|discriminate].
      eauto.
    + unfold ret. eauto.
Qed.

Lemma transValue_string (fields : list (jsstring * JSON)) (s : jsstring) :
  lookup (lit "trans") fields = Some (JStr s) ->
  transValue (JObj fields) = Some s.
Proof.
  intros H. unfold transValue, readText. cbn [getProp]. rewrite H.
  destruct s; reflexivity.
Qed.

Lemma firstValue_string (s : jsstring) (rest : list JSON) :
  firstValue (JArr (JStr s :: rest)) = Some s.
Proof. destruct s; reflexivity. Qed.

(** An object converts to a string exactly when it has no own
    [toString] property. *)
Lemma toStr_object (fields : list (jsstring * JSON)) :
  (lookup (lit "toString") fields = None ->
   toStr (JObj fields) = Normal (lit "[object Object]")) /\
  (lookup (lit "toString") fields <> None ->
   toStr (JObj fields) = Throw cannotConvert).
Proof.
  cbn [toStr]. destruct (lookup (lit "toString") fields).
  - split; [discriminate | reflexivity].
  - split; [reflexivity | intros H; contradiction H; reflexivity].
Qed.

(** The entries without a text. *)
Lemma transValue_none (sentence : JSON) :
  transValue sentence = None <->
  sentence = JNull \/
  exists fields v e,
    sentence = JObj fields /\ lookup (lit "trans") fields = Some v /\
    truthy v = true /\ toStr v = Throw e.
Proof.
  unfold transValue, readText. split.
  - destruct sentence as [| | | | |fields]; cbn [getProp textOf];
      try discriminate; [left; reflexivity|].
    destruct (lookup (lit "trans") fields) as [v|] eqn:Hl; [|discriminate].
    cbn [textOf]. destruct (truthy v) eqn:Ht; [|discriminate].
    destruct (toStr v) as [s|e] eqn:E; [discriminate|].
    intros _. right. exists fields, v, e. repeat split; assumption.
  - intros [-> | [fields [v [e [-> [Hl [Ht E]]]]]]]; [reflexivity|].
    cbn [getProp]. rewrite Hl. cbn [textOf]. rewrite Ht, E. reflexivity.
Qed.

Lemma firstValue_none (item : JSON) :
  firstValue item = None <->
  item = JNull \/
  exists v e, getIndex0 item = Normal (Some v) /\ truthy v = true /\
              toStr v = Throw e.
Proof.
  unfold firstValue, readText. split.
  - destruct (getIndex0 item) as [[v|]|e0] eqn:Hg.
    + cbn [textOf]. destruct (truthy v) eqn:Ht; [|discriminate].
      destruct (toStr v) as [s|e] eqn:E; [discriminate|].
      intros _. right. exists v, e. repeat split; assumption.
    + discriminate.
    + intros _. left. destruct item; try discriminate. reflexivity.
  - intros [-> | [v [e [Hg [Ht E]]]]]; [reflexivity|].
    rewrite Hg. cbn [textOf]. rewrite Ht, E. reflexivity.
Qed.

(** C6 (as amended).  For a successful response, [translateText] reads
    its [data] in two shapes.  (a) An object with a [sentences] array:
    when every entry has a text, the translated text is the
    concatenation, in order, of these texts, the text of an entry being
    its [trans] value (the string itself when it is a string, nothing
    when it is missing or falsy).  (b) An array whose first element is
    an array: likewise with the first element of each item.  An entry
    has no text exactly when it is [null] or when its value is truthy
    and cannot be converted to a string (an object with an own
    [toString] property, or an array holding a value that cannot be
    converted); as soon as one entry has none the result is [null].
    The result is also [null] when the text is empty and when the data
    has neither shape; otherwise it is a record carrying the text.  The
    controller is not touched, and whatever the reply, [translateText]
    completes normally, never by throwing. *)
Theorem translateText_response_shapes :
  forall (text src tgt : jsstring) (now : Z) (c : Controller)
         (fields : list (jsstring * JSON)) (sv : JSON),
    lookup (lit "success") fields = Some sv ->
    truthy sv = true ->
    let data := lookup (lit "data") fields in
    let r := translateText_resume text src tgt
               (Resolved (Some (JObj fields))) now c in
    (forall dfields ss,
        data = Some (JObj dfields) ->
        lookup (lit "sentences") dfields = Some (JArr ss) ->
        (forall parts,
            textsOf transValue ss parts ->
            r = (Normal (resultOf text src tgt now (List.concat parts)),
                 c, [])) /\
        (someWithout transValue ss -> r = (Normal None, c, []))) /\
    (forall items rest,
        data = Some (JArr (JArr items :: rest)) ->
        (forall parts,
            textsOf firstValue items parts ->
            r = (Normal (resultOf text src tgt now (List.concat parts)),
                 c, [])) /\
        (someWithout firstValue items -> r = (Normal None, c, []))) /\
    (isShapeA data = false -> isShapeB data = false ->
     r = (Normal None, c, [])) /\
    (exists v, r = (Normal v, c, []) /\
               forall t, v = Some t ->
                         translatedText t <> [] /\ originalText t = text) /\
    (forall tfields s,
        lookup (lit "trans") tfields = Some (JStr s) ->
        transValue (JObj tfields) = Some s) /\
    (forall tfields,
        truthyOpt (lookup (lit "trans") tfields) = false ->
        transValue (JObj tfields) = Some []) /\
    (forall s rest, firstValue (JArr (JStr s :: rest)) = Some s) /\
    (forall sentence,
        sentence <> JNull -> (forall tfields, sentence <> JObj tfields) ->
        transValue sentence = Some []) /\
    (forall sentence,
        transValue sentence = None <->
        sentence = JNull \/
        exists tfields v e,
          sentence = JObj tfields /\
          lookup (lit "trans") tfields = Some v /\
          truthy v = true /\ toStr v = Throw e) /\
    (forall item,
        firstValue item = None <->
        item = JNull \/
        exists v e, getIndex0 item = Normal (Some v) /\ truthy v = true /\
                    toStr v = Throw e) /\
    (forall ofields,
        (lookup (lit "toString") ofields = None ->
         toStr (JObj ofields) = Normal (lit "[object Object]")) /\
        (lookup (lit "toString") ofields <> None ->
         toStr (JObj ofields) = Throw cannotConvert)) /\
    (forall x before after,
        toStr x = Throw cannotConvert ->
        toStr (JArr (before ++ x :: after)) = Throw cannotConvert) /\
    (forall reply c0,
        exists v c' o,
          translateText_resume text src tgt reply now c0 = (Normal v, c', o)).
Proof.
  intros text src tgt now c fields sv Hs Ht data r.
  pose proof (translateText_success text src tgt now c fields sv Hs Ht) as E.
  fold data in E. fold r in E.
  split.
  { intros dfields ss Hd Hss. split.
    - intros parts Hp. rewrite E, Hd.
      rewrite (extract_shapeA dfields ss parts Hss Hp). reflexivity.
    - intros Hw. rewrite E, Hd.
      destruct (extract_shapeA_without dfields ss Hss Hw) as [e ->].
      reflexivity. }
  split.
  { intros items rest Hd. split.
    - intros parts Hp. rewrite E, Hd.
      rewrite (extract_shapeB items rest parts Hp). reflexivity.
    - intros Hw. rewrite E, Hd.
      destruct (extract_shapeB_without items rest Hw) as [e ->].
      reflexivity. }
  split.
  { intros HA HB. rewrite E.
    destruct (extract_neither data HA HB) as [-> | [e ->]]; reflexivity. }
  split.
  { rewrite E. destruct (extractTranslation data) as [t|e].
    - eexists. split; [reflexivity|]. unfold resultOf.
      destruct t as [|ch t']; cbn [isEmpty]; [discriminate|].
      intros t0 [= <-]. cbn [translatedText originalText].
      split; [discriminate | reflexivity].
    - eexists. split; [reflexivity | discriminate]. }
  split; [exact transValue_string|].
  split.
  { intros tfields Hf. unfold transValue, readText. cbn [getProp].
    exact (textOf_falsy _ Hf). }
  split; [exact firstValue_string|].
  split.
  { intros [| | | | |tfields] Hn Ho; try reflexivity.
    - contradiction Hn; reflexivity.
    - contradiction (Ho tfields); reflexivity. }
  split; [exact transValue_none|].
  split; [exact firstValue_none|].
  split; [exact toStr_object|].
  split; [exact toStr_array_throws|].
  intros reply c0. apply translateText_total.
Qed.

(** ** Escaping in the overlay markup *)

Lemma find_live_setLiveMarkup (m : jsstring) (l : list Block) :
  hasLive l = true ->
  exists b, find isLive (setLiveMarkup m l) = Some b /\ markup b = m.
Proof.
  unfold hasLive. induction l as [|b r IH]; [discriminate|].
  cbn [existsb setLiveMarkup]. destruct (isLive b) eqn:E.
  - intros _. cbn [find isLive]. eexists. split; reflexivity.
  - cbn [orb find]. rewrite E. exact IH.
Qed.

Lemma find_live_insertHistory (l : list Block) :
  find isLive (insertHistory l) = find isLive l.
Proof.
  induction l as [|b r IH]; [reflexivity|].
  cbn [insertHistory]. destruct (isLive b) eqn:E; cbn [find]; rewrite E.
  - reflexivity.
  - exact IH.
Qed.

Lemma display_live_markup (t o : jsstring) (f : bool) (c : Controller)
  (p : Panel) :
  overlay c = Some p ->
  exists b,
    find isLive (stListOf (stateAfter (displayBothLanguages t o f c)))
    = Some b /\ markup b = liveMarkup t o.
Proof.
  intros E. destruct (display_present t o f c p E) as [Hl _]. rewrite Hl.
  assert (exists b, find isLive (liveUpdated t o c) = Some b
                    /\ markup b = liveMarkup t o) as H.
  { apply find_live_setLiveMarkup, ensureLive_hasLive. }
  destruct (f && negb (optEqb (lastLineKey c) (lineKey t o)));
    [rewrite find_live_insertHistory|]; exact H.
Qed.

Lemma escapeHtml_without_nbsp (s : jsstring) :
  ~ In NBSP s -> escapeHtml s = specEscape s.
Proof.
  rewrite escapeHtml_escapeChars. unfold escapeChars, specEscape.
  induction s as [|x s IH]; intros H; [reflexivity|].
  cbn [flat_map]. rewrite escapeChar_without_nbsp, IH.
  - reflexivity.
  - intros Hin. apply H. right. exact Hin.
  - intros ->. apply H. left. reflexivity.
Qed.

(** C10 (as amended).  [escapeHtml s] is [s] with every ampersand
    replaced by the [amp] reference, every no-break space (U+00A0) by
    the [nbsp] reference, every less-than sign by [lt] and every
    greater-than sign by [gt]; on a text without no-break spaces this is
    the replacement of the three markup characters alone.  The result
    holds no angle bracket.  A display call writes, as the live block's
    markup, the fixed template with [escapeHtml translated] and
    [escapeHtml original] in its two holes, so that markup has the
    template's four tags and no other, whatever the texts are; a history
    entry carries the same markup. *)
Theorem escapeHtml_neutralises_markup :
  (forall s, escapeHtml s = escapeChars s) /\
  (forall s, ~ In NBSP s -> escapeHtml s = specEscape s) /\
  (forall s, occurrences LT (escapeHtml s) = 0 /\
             occurrences GT (escapeHtml s) = 0) /\
  (exists pre mid post,
      forall t o,
        liveMarkup t o = pre ++ escapeHtml t ++ mid ++ escapeHtml o ++ post) /\
  (forall t o f c p,
      overlay c = Some p ->
      exists b,
        find isLive (stListOf (stateAfter (displayBothLanguages t o f c)))
        = Some b /\ markup b = liveMarkup t o) /\
  (forall t o, markup (historyEntry t o) = liveMarkup t o) /\
  (forall t o, occurrences LT (liveMarkup t o) = 4 /\
               occurrences GT (liveMarkup t o) = 4).
Proof.
  split; [exact escapeHtml_escapeChars|].
  split; [exact escapeHtml_without_nbsp|].
  split; [exact escapeHtml_no_markup|].
  split.
  { exists liveMarkupPrefix, liveMarkupMiddle, liveMarkupSuffix.
    intros t o. reflexivity. }
  split; [exact display_live_markup|].
  split; [reflexivity|].
  exact liveMarkup_tag_count.
Qed.

(* ================================================================ *)
(** * Further properties of the controller *)

(** ** What a display call leaves alone *)

Lemma display_frame (t o : jsstring) (f : bool) (c : Controller) :
  let r := displayBothLanguages t o f c in
  let c' := stateAfter r in
  completionOf r = Normal tt /\
  recognition c' = recognition c /\ config c' = config c /\
  isActive c' = isActive c /\ isDragging c' = isDragging c /\
  dragOffset c' = dragOffset c /\ clearTimer c' = None /\
  effectsOf r = match clearTimer c with
                | Some id => [ClearTimeout id]
                | None => []
                end /\
  match overlay c, overlay c' with
  | Some p, Some p' =>
      style p' = style p /\ stSize p' = stSize p /\
      parentNode p' = parentNode p
  | None, None => True
  | _, _ => False
  end.
Proof.
  destruct c as [r cf [[pn [txt|lbl l] st sz]|] a d off [id|] k];
    destruct f; run_handler; cbn [ensureContainer mapStList];
    try destruct (optEqb k (lineKey t o));
    run_handler; repeat split; reflexivity.
Qed.

(** X1.  A display call, final or not, changes nothing of the session
    but the panel's content, the deduplication key and the (cleared)
    timer handle: the panel keeps its position, size and place on the
    page, a drag in progress goes on, and the only effect is the
    cancellation of the pending timer, if there is one. *)
Theorem display_only_renders :
  forall (t o : jsstring) (f : bool) (c : Controller),
    let r := displayBothLanguages t o f c in
    let c' := stateAfter r in
    completionOf r = Normal tt /\
    recognition c' = recognition c /\ config c' = config c /\
    isActive c' = isActive c /\ isDragging c' = isDragging c /\
    dragOffset c' = dragOffset c /\ clearTimer c' = None /\
    effectsOf r = match clearTimer c with
                  | Some id => [ClearTimeout id]
                  | None => []
                  end /\
    match overlay c, overlay c' with
    | Some p, Some p' =>
        style p' = style p /\ stSize p' = stSize p /\
        parentNode p' = parentNode p
    | None, None => True
    | _, _ => False
    end.
Proof. exact display_frame. Qed.


(** ** The session invariant *)

Lemma liveFirst_liveUpdated (m : jsstring) (l : list Block) :
  liveFirst l ->
  liveFirst (setLiveMarkup m (ensureLive l)) /\
  liveFirst (insertHistory (setLiveMarkup m (ensureLive l))).
Proof.
  destruct l as [|b r]; [intros _|intros [Hb Hr]].
  - cbn. repeat split; repeat constructor.
  - unfold ensureLive, hasLive. cbn [existsb]. rewrite Hb. cbn [orb].
    cbn [setLiveMarkup]. rewrite Hb. cbn [insertHistory isLive].
    try rewrite Hb. cbn [liveFirst isLive cloneAsHistory].
    repeat split; try assumption. constructor; [reflexivity | assumption].
Qed.

(** Under [liveFirst] the clone lands at the head of the history. *)
Lemma history_insert_first (m : jsstring) (l : list Block) :
  liveFirst l ->
  filter (fun b => negb (isLive b))
         (insertHistory (setLiveMarkup m (ensureLive l)))
  = historyBlock m :: filter (fun b => negb (isLive b)) l.
Proof.
  destruct l as [|b r]; [intros _; reflexivity|intros [Hb Hr]].
  unfold ensureLive, hasLive. cbn [existsb]. rewrite Hb. cbn [orb].
  cbn [setLiveMarkup]. rewrite Hb. cbn [insertHistory isLive].
  cbn [filter isLive cloneAsHistory negb markup]. try rewrite Hb.
  cbn [negb]. f_equal.
Qed.

Ltac session_facts :=
  unfold sessionInvariant, panelAttached, stListOf, liveFirst in *;
  cbn [recognition config overlay isActive isDragging dragOffset clearTimer
       lastLineKey parentNode content style stSize] in *.

Ltac session_solve :=
  session_facts;
  repeat match goal with
         | H : _ /\ _ |- _ => destruct H
         end;
  repeat split; intros;
  try reflexivity; try assumption; try discriminate; try congruence;
  try tauto;
  try solve [exfalso; auto];
  try solve [match goal with
             | H : _ <-> _ |- _ => apply H; congruence
             end].

Lemma session_initial : sessionInvariant initialController.
Proof. session_solve. Qed.

Lemma session_cleanup : preserves sessionInvariant cleanup.
Proof.
  intros [r cf [[pn ct st sz]|] a d off tm k] H;
    assert (tm = None) as -> by (apply H);
    [assert (pn = true) as -> by (apply H)|];
    run_handler; clear H; session_solve.
Qed.

Lemma session_stopRecognition : preserves sessionInvariant stopRecognition.
Proof.
  intros [[r|] cf [[pn ct st sz]|] a d off tm k] H;
    assert (tm = None) as -> by (apply H);
    try (assert (pn = true) as -> by (apply H));
    run_handler; clear H; session_solve.
Qed.

Lemma session_startRecognition (supported : bool) (cfg : RecognitionConfig) :
  preserves sessionInvariant (startRecognition supported cfg).
Proof.
  intros [r cf [[pn ct st sz]|] a d off tm k] H;
    assert (tm = None) as -> by (apply H);
    try (assert (pn = true) as Hpn by (apply H); subst pn);
    destruct supported; run_handler; clear H; session_solve.
Qed.


Lemma session_displayBothLanguages (t o : jsstring) (f : bool) :
  preserves sessionInvariant (displayBothLanguages t o f).
Proof.
  intros c H.
  destruct (display_frame t o f c) as [_ [Hr [Hcf [Ha [_ [_ [Htm [_ Hov]]]]]]]].
  destruct H as [Hat [Hlf [Hao [Hac [Har [Hak Ht]]]]]].
  destruct (overlay c) as [p|] eqn:E.
  - destruct (display_present t o f c p E) as [Hl [Hk [[p' [E' Hp]] _]]].
    assert (isActive c = true) as Hact by (apply Hao; discriminate).
    unfold sessionInvariant, panelAttached.
    rewrite E', Hp, Hr, Hcf, Ha, Hl, Hk, Htm.
    unfold panelAttached in Hat. rewrite E in Hat.
    destruct (liveFirst_liveUpdated (liveMarkup t o) (stListOf c) Hlf)
      as [L1 L2].
    repeat split; try assumption; try discriminate;
      try (intros; congruence); try (apply Hac).
    unfold liveUpdated.
    destruct (f && negb (optEqb (lastLineKey c) (lineKey t o)));
      assumption.
  - destruct (display_absent t o f c E) as [Hov' Hk].
    unfold sessionInvariant, panelAttached, stListOf in *.
    rewrite Hov', Hr, Hcf, Ha, Hk, Htm. rewrite E in *.
    repeat split; try assumption; try apply Hao; try apply Hac.
Qed.

(** The invariant only looks at the session fields, the panel's list
    and its place on the page. *)
Lemma session_transfer (c c' : Controller) :
  match overlay c, overlay c' with
  | Some p, Some p' => parentNode p' = parentNode p
  | None, None => True
  | _, _ => False
  end ->
  stListOf c' = stListOf c -> isActive c' = isActive c ->
  config c' = config c -> recognition c' = recognition c ->
  lastLineKey c' = lastLineKey c -> clearTimer c' = clearTimer c ->
  sessionInvariant c -> sessionInvariant c'.
Proof.
  intros Hov Hl Ha Hcf Hr Hk Ht [Hat [Hlf [Hao [Hac [Har [Hak Htm]]]]]].
  unfold sessionInvariant, panelAttached in *.
  rewrite Hl, Ha, Hcf, Hr, Hk, Ht.
  destruct (overlay c) as [p|], (overlay c') as [p'|]; try contradiction.
  - rewrite Hov. repeat split; try assumption; try discriminate;
      try (apply Hac); intros _; apply Hao; discriminate.
  - repeat split; try assumption; try (apply Hao); apply Hac.
Qed.

Ltac session_same H :=
  run_handler; eapply session_transfer; [..|exact H];
  first [reflexivity | exact I].

Lemma session_handleDragStart (e : MouseEvent) (rect : DOMRect) :
  preserves sessionInvariant (handleDragStart e rect).
Proof.
  intros [r cf [[pn [txt|lbl l] st sz]|] a d off tm k] H; session_same H.
Qed.

Lemma session_handleDragMove (e : MouseEvent) (l : Layout) :
  preserves sessionInvariant (handleDragMove e l).
Proof.
  intros [r cf [[pn [txt|lbl l0] st sz]|] a [] off tm k] H; session_same H.
Qed.

Lemma session_handleDragEnd : preserves sessionInvariant handleDragEnd.
Proof.
  intros [r cf [[pn [txt|lbl l] st sz]|] a d off tm k] H; session_same H.
Qed.

Lemma session_toggleOverlaySize : preserves sessionInvariant toggleOverlaySize.
Proof.
  intros [r cf [[pn [txt|lbl l] st sz]|] a d off tm k] H; session_same H.
Qed.

Create HintDb session.
#[local] Hint Resolve session_cleanup session_stopRecognition
  session_startRecognition session_displayBothLanguages
  session_handleDragStart session_handleDragMove session_handleDragEnd
  session_toggleOverlaySize : session.

(** As [preserve], for the session invariant. *)
Ltac preserve_session :=
  repeat first
    [ solve [auto with session nocore]
    | apply preserves_ret
    | apply preserves_throw
    | apply preserves_gets
    | apply preserves_emit
    | apply preserves_liftC
    | apply preserves_discard
    | apply preserves_bind; [|intros ?]
    | apply preserves_tryCatch; [|intros ?]
    | match goal with
      | |- preserves _ (match ?x with _ => _ end) => destruct x
      end ].

Lemma session_translateText_resume (text src tgt : jsstring) (reply : Reply)
  (now : Z) :
  preserves sessionInvariant (translateText_resume text src tgt reply now).
Proof. unfold translateText_resume. preserve_session. Qed.
#[local] Hint Resolve session_translateText_resume : session.

Lemma session_dispatch (ev : Event) : preserves sessionInvariant (dispatch ev).
Proof.
  destruct ev as [supported m| |event|p reply now|error| | |e rect|e l| | |];
    cbn [dispatch].
  - unfold handleMessage.
    destruct (msg_type m); [destruct (msg_config m)|..]; preserve_session.
  - unfold handleRecognitionStart. preserve_session.
  - unfold handleRecognitionResult_begin, translateText_send, updateStatus.
    preserve_session.
  - unfold handleRecognitionResult_resume. preserve_session.
  - unfold handleRecognitionError, sendErrorMessage. preserve_session.
  - unfold handleRecognitionEnd. preserve_session.
  - unfold restartCallback. preserve_session.
  - preserve_session.
  - preserve_session.
  - preserve_session.
  - preserve_session.
  - preserve_session.
Qed.

Lemma session_run (evs : list Event) :
  forall c, sessionInvariant c -> sessionInvariant (run evs c).
Proof.
  induction evs as [|ev r IH]; intros c H; [exact H|].
  cbn [run fold_left]. apply IH. apply (session_dispatch ev c H).
Qed.

Lemma session_reachable (evs : list Event) :
  sessionInvariant (run evs initialController).
Proof. apply session_run, session_initial. Qed.


Lemma preserves_modify (P : Controller -> Prop) (f : Controller -> Controller) :
  (forall c, P c -> P (f c)) -> preserves P (modify f).
Proof. intros H c Hc. exact (H c Hc). Qed.

Lemma preserves_modifyPanel (P : Controller -> Prop) (f : Panel -> Panel) :
  (forall c, P c -> P (set_overlay (option_map f (overlay c)) c)) ->
  preserves P (modifyPanel f).
Proof. intros H c Hc. exact (H c Hc). Qed.

(** Decomposes a handler along its binds and branches; [leaf] closes
    the handlers and field updates it meets. *)
Ltac preserve_by leaf :=
  repeat first
    [ solve [leaf]
    | apply preserves_ret
    | apply preserves_throw
    | apply preserves_gets
    | apply preserves_emit
    | apply preserves_liftC
    | apply preserves_discard
    | apply preserves_bind; [|intros ?]
    | apply preserves_tryCatch; [|intros ?]
    | match goal with
      | |- preserves _ (match ?x with _ => _ end) => destruct x
      end ].

(** ** What activates a session *)

Create HintDb inactive.

Ltac inactive_leaf :=
  first
    [ solve [auto with inactive nocore]
    | apply preserves_modifyPanel; intros [] H; exact H
    | apply preserves_modify; intros [] H; first [exact H | reflexivity] ].

Lemma inactive_clearPendingTimer : preserves inactive clearPendingTimer.
Proof. unfold clearPendingTimer. preserve_by inactive_leaf. Qed.
#[local] Hint Resolve inactive_clearPendingTimer : inactive.

Lemma inactive_removeOverlay : preserves inactive removeOverlay.
Proof. unfold removeOverlay. preserve_by inactive_leaf. Qed.
#[local] Hint Resolve inactive_removeOverlay : inactive.

Lemma inactive_cleanup : preserves inactive cleanup.
Proof. unfold cleanup. preserve_by inactive_leaf. Qed.
#[local] Hint Resolve inactive_cleanup : inactive.

Lemma inactive_stopRecognition : preserves inactive stopRecognition.
Proof. unfold stopRecognition, updateStatus. preserve_by inactive_leaf. Qed.
#[local] Hint Resolve inactive_stopRecognition : inactive.

Lemma inactive_displayBothLanguages (t o : jsstring) (f : bool) :
  preserves inactive (displayBothLanguages t o f).
Proof.
  intros c H. unfold inactive in *.
  destruct (display_frame t o f c) as [_ [_ [_ [Ha _]]]].
  rewrite Ha. exact H.
Qed.
#[local] Hint Resolve inactive_displayBothLanguages : inactive.

Lemma inactive_translateText_resume (text src tgt : jsstring) (reply : Reply)
  (now : Z) :
  preserves inactive (translateText_resume text src tgt reply now).
Proof. unfold translateText_resume. preserve_by inactive_leaf. Qed.
#[local] Hint Resolve inactive_translateText_resume : inactive.

Lemma inactive_dispatch (ev : Event) :
  isStartCommand ev = false -> preserves inactive (dispatch ev).
Proof.
  destruct ev as [supported m| |event|p reply now|error| | |e rect|e l| | |];
    cbn [dispatch isStartCommand]; intros Hs.
  - unfold handleMessage.
    destruct (msg_type m); [destruct (msg_config m)|..];
      try solve [preserve_by inactive_leaf].
    subst supported.
    intros [r0 cf [[[] ct st sz]|] a d off [id|] k] H; run_handler;
      reflexivity.
  - unfold handleRecognitionStart. preserve_by inactive_leaf.
  - unfold handleRecognitionResult_begin, translateText_send, updateStatus.
    preserve_by inactive_leaf.
  - unfold handleRecognitionResult_resume. preserve_by inactive_leaf.
  - unfold handleRecognitionError, sendErrorMessage.
    preserve_by inactive_leaf.
  - unfold handleRecognitionEnd. preserve_by inactive_leaf.
  - unfold restartCallback. preserve_by inactive_leaf.
  - unfold handleDragStart. preserve_by inactive_leaf.
  - unfold handleDragMove. preserve_by inactive_leaf.
  - unfold handleDragEnd. preserve_by inactive_leaf.
  - preserve_by inactive_leaf.
  - unfold toggleOverlaySize. preserve_by inactive_leaf.
Qed.


Lemma startCommand_activates (ev : Event) (c : Controller) :
  isStartCommand ev = true -> isActive (step c ev) = true.
Proof.
  destruct ev as [supported m| |event|p reply now|error| | |e rect|e l| | |];
    cbn [isStartCommand]; try discriminate.
  unfold step. cbn [dispatch]. unfold handleMessage.
  destruct (msg_type m); try discriminate.
  destruct (msg_config m) as [cfg|]; [|discriminate].
  intros ->.
  destruct c as [r0 cf [[pn ct st sz]|] a d off tm k]; run_handler;
    reflexivity.
Qed.

(** X2.  Only a start command, in a browser that has speech
    recognition, activates a session: it always does, and no other
    event (stop, engine callback, translation reply, timer, pointer
    event, overlay button) turns an inactive session active. *)
Theorem only_start_activates :
  forall (ev : Event) (c : Controller),
    (isStartCommand ev = true -> isActive (step c ev) = true) /\
    (isStartCommand ev = false -> isActive c = false ->
     isActive (step c ev) = false).
Proof.
  intros ev c. split.
  - apply startCommand_activates.
  - intros Hs Hc. exact (inactive_dispatch ev Hs c Hc).
Qed.

(** X3.  In every state the controller reaches from its initial one:
    the overlay is on the page exactly when the session is active, a
    configuration is held exactly when it is active, an active session
    holds an engine handle, an inactive one has no deduplication key
    and nothing rendered, and the [clearTimer] handle is never set. *)
Theorem session_coherent :
  forall evs : list Event,
    let c := run evs initialController in
    overlayPresent c = isActive c /\
    match config c with
    | Some _ => isActive c = true
    | None => isActive c = false
    end /\
    match recognition c with
    | Some _ => True
    | None => isActive c = false
    end /\
    (if isActive c then True
     else overlay c = None /\ lastLineKey c = None /\ stListOf c = []) /\
    clearTimer c = None.
Proof.
  intros evs c.
  destruct (session_reachable evs) as [Hat [_ [Hao [Hac [Har [Hak Ht]]]]]].
  fold c in Hat, Hao, Hac, Har, Hak, Ht.
  unfold panelAttached in Hat. unfold overlayPresent, stListOf.
  destruct (isActive c) eqn:Ha.
  - assert (overlay c <> None) as Ho by (apply Hao; reflexivity).
    assert (config c <> None) as Hc by (apply Hac; reflexivity).
    assert (recognition c <> None) as Hr by (apply Har; reflexivity).
    destruct (overlay c) as [p|]; [|contradiction Ho; reflexivity].
    destruct (config c); [|contradiction Hc; reflexivity].
    destruct (recognition c); [|contradiction Hr; reflexivity].
    repeat split; assumption.
  - assert (overlay c = None) as Ho.
    { destruct (overlay c) as [p|]; [|reflexivity].
      assert (false = true) as X by (apply Hao; discriminate).
      discriminate X. }
    assert (config c = None) as Hc.
    { destruct (config c); [|reflexivity].
      assert (false = true) as X by (apply Hac; discriminate).
      discriminate X. }
    rewrite Ho, Hc. destruct (recognition c); repeat split; auto.
Qed.

Lemma handleRecognitionEnd_idle (c : Controller) :
  sessionInvariant c -> stateAfter (handleRecognitionEnd c) = c.
Proof.
  intros [_ [_ [Hao [Hac [_ [Hak Ht]]]]]].
  destruct c as [r cf ov a d off tm k].
  cbn [overlay config isActive lastLineKey clearTimer] in *. subst tm.
  destruct a.
  - reflexivity.
  - rewrite (Hak eq_refl).
    destruct ov as [p|].
    { assert (false = true) as X by (apply Hao; discriminate).
      discriminate X. }
    destruct cf as [cfg|].
    { assert (false = true) as X by (apply Hac; discriminate).
      discriminate X. }
    reflexivity.
Qed.

(** X4.  In no state the controller reaches does the engine's [onend]
    change the controller or send anything: while the session is active
    the handler returns at once, and whenever it is inactive the
    cleanup it runs finds everything already cleared. *)
Theorem handleRecognitionEnd_changes_nothing :
  forall evs : list Event,
    let c := run evs initialController in
    let r := handleRecognitionEnd c in
    completionOf r = Normal tt /\
    stateAfter r = c /\
    existsb isSendMessage (effectsOf r) = false.
Proof.
  intros evs c r.
  pose proof (handleRecognitionEnd_idle c (session_reachable evs)) as Hs.
  split; [|split; [exact Hs|]].
  - subst r. unfold handleRecognitionEnd, bind, gets.
    destruct (isActive c); [reflexivity|]. cbn [negb].
    destruct (cleanup_state c) as [Hc _]. unfold completionOf in *.
    destruct (cleanup c) as [[x c'] o]. exact Hc.
  - subst r. unfold handleRecognitionEnd, bind, gets.
    destruct (isActive c); [reflexivity|]. cbn [negb].
    destruct (cleanup_state c) as [_ [_ [_ [_ [_ [_ [_ He]]]]]]].
    unfold effectsOf in *.
    destruct (cleanup c) as [[x c'] o]. exact He.
Qed.

Lemma display_reachable_list (t o : jsstring) (f : bool) (c : Controller)
  (p : Panel) :
  sessionInvariant c -> overlay c = Some p ->
  let c' := stateAfter (displayBothLanguages t o f c) in
  (exists b, stListOf c' = b :: history c' /\ isLive b = true /\
             markup b = liveMarkup t o) /\
  history c'
  = if f && negb (optEqb (lastLineKey c) (lineKey t o))
    then historyEntry t o :: history c
    else history c.
Proof.
  intros Hinv E c'.
  destruct (display_present t o f c p E) as [Hl _].
  destruct Hinv as [_ [Hlf _]].
  assert (liveFirst (stListOf c')) as Hlf'.
  { subst c'. rewrite Hl. unfold liveUpdated.
    destruct (liveFirst_liveUpdated (liveMarkup t o) (stListOf c) Hlf).
    destruct (f && negb (optEqb (lastLineKey c) (lineKey t o)));
      assumption. }
  destruct (display_live_markup t o f c p E) as [b [Hfind Hm]].
  fold c' in Hfind.
  split.
  - unfold history. destruct (stListOf c') as [|b0 r0]; [discriminate|].
    destruct Hlf' as [Hb0 Hr0]. cbn [find] in Hfind. rewrite Hb0 in Hfind.
    injection Hfind as <-.
    exists b0. split; [|split; assumption].
    cbn [filter]. rewrite Hb0. cbn [negb]. f_equal.
    clear -Hr0. induction Hr0 as [|h r Hh _ IH]; [reflexivity|].
    cbn [filter]. rewrite Hh. cbn [negb]. f_equal. exact IH.
  - unfold history at 1. subst c'. rewrite Hl.
    destruct (f && negb (optEqb (lastLineKey c) (lineKey t o))).
    + unfold liveUpdated. apply history_insert_first. exact Hlf.
    + apply history_liveUpdated.
Qed.

(** X5.  In every reachable state with a panel, after a display call
    the panel's list is the live block, showing the pair just given,
    followed by the history; and a finalized pair with a new key is put
    at the head of the history, so the history reads newest first. *)
Theorem history_newest_first :
  forall (evs : list Event) (t o : jsstring) (f : bool) (p : Panel),
    let c := run evs initialController in
    let c' := stateAfter (displayBothLanguages t o f c) in
    overlay c = Some p ->
    (exists b, stListOf c' = b :: history c' /\ isLive b = true /\
               markup b = liveMarkup t o) /\
    history c'
    = if f && negb (optEqb (lastLineKey c) (lineKey t o))
      then historyEntry t o :: history c
      else history c.
Proof.
  intros evs t o f p c c' E.
  exact (display_reachable_list t o f c p (session_reachable evs) E).
Qed.

Lemma resume_inactive (p : PendingTranslation) (reply : Reply) (now : Z)
  (c : Controller) :
  sessionInvariant c -> isActive c = false ->
  let c' := stateAfter (handleRecognitionResult_resume p reply now c) in
  isActive c' = false /\ overlay c' = None /\ stListOf c' = [] /\
  lastLineKey c' = None.
Proof.
  intros Hinv Ha c'.
  assert (preserves sessionInvariant
            (handleRecognitionResult_resume p reply now)) as Hp
    by (unfold handleRecognitionResult_resume; preserve_session).
  assert (preserves inactive (handleRecognitionResult_resume p reply now))
    as Hi
    by (unfold handleRecognitionResult_resume; preserve_by inactive_leaf).
  specialize (Hp c Hinv). specialize (Hi c Ha). fold c' in Hp, Hi.
  destruct Hp as [_ [_ [Hao [_ [_ [Hak _]]]]]].
  unfold inactive in Hi.
  assert (overlay c' = None) as Ho.
  { destruct (overlay c') as [q|]; [|reflexivity].
    assert (isActive c' = true) as X by (apply Hao; discriminate).
    congruence. }
  repeat split; auto. unfold stListOf. rewrite Ho. reflexivity.
Qed.

(** X6.  A translation reply that arrives after the session has ended
    (in any reachable state) renders nothing and revives nothing,
    whatever the reply is: the session stays inactive, no overlay is
    created and no deduplication key is stored. *)
Theorem late_reply_renders_nothing :
  forall (evs : list Event) (p : PendingTranslation) (reply : Reply)
         (now : Z),
    let c := run evs initialController in
    let c' := stateAfter (handleRecognitionResult_resume p reply now c) in
    isActive c = false ->
    isActive c' = false /\ overlay c' = None /\ stListOf c' = [] /\
    lastLineKey c' = None.
Proof.
  intros evs p reply now c c' Ha.
  exact (resume_inactive p reply now c (session_reachable evs) Ha).
Qed.


(** ** What handlers send *)

Section Emission.

Variable Q : Effect -> Prop.

Lemma emitsOnly_ret {A} (a : A) : emitsOnly Q (ret a).
Proof. intros c. constructor. Qed.

Lemma emitsOnly_throw {A} (e : JsError) : emitsOnly Q (@throw A e).
Proof. intros c. constructor. Qed.

Lemma emitsOnly_gets {A} (f : Controller -> A) : emitsOnly Q (gets f).
Proof. intros c. constructor. Qed.

Lemma emitsOnly_modify (f : Controller -> Controller) :
  emitsOnly Q (modify f).
Proof. intros c. constructor. Qed.

Lemma emitsOnly_modifyPanel (f : Panel -> Panel) :
  emitsOnly Q (modifyPanel f).
Proof. intros c. constructor. Qed.

Lemma emitsOnly_liftC {A} (x : Completion A) : emitsOnly Q (liftC x).
Proof. intros c. constructor. Qed.

Lemma emitsOnly_emit (e : Effect) : Q e -> emitsOnly Q (emit e).
Proof. intros H c. repeat constructor. exact H. Qed.

Lemma emitsOnly_bind {A B} (m : M A) (k : A -> M B) :
  emitsOnly Q m -> (forall a, emitsOnly Q (k a)) -> emitsOnly Q (bind m k).
Proof.
  intros Hm Hk c. unfold bind, effectsOf.
  specialize (Hm c). unfold effectsOf in Hm.
  destruct (m c) as [[[a|e] c1] o1]; cbn [snd] in *.
  - specialize (Hk a c1). unfold effectsOf in Hk.
    destruct (k a c1) as [[r c2] o2]. cbn [snd] in *.
    apply Forall_app. split; assumption.
  - exact Hm.
Qed.

Lemma emitsOnly_tryCatch {A} (body : M A) (handler : JsError -> M A) :
  emitsOnly Q body -> (forall e, emitsOnly Q (handler e)) ->
  emitsOnly Q (tryCatch body handler).
Proof.
  intros Hb Hh c. unfold tryCatch, effectsOf.
  specialize (Hb c). unfold effectsOf in Hb.
  destruct (body c) as [[[a|e] c1] o1]; cbn [snd] in *.
  - exact Hb.
  - specialize (Hh e c1). unfold effectsOf in Hh.
    destruct (handler e c1) as [[r c2] o2]. cbn [snd] in *.
    apply Forall_app. split; assumption.
Qed.

Lemma emitsOnly_discard {A} (m : M A) : emitsOnly Q m -> emitsOnly Q (discard m).
Proof.
  intros H. unfold discard. apply emitsOnly_bind; [exact H|].
  intros a. apply emitsOnly_ret.
Qed.

End Emission.

(** Decomposes a handler along its binds and branches; [leaf] closes
    what is left. *)
Ltac emits_by leaf :=
  repeat first
    [ solve [leaf]
    | apply emitsOnly_ret
    | apply emitsOnly_throw
    | apply emitsOnly_gets
    | apply emitsOnly_modifyPanel
    | apply emitsOnly_modify
    | apply emitsOnly_liftC
    | apply emitsOnly_discard
    | apply emitsOnly_emit; reflexivity
    | apply emitsOnly_bind; [|intros ?]
    | apply emitsOnly_tryCatch; [|intros ?]
    | match goal with
      | |- emitsOnly _ (match ?x with _ => _ end) => destruct x
      end ].

Create HintDb quiet.
Ltac quiet_leaf := solve [auto with quiet nocore].

Lemma quiet_cleanup : emitsOnly noErrorMessage cleanup.
Proof.
  unfold cleanup, clearPendingTimer, removeOverlay. emits_by quiet_leaf.
Qed.
#[local] Hint Resolve quiet_cleanup : quiet.

Lemma quiet_stopRecognition : emitsOnly noErrorMessage stopRecognition.
Proof. unfold stopRecognition, updateStatus. emits_by quiet_leaf. Qed.
#[local] Hint Resolve quiet_stopRecognition : quiet.

Lemma quiet_displayBothLanguages (t o : jsstring) (f : bool) :
  emitsOnly noErrorMessage (displayBothLanguages t o f).
Proof.
  intros c. destruct (display_frame t o f c) as [_ [_ [_ [_ [_ [_ [_ [He _]]]]]]]].
  rewrite He. destruct (clearTimer c); repeat constructor.
Qed.
#[local] Hint Resolve quiet_displayBothLanguages : quiet.

Lemma quiet_translateText_resume (text src tgt : jsstring) (reply : Reply)
  (now : Z) :
  emitsOnly noErrorMessage (translateText_resume text src tgt reply now).
Proof. unfold translateText_resume. emits_by quiet_leaf. Qed.
#[local] Hint Resolve quiet_translateText_resume : quiet.

Lemma quiet_dispatch (ev : Event) :
  mayReportError ev = false -> emitsOnly noErrorMessage (dispatch ev).
Proof.
  destruct ev as [supported m| |event|p reply now|error| | |e rect|e l| | |];
    cbn [dispatch mayReportError]; intros Hs; try discriminate.
  - unfold handleMessage.
    destruct (msg_type m); [destruct (msg_config m)|..];
      try solve [emits_by quiet_leaf].
    destruct supported; [|discriminate].
    intros [r0 cf [[pn ct st sz]|] a d off tm k]; run_handler;
      repeat constructor.
  - unfold handleRecognitionStart. emits_by quiet_leaf.
  - unfold handleRecognitionResult_begin, translateText_send, updateStatus.
    emits_by quiet_leaf.
  - unfold handleRecognitionResult_resume. emits_by quiet_leaf.
  - unfold handleRecognitionEnd. emits_by quiet_leaf.
  - unfold restartCallback. emits_by quiet_leaf.
  - unfold handleDragStart. emits_by quiet_leaf.
  - unfold handleDragMove. emits_by quiet_leaf.
  - unfold handleDragEnd. emits_by quiet_leaf.
  - emits_by quiet_leaf.
  - unfold toggleOverlaySize. emits_by quiet_leaf.
Qed.

(** X7.  An ERROR message goes to the UI only after an engine error or
    after a start command in a browser without speech recognition.  No
    other event sends one: in particular a failed, rejected or
    unparseable translation never does. *)
Theorem error_only_from_engine_or_start :
  forall (ev : Event) (c : Controller),
    mayReportError ev = false ->
    Forall (fun e => isErrorMessage e = false) (effectsOf (dispatch ev c)).
Proof. intros ev c H. exact (quiet_dispatch ev H c). Qed.


(** ** Failed translations *)

Lemma resume_of_null (p : PendingTranslation) (reply : Reply) (now : Z)
  (c c1 : Controller) (o1 : list Effect) :
  translateText_resume (pending_transcript p) (pending_sourceLang p)
    (pending_targetLang p) reply now c = (Normal None, c1, o1) ->
  handleRecognitionResult_resume p reply now c = (Normal tt, c1, o1).
Proof.
  intros E. unfold handleRecognitionResult_resume, tryCatch, bind.
  rewrite E. unfold gets. destruct (isActive c1); cbn [negb ret];
    rewrite app_nil_r; reflexivity.
Qed.

Lemma stopRecognition_result (c : Controller) :
  stopRecognition c
  = (Normal tt, stateAfter (stopRecognition c), effectsOf (stopRecognition c)).
Proof.
  destruct (stopRecognition_state c) as [Hc _].
  unfold completionOf, stateAfter, effectsOf in *.
  destruct (stopRecognition c) as [[x c1] o1]. cbn [fst snd] in *.
  rewrite Hc. reflexivity.
Qed.

Lemma translateText_caught (text src tgt : jsstring) (now : Z)
  (c : Controller) (e : JsError) :
  (if contextInvalidated e
   then bind stopRecognition (fun _ => ret (@None TranslationResult))
   else ret None) c
  = if contextInvalidated e
    then (Normal None, stateAfter (stopRecognition c),
          effectsOf (stopRecognition c))
    else (Normal None, c, []).
Proof.
  destruct (contextInvalidated e); [|reflexivity].
  unfold bind, ret. rewrite (stopRecognition_result c) at 1.
  rewrite app_nil_r. reflexivity.
Qed.

Lemma translateText_rejected (text src tgt : jsstring) (now : Z)
  (c : Controller) (e : JsError) :
  translateText_resume text src tgt (Rejected e) now c
  = if contextInvalidated e
    then (Normal None, stateAfter (stopRecognition c),
          effectsOf (stopRecognition c))
    else (Normal None, c, []).
Proof.
  unfold translateText_resume, tryCatch.
  unfold bind at 1, throw at 1.
  rewrite (translateText_caught text src tgt now c e).
  destruct (contextInvalidated e); reflexivity.
Qed.

Lemma cannotConvert_not_invalidated :
  contextInvalidated cannotConvert = false.
Proof. vm_compute. reflexivity. Qed.

Lemma translateText_failure_response (text src tgt : jsstring) (now : Z)
  (c : Controller) (response : JSON) :
  truthy response = true -> reportsFailure response = true ->
  translateText_resume text src tgt (Resolved (Some response)) now c
  = match failureMessage response with
    | Normal msg =>
        if contextInvalidated {| message := msg |}
        then (Normal None, stateAfter (stopRecognition c),
              effectsOf (stopRecognition c))
        else (Normal None, c, [])
    | Throw _ => (Normal None, c, [])
    end.
Proof.
  intros Ht Hf.
  pose proof (translateText_caught text src tgt now c) as Hc.
  unfold translateText_resume, tryCatch.
  destruct response as [|b|n|s|l|fields];
    cbn [truthy] in Ht; try discriminate;
    unfold bind at 1, ret at 1;
    cbn [truthyOpt truthy]; rewrite ?Ht; cbn [negb];
    cbn [reportsFailure failureMessage] in *;
    unfold bind, liftC, throw, ret in *; cbn [getProp truthyOpt negb app] in *;
    try (rewrite Hf; cbn [negb app]);
    try (destruct (lookup (lit "error") fields) as [v|];
         [destruct (truthy v);
          [destruct (toStr v) as [msg|e] eqn:E;
           [|rewrite (toStr_throw _ _ E) in *]|]|]);
    cbn [app]; rewrite Hc; rewrite ?cannotConvert_not_invalidated;
    try reflexivity;
    match goal with
    | |- context [contextInvalidated ?e] =>
        destruct (contextInvalidated e)
    end; reflexivity.
Qed.

Lemma translateText_falsy_response (text src tgt : jsstring) (now : Z)
  (c : Controller) (response : JSON) :
  truthy response = false ->
  translateText_resume text src tgt (Resolved (Some response)) now c
  = (Normal None, c, []).
Proof.
  intros Ht. unfold translateText_resume, tryCatch, bind, ret.
  cbn [truthyOpt]. rewrite Ht. reflexivity.
Qed.

(** X8.  How a failed translation request ends.  When the request is
    rejected, or answered by anything that carries no truthy [success],
    the result handler shows nothing and reports nothing: it stops the
    session, exactly as [stopRecognition] does, when the failure's
    message mentions "Extension context invalidated", and otherwise
    leaves the controller as it was, with no effect.  The message of a
    response is its [error] value converted to a string, "Translation
    failed" when that value is missing or falsy; when the conversion
    throws (the value is an object with an own [toString] property, or
    an array that holds one) the controller is left as it was, whatever
    else the value holds.  A falsy response ([null], [false], [0], the
    empty string) is handled like a missing one. *)
Theorem translation_failure_policy :
  forall (p : PendingTranslation) (now : Z) (c : Controller),
    (forall e,
        handleRecognitionResult_resume p (Rejected e) now c
        = if contextInvalidated e
          then (Normal tt, stateAfter (stopRecognition c),
                effectsOf (stopRecognition c))
          else (Normal tt, c, [])) /\
    (forall response,
        truthy response = true -> reportsFailure response = true ->
        handleRecognitionResult_resume p (Resolved (Some response)) now c
        = match failureMessage response with
          | Normal msg =>
              if contextInvalidated {| message := msg |}
              then (Normal tt, stateAfter (stopRecognition c),
                    effectsOf (stopRecognition c))
              else (Normal tt, c, [])
          | Throw _ => (Normal tt, c, [])
          end) /\
    (forall fields,
        failureMessage (JObj fields)
        = match lookup (lit "error") fields with
          | Some v => if truthy v then toStr v
                      else Normal (lit "Translation failed")
          | None => Normal (lit "Translation failed")
          end) /\
    (forall ofields before after,
        lookup (lit "toString") ofields <> None ->
        toStr (JObj ofields) = Throw cannotConvert /\
        toStr (JArr (before ++ JObj ofields :: after))
        = Throw cannotConvert) /\
    (forall response,
        truthy response = false ->
        handleRecognitionResult_resume p (Resolved (Some response)) now c
        = (Normal tt, c, [])).
Proof.
  intros p now c. split; [|split; [|split; [|split]]].
  - intros e. pose proof (translateText_rejected (pending_transcript p)
      (pending_sourceLang p) (pending_targetLang p) now c e) as E.
    destruct (contextInvalidated e); apply resume_of_null; exact E.
  - intros response Ht Hf.
    pose proof (translateText_failure_response (pending_transcript p)
      (pending_sourceLang p) (pending_targetLang p) now c response Ht Hf)
      as E.
    destruct (failureMessage response) as [msg|e];
      [destruct (contextInvalidated _)|]; apply resume_of_null; exact E.
  - reflexivity.
  - intros ofields before after Ho.
    split; [exact (proj2 (toStr_object ofields) Ho)|].
    apply toStr_array_throws. exact (proj2 (toStr_object ofields) Ho).
  - intros response Ht. apply resume_of_null.
    apply translateText_falsy_response. exact Ht.
Qed.


(** ** The synchronous part of the result handler *)

Lemma begin_outcome (event : SpeechRecognitionEvent) (c : Controller) :
  handleRecognitionResult_begin event c
  = match config c, isActive c, lastTranscript event with
    | Some cfg, true, Some (t, fin) =>
        if passesGate t fin
        then (Normal (Some {| pending_transcript := t;
                              pending_isFinal := fin;
                              pending_sourceLang :=
                                splitHead HYPHEN (inputLang cfg);
                              pending_targetLang := outputLang cfg |}),
              c,
              [SendMessage (MsgTranslationRequest t
                              (splitHead HYPHEN (inputLang cfg))
                              (outputLang cfg))])
        else (Normal None, c, [])
    | _, _, _ => (Normal None, c, [])
    end.
Proof.
  unfold handleRecognitionResult_begin, lastTranscript, passesGate,
    tryCatch, bind, gets.
  destruct (config c) as [cfg|]; [|reflexivity].
  destruct (isActive c); cbn [negb]; [|reflexivity].
  destruct (last (map Some (results event)) None) as [result|];
    [|reflexivity].
  destruct (alternatives result) as [|alt others]; [reflexivity|].
  destruct (isFinal result); cbn [negb andb orb]; [reflexivity|].
  rewrite Nat.leb_antisym.
  destruct (List.length (trim (transcript alt)) <? 5)%nat; reflexivity.
Qed.

Lemma lastTranscript_some (event : SpeechRecognitionEvent) (t : jsstring)
  (fin : bool) :
  lastTranscript event = Some (t, fin) <->
  exists earlier result alt others,
    results event = earlier ++ [result] /\
    alternatives result = alt :: others /\
    transcript alt = t /\ isFinal result = fin.
Proof.
  unfold lastTranscript. split.
  - destruct (results event) as [|r0 rs] eqn:E; [discriminate|].
    destruct (@exists_last _ (r0 :: rs)) as [earlier [result Hl]];
      [discriminate|].
    rewrite Hl, last_slot.
    destruct (alternatives result) as [|alt others] eqn:Ea; [discriminate|].
    intros [= <- <-]. exists earlier, result, alt, others. auto.
  - intros [earlier [result [alt [others [Hr [Ha [<- <-]]]]]]].
    rewrite Hr, last_slot, Ha. reflexivity.
Qed.

(** X9.  The synchronous part of the result handler never changes the
    controller and never throws, whatever the event (an event with no
    slot or no alternative is swallowed).  It sends either nothing or
    exactly one translation request, whose text is the transcript of
    the first alternative of the event's last slot (held, with that
    slot's finality, for the display that follows), for the input
    language up to its first hyphen and the output language; and it
    sends it exactly when a configuration is held, the
    session is active, and the last slot is final or its trimmed
    transcript has at least five code units. *)
Theorem result_gate :
  forall (event : SpeechRecognitionEvent) (c : Controller),
    let r := handleRecognitionResult_begin event c in
    stateAfter r = c /\
    (completionOf r = Normal None /\ effectsOf r = []
     \/ exists p cfg,
          completionOf r = Normal (Some p) /\
          config c = Some cfg /\
          lastTranscript event
          = Some (pending_transcript p, pending_isFinal p) /\
          pending_sourceLang p = splitHead HYPHEN (inputLang cfg) /\
          pending_targetLang p = outputLang cfg /\
          effectsOf r
          = [SendMessage (MsgTranslationRequest (pending_transcript p)
                            (pending_sourceLang p) (pending_targetLang p))]) /\
    ((exists p, completionOf r = Normal (Some p))
     <-> exists cfg earlier result alt others,
           config c = Some cfg /\ isActive c = true /\
           results event = earlier ++ [result] /\
           alternatives result = alt :: others /\
           (isFinal result = true
            \/ 5 <= List.length (trim (transcript alt)))).
Proof.
  intros event c r. subst r. rewrite begin_outcome.
  destruct (config c) as [cfg|] eqn:Ec.
  2:{ split; [reflexivity|]. split; [left; split; reflexivity|].
      split; [intros [p Hp]; discriminate Hp|].
      intros [cfg [_ [_ [_ [_ [H _]]]]]]. discriminate H. }
  destruct (isActive c) eqn:Ea.
  2:{ split; [reflexivity|]. split; [left; split; reflexivity|].
      split; [intros [p Hp]; discriminate Hp|].
      intros [cfg' [_ [_ [_ [_ [_ [H _]]]]]]]. discriminate H. }
  destruct (lastTranscript event) as [[t fin]|] eqn:El.
  2:{ split; [reflexivity|]. split; [left; split; reflexivity|].
      split; [intros [p Hp]; discriminate Hp|].
      intros [cfg' [earlier [result [alt [others [_ [_ [Hr [Hal _]]]]]]]]].
      assert (lastTranscript event
              = Some (transcript alt, isFinal result)) as X.
      { apply lastTranscript_some. exists earlier, result, alt, others.
        auto. }
      congruence. }
  apply lastTranscript_some in El.
  destruct El as [earlier [result [alt [others [Hr [Hal [Ht Hf]]]]]]].
  unfold passesGate.
  destruct (fin || (5 <=? List.length (trim t))%nat) eqn:Eg.
  - split; [reflexivity|]. split.
    + right. eexists. exists cfg. cbn.
      repeat split; reflexivity.
    + split; [intros _|intros _; eexists; reflexivity].
      exists cfg, earlier, result, alt, others.
      repeat split; try assumption.
      apply orb_true_iff in Eg. destruct Eg as [Eg|Eg].
      * left. congruence.
      * right. apply Nat.leb_le in Eg. rewrite Ht. exact Eg.
  - split; [reflexivity|]. split; [left; split; reflexivity|].
    split; [intros [p Hp]; discriminate Hp|].
    intros [cfg' [earlier' [result' [alt' [others' [_ [_ [Hr' [Hal' Hg]]]]]]]]].
    rewrite Hr in Hr'. apply app_inj_tail in Hr'. destruct Hr' as [_ <-].
    rewrite Hal in Hal'. injection Hal' as <- _.
    apply orb_false_iff in Eg. destruct Eg as [Eg1 Eg2].
    apply Nat.leb_gt in Eg2. rewrite Ht, Hf in Hg.
    destruct Hg as [Hg|Hg]; [congruence | lia].
Qed.

Lemma trimStart_blank (s : jsstring) :
  forallb isWhiteSpace s = true -> trimStart s = [].
Proof.
  induction s as [|x s IH]; [reflexivity|].
  cbn [forallb trimStart]. intros H. apply andb_true_iff in H.
  destruct H as [-> H]. exact (IH H).
Qed.

Lemma trim_blank (s : jsstring) :
  forallb isWhiteSpace s = true -> trim s = [].
Proof.
  intros H. unfold trim, trimEnd. rewrite (trimStart_blank s H).
  reflexivity.
Qed.

(** X10.  An interim result whose transcript consists of white space
    only, however long it is, is dropped like a short one: nothing is
    sent and the controller is left as it was.  A final result with
    such a transcript, or an empty one, is sent for translation all the
    same when the session is active. *)
Theorem blank_interim_dropped :
  forall (c : Controller) (event : SpeechRecognitionEvent) (t : jsstring)
         (fin : bool),
    lastTranscript event = Some (t, fin) ->
    forallb isWhiteSpace t = true ->
    (fin = false ->
     handleRecognitionResult_begin event c = (Normal None, c, [])) /\
    (fin = true ->
     forall cfg, config c = Some cfg -> isActive c = true ->
       effectsOf (handleRecognitionResult_begin event c)
       = [SendMessage (MsgTranslationRequest t
                         (splitHead HYPHEN (inputLang cfg))
                         (outputLang cfg))]).
Proof.
  intros c event t fin El Hb. rewrite begin_outcome, El.
  unfold passesGate. rewrite (trim_blank t Hb). cbn [List.length].
  split; intros ->.
  - cbn [orb Nat.leb]. destruct (config c); [|reflexivity].
    destruct (isActive c); reflexivity.
  - intros cfg -> ->. reflexivity.
Qed.

(** ** The primary subtag *)

Lemma splitHead_no_sep (sep : codeunit) (s : jsstring) :
  ~ In sep (splitHead sep s).
Proof.
  induction s as [|x s IH]; [intros []|].
  cbn [splitHead]. destruct (N.eqb_spec x sep) as [->|Hne]; [intros []|].
  intros [H|H]; [congruence | exact (IH H)].
Qed.

Lemma splitHead_prefix (sep : codeunit) (s : jsstring) :
  exists rest, s = splitHead sep s ++ rest.
Proof.
  induction s as [|x s [rest IH]]; [exists []; reflexivity|].
  cbn [splitHead]. destruct (N.eqb x sep).
  - exists (x :: s). reflexivity.
  - exists rest. cbn [app]. rewrite <- IH. reflexivity.
Qed.

Lemma splitHead_at_sep (sep : codeunit) (a b : jsstring) :
  ~ In sep a -> splitHead sep (a ++ sep :: b) = a.
Proof.
  induction a as [|x a IH]; intros H.
  - cbn [app splitHead]. rewrite N.eqb_refl. reflexivity.
  - cbn [app splitHead]. destruct (N.eqb_spec x sep) as [->|Hne].
    + contradiction H. left. reflexivity.
    + rewrite IH; [reflexivity|]. intros Hin. apply H. right. exact Hin.
Qed.

Lemma splitHead_whole (sep : codeunit) (s : jsstring) :
  ~ In sep s -> splitHead sep s = s.
Proof.
  induction s as [|x s IH]; intros H; [reflexivity|].
  cbn [splitHead]. destruct (N.eqb_spec x sep) as [->|Hne].
  - contradiction H. left. reflexivity.
  - rewrite IH; [reflexivity|]. intros Hin. apply H. right. exact Hin.
Qed.

(** X11.  The source language of every translation request is the
    input language cut before its first hyphen: it holds no hyphen, it
    is a prefix of the input language, it is the whole of it when there
    is no hyphen, and nothing at all when the input language starts
    with one or is empty. *)
Theorem request_source_language :
  forall (event : SpeechRecognitionEvent) (c : Controller)
         (p : PendingTranslation) (cfg : RecognitionConfig),
    completionOf (handleRecognitionResult_begin event c) = Normal (Some p) ->
    config c = Some cfg ->
    let src := pending_sourceLang p in
    ~ In HYPHEN src /\
    (exists rest, inputLang cfg = src ++ rest) /\
    (~ In HYPHEN (inputLang cfg) -> src = inputLang cfg) /\
    (forall a b, inputLang cfg = a ++ HYPHEN :: b -> ~ In HYPHEN a ->
                 src = a).
Proof.
  intros event c p cfg Hc Hcfg src.
  assert (src = splitHead HYPHEN (inputLang cfg)) as ->.
  { subst src. rewrite begin_outcome, Hcfg in Hc.
    destruct (isActive c); [|discriminate].
    destruct (lastTranscript event) as [[t fin]|]; [|discriminate].
    destruct (passesGate t fin); [|discriminate].
    cbn in Hc. injection Hc as <-. reflexivity. }
  split; [apply splitHead_no_sep|].
  split; [apply splitHead_prefix|].
  split; [apply splitHead_whole|].
  intros a b -> Ha. apply splitHead_at_sep. exact Ha.
Qed.


(** ** Commands *)

Lemma handleMessage_completes (supported : bool) (m : ExtensionMessage)
  (c : Controller) :
  completionOf (handleMessage supported m c) = Normal tt.
Proof.
  unfold handleMessage.
  destruct (msg_type m); try reflexivity.
  - destruct (msg_config m) as [cfg|]; [|reflexivity].
    destruct c as [r cf [[[] ct st sz]|] a d off [id|] k];
      destruct supported; run_handler; reflexivity.
  - apply stopRecognition_state.
Qed.

Lemma failed_start (cfg : RecognitionConfig) (c : Controller) :
  let r := startRecognition false cfg c in
  completionOf r = Normal tt /\
  filter isSendMessage (effectsOf r)
  = [SendMessage
       (MsgError
          (lit "Speech Recognition API is not supported in this browser"))] /\
  existsb isEngineCall (effectsOf r) = false /\
  isActive (stateAfter r) = false /\
  overlayPresent (stateAfter r) = false /\
  config (stateAfter r) = None /\
  lastLineKey (stateAfter r) = None /\
  recognition (stateAfter r) = recognition c.
Proof.
  destruct c as [r cf [[[] ct st sz]|] a d off [id|] k]; run_handler;
    repeat split; reflexivity.
Qed.

(** X12.  The command listener answers every message with
    [success: true], whatever the command and whatever became of it:
    [handleMessage] never throws.  A start command in a browser without
    speech recognition is answered that way too; its failure is told
    by one ERROR message only, no engine is created or started, and the
    controller is left inactive with no overlay, configuration or
    deduplication key. *)
Theorem listener_always_acknowledges :
  forall (supported : bool) (m : ExtensionMessage) (c : Controller),
    completionOf (messageListener supported m c)
    = Normal {| ack_success := true; ack_error := None |} /\
    stateAfter (messageListener supported m c)
    = stateAfter (handleMessage supported m c) /\
    effectsOf (messageListener supported m c)
    = effectsOf (handleMessage supported m c) /\
    (forall cfg,
        msg_type m = START_RECOGNITION -> msg_config m = Some cfg ->
        supported = false ->
        let r := messageListener supported m c in
        filter isSendMessage (effectsOf r)
        = [SendMessage
             (MsgError
                (lit "Speech Recognition API is not supported in this browser"))]
        /\ existsb isEngineCall (effectsOf r) = false
        /\ isActive (stateAfter r) = false
        /\ overlayPresent (stateAfter r) = false
        /\ config (stateAfter r) = None
        /\ lastLineKey (stateAfter r) = None).
Proof.
  intros supported m c.
  pose proof (handleMessage_completes supported m c) as Hc.
  unfold messageListener, completionOf, stateAfter, effectsOf in *.
  destruct (handleMessage supported m c) as [[[[]|e] c1] o1] eqn:E;
    cbn [fst snd] in *; [|discriminate].
  split; [reflexivity|]. split; [reflexivity|]. split; [reflexivity|].
  intros cfg Ht Hcf ->.
  unfold handleMessage in E. rewrite Ht, Hcf in E.
  destruct (failed_start cfg c) as [_ [H1 [H2 [H3 [H4 [H5 [H6 _]]]]]]].
  unfold stateAfter, effectsOf in *. rewrite E in *. cbn [fst snd] in *.
  repeat split; assumption.
Qed.

(** ** Dragging and resizing *)

Lemma dragStart_then_move (c : Controller) (p : Panel) (e e' : MouseEvent)
  (rect : DOMRect) (l : Layout) :
  overlay c = Some p ->
  let c1 := stateAfter (handleDragStart e rect c) in
  let c2 := stateAfter (handleDragMove e' l c1) in
  exists p2,
    overlay c2 = Some p2 /\
    style_left (style p2)
    = Px (Z.max 0 (Z.min (rect_left rect + (clientX e' - clientX e))
                         (innerWidth l - offsetWidth l))) /\
    style_top (style p2)
    = Px (Z.max 0 (Z.min (rect_top rect + (clientY e' - clientY e))
                         (innerHeight l - offsetHeight l))) /\
    content p2 = content p /\ stSize p2 = stSize p.
Proof.
  destruct c as [r cf ov a d off tm k]. cbn [overlay]. intros ->.
  run_handler. eexists. split; [reflexivity|].
  unfold dragPosition. cbn [fst snd style style_left style_top content stSize].
  repeat split; f_equal; f_equal; f_equal; lia.
Qed.

(** X13.  Between a pointer-down and the pointer-moves that follow, the
    panel follows the pointer: its position is where it was at
    pointer-down plus the pointer's displacement, clamped; when that
    point lies inside the allowed rectangle the panel moves by exactly
    the pointer's displacement.  Its content and size setting are not
    touched. *)
Theorem drag_follows_pointer :
  forall (c : Controller) (p : Panel) (e e' : MouseEvent) (rect : DOMRect)
         (l : Layout),
    overlay c = Some p ->
    let c1 := stateAfter (handleDragStart e rect c) in
    let c2 := stateAfter (handleDragMove e' l c1) in
    let x := (rect_left rect + (clientX e' - clientX e))%Z in
    let y := (rect_top rect + (clientY e' - clientY e))%Z in
    exists p2,
      overlay c2 = Some p2 /\
      style_left (style p2)
      = Px (Z.max 0 (Z.min x (innerWidth l - offsetWidth l))) /\
      style_top (style p2)
      = Px (Z.max 0 (Z.min y (innerHeight l - offsetHeight l))) /\
      ((0 <= x <= innerWidth l - offsetWidth l)%Z ->
       style_left (style p2) = Px x) /\
      ((0 <= y <= innerHeight l - offsetHeight l)%Z ->
       style_top (style p2) = Px y) /\
      content p2 = content p /\ stSize p2 = stSize p.
Proof.
  intros c p e e' rect l E c1 c2 x y.
  destruct (dragStart_then_move c p e e' rect l E)
    as [p2 [H1 [H2 [H3 [H4 H5]]]]].
  exists p2. fold c1 c2 in H1. fold x in H2. fold y in H3.
  split; [exact H1|]. split; [exact H2|]. split; [exact H3|].
  split; [|split; [|split; assumption]].
  - intros Hx. rewrite H2. f_equal. lia.
  - intros Hy. rewrite H3. f_equal. lia.
Qed.

Lemma drag_survives_stop (cfg : RecognitionConfig) (c : Controller) :
  isDragging c = true -> panelAttached c ->
  let c1 := stateAfter (stopRecognition c) in
  let c2 := stateAfter (handleDragEnd c1) in
  let c3 := stateAfter (startRecognition true cfg c2) in
  overlay c1 = None /\ isDragging c2 = true /\ isDragging c3 = true /\
  dragOffset c3 = dragOffset c /\
  forall e l,
    exists p',
      overlay (stateAfter (handleDragMove e l c3)) = Some p' /\
      style_left (style p') = Px (fst (dragPosition (dragOffset c) e l)) /\
      style_top (style p') = Px (snd (dragPosition (dragOffset c) e l)).
Proof.
  destruct c as [[r|] cf [[pn ct st sz]|] a d off [id|] k];
    cbn [isDragging panelAttached overlay parentNode];
    intros -> Hp; try subst pn; run_handler;
    (split; [reflexivity|]); (split; [reflexivity|]);
    (split; [reflexivity|]); (split; [reflexivity|]);
    intros e l; eexists; repeat split; reflexivity.
Qed.

(** X14.  A drag that is interrupted by a stop is never ended: stopping
    does not reset [isDragging], and the pointer-up that follows finds
    no overlay and returns before resetting it.  After the next start,
    pointer-moves therefore reposition the new panel, with the old
    offset, without any pointer-down. *)
Theorem interrupted_drag_persists :
  forall (cfg : RecognitionConfig) (c : Controller),
    isDragging c = true -> panelAttached c ->
    let c1 := stateAfter (stopRecognition c) in
    let c2 := stateAfter (handleDragEnd c1) in
    let c3 := stateAfter (startRecognition true cfg c2) in
    overlay c1 = None /\ isDragging c2 = true /\ isDragging c3 = true /\
    dragOffset c3 = dragOffset c /\
    forall e l,
      exists p',
        overlay (stateAfter (handleDragMove e l c3)) = Some p' /\
        style_left (style p') = Px (fst (dragPosition (dragOffset c) e l)) /\
        style_top (style p') = Px (snd (dragPosition (dragOffset c) e l)).
Proof. exact drag_survives_stop. Qed.

Lemma toggle_thrice (c : Controller) :
  stateAfter (toggleOverlaySize
                (stateAfter (toggleOverlaySize
                               (stateAfter (toggleOverlaySize c)))))
  = stateAfter (toggleOverlaySize c).
Proof.
  destruct c as [r cf [[pn [txt|lbl l] st sz]|] a d off tm k];
    try reflexivity;
    run_handler; destruct (optEqb sz (lit "max")); reflexivity.
Qed.

Lemma toggle_frame (c : Controller) (p : Panel) :
  overlay c = Some p ->
  let r := toggleOverlaySize c in
  exists p',
    overlay (stateAfter r) = Some p' /\
    effectsOf r = [] /\
    stListOf (stateAfter r) = stListOf c /\
    parentNode p' = parentNode p /\
    style_top (style p') = style_top (style p) /\
    style_bottom (style p') = style_bottom (style p) /\
    style_left (style p') = Css (lit "0") /\
    style_right (style p') = Css (lit "0") /\
    style_width (style p') = Css (lit "100%") /\
    (stSize p = Some (lit "max") ->
     stSize p' = Some (lit "min") /\
     style_maxWidth (style p') = Css (lit "900px") /\
     style_margin (style p') = Css (lit "0 auto")) /\
    (stSize p <> Some (lit "max") ->
     stSize p' = Some (lit "max") /\
     style_maxWidth (style p') = Css (lit "100%") /\
     style_margin (style p') = Css (lit "0")) /\
    isActive (stateAfter r) = isActive c /\
    lastLineKey (stateAfter r) = lastLineKey c.
Proof.
  destruct c as [r cf ov a d off tm k]. cbn [overlay]. intros ->.
  destruct p as [pn [txt|lbl l] st sz]; run_handler;
    eexists; (split; [reflexivity|]);
    repeat (split; [reflexivity|]);
    (split; [intros H; apply optEqb_true in H; rewrite H;
             repeat split; reflexivity|]);
    (split; [intros H; apply optEqb_false in H; rewrite H;
             repeat split; reflexivity|]);
    split; reflexivity.
Qed.

(** X15.  The size toggle alternates between the full-width and the
    compact setting (anything but "max" counts as compact), so a third
    toggle gives the state of the first.  It never touches the
    subtitles, the session or the panel's vertical position, but it
    resets the horizontal position to left 0 / right 0, discarding
    where a drag had put the panel. *)
Theorem toggle_alternates :
  forall c : Controller,
    stateAfter (toggleOverlaySize
                  (stateAfter (toggleOverlaySize
                                 (stateAfter (toggleOverlaySize c)))))
    = stateAfter (toggleOverlaySize c) /\
    forall p, overlay c = Some p ->
      let r := toggleOverlaySize c in
      exists p',
        overlay (stateAfter r) = Some p' /\
        effectsOf r = [] /\
        stListOf (stateAfter r) = stListOf c /\
        parentNode p' = parentNode p /\
        style_top (style p') = style_top (style p) /\
        style_bottom (style p') = style_bottom (style p) /\
        style_left (style p') = Css (lit "0") /\
        style_right (style p') = Css (lit "0") /\
        style_width (style p') = Css (lit "100%") /\
        (stSize p = Some (lit "max") ->
         stSize p' = Some (lit "min") /\
         style_maxWidth (style p') = Css (lit "900px") /\
         style_margin (style p') = Css (lit "0 auto")) /\
        (stSize p <> Some (lit "max") ->
         stSize p' = Some (lit "max") /\
         style_maxWidth (style p') = Css (lit "100%") /\
         style_margin (style p') = Css (lit "0")) /\
        isActive (stateAfter r) = isActive c /\
        lastLineKey (stateAfter r) = lastLineKey c.
Proof.
  intros c. split; [apply toggle_thrice|]. intros p E.
  exact (toggle_frame c p E).
Qed.


(** ** The deduplication key *)

Lemma lineKey_shift (a b c : jsstring) :
  lineKey (a ++ lit "|||" ++ b) c = lineKey a (b ++ lit "|||" ++ c).
Proof. unfold lineKey. rewrite <- !app_assoc. reflexivity. Qed.

(** X16.  The deduplication key does not tell every pair from every
    other: the pairs (a|||b, c) and (a, b|||c) have the same key.  So
    when the second follows the first as finalized lines, it is shown
    in the live block but gets no history entry, although the two pairs
    differ. *)
Theorem lineKey_collision :
  forall (ctl : Controller) (p : Panel) (a b c : jsstring),
    overlay ctl = Some p ->
    let t1 := a ++ lit "|||" ++ b in
    let o2 := b ++ lit "|||" ++ c in
    let c1 := stateAfter (displayBothLanguages t1 c true ctl) in
    let c2 := stateAfter (displayBothLanguages a o2 true c1) in
    t1 <> a /\ lineKey t1 c = lineKey a o2 /\
    history c2 = history c1 /\
    exists live, find isLive (stListOf c2) = Some live /\
                 markup live = liveMarkup a o2.
Proof.
  intros ctl p a b c E t1 o2 c1 c2.
  destruct (display_present t1 c true ctl p E) as [_ [_ [[p1 [E1 _]] _]]].
  fold c1 in E1.
  split.
  { subst t1. intros H. apply (f_equal (@List.length _)) in H.
    rewrite !length_app in H. cbn in H. lia. }
  split; [apply lineKey_shift|].
  split.
  - apply (history_display_same_key a o2 c1 p1 E1).
    subst c1. rewrite (lastLineKey_display_final t1 c ctl p E).
    f_equal. apply lineKey_shift.
  - apply (display_live_markup a o2 true c1 p1 E1).
Qed.

Lemma restart_keeps_key (cfg : RecognitionConfig) (c : Controller)
  (p : Panel) :
  overlay c = Some p ->
  let c' := stateAfter (startRecognition true cfg c) in
  lastLineKey c' = lastLineKey c /\ stListOf c' = [] /\
  (exists p', overlay c' = Some p' /\ content p' = Plain readyText) /\
  isActive c' = true /\ config c' = Some cfg.
Proof.
  destruct c as [r cf ov a d off tm k]. cbn [overlay]. intros ->.
  destruct p as [pn ct st sz]. run_handler.
  repeat split; try reflexivity. eexists. split; reflexivity.
Qed.

(** X17.  A start command received while the controller still holds an
    overlay (a second start without a stop) reuses the panel and
    replaces all its content, history included, by the ready text, but
    keeps the deduplication key.  The line finalized last before that
    start, finalized again after it, is therefore shown in the live
    block without getting a history entry in the emptied panel. *)
Theorem restart_keeps_dedup_key :
  forall (cfg : RecognitionConfig) (c : Controller) (p : Panel)
         (t o : jsstring),
    overlay c = Some p ->
    let c' := stateAfter (startRecognition true cfg c) in
    let c'' := stateAfter (displayBothLanguages t o true c') in
    lastLineKey c' = lastLineKey c /\ history c' = [] /\
    (exists p', overlay c' = Some p' /\ content p' = Plain readyText) /\
    (lastLineKey c = Some (lineKey t o) -> history c'' = []) /\
    (lastLineKey c <> Some (lineKey t o) ->
     history c'' = [historyEntry t o]).
Proof.
  intros cfg c p t o E c' c''.
  destruct (restart_keeps_key cfg c p E) as [Hk [Hl [[p' [E' Hc]] _]]].
  fold c' in Hk, Hl, E'.
  assert (history c' = []) as Hh by (unfold history; rewrite Hl; reflexivity).
  split; [exact Hk|]. split; [exact Hh|].
  split; [exists p'; split; assumption|].
  split.
  - intros K. subst c''.
    rewrite (history_display_same_key t o c' p' E'); [exact Hh|].
    rewrite Hk. exact K.
  - intros K. subst c''.
    destruct (display_present t o true c' p' E') as [Hl' _].
    assert (optEqb (lastLineKey c') (lineKey t o) = false) as K'
      by (apply optEqb_false; rewrite Hk; exact K).
    rewrite K' in Hl'. cbn [andb negb] in Hl'.
    unfold history. rewrite Hl'. unfold liveUpdated. rewrite Hl.
    reflexivity.
Qed.

(** ** More on escaping *)

Lemma escapeChar_cases (x : codeunit) :
  (x = AMP /\ escapeChar x = lit "&amp;") \/
  (x = NBSP /\ escapeChar x = lit "&nbsp;") \/
  (x = LT /\ escapeChar x = lit "&lt;") \/
  (x = GT /\ escapeChar x = lit "&gt;") \/
  (x <> AMP /\ x <> NBSP /\ x <> LT /\ x <> GT /\ escapeChar x = [x]).
Proof.
  unfold escapeChar.
  destruct (N.eqb_spec x AMP); [left; auto|].
  destruct (N.eqb_spec x NBSP); [right; left; auto|].
  destruct (N.eqb_spec x LT); [right; right; left; auto|].
  destruct (N.eqb_spec x GT); [right; right; right; left; auto|].
  right; right; right; right. auto.
Qed.

Lemma escapeChar_split (x y : codeunit) (r1 r2 : jsstring) :
  escapeChar x ++ r1 = escapeChar y ++ r2 -> x = y /\ r1 = r2.
Proof.
  destruct (escapeChar_cases x)
    as [[-> ->]|[[-> ->]|[[-> ->]|[[-> ->]|[Hx [_ [_ [_ ->]]]]]]]];
    destruct (escapeChar_cases y)
      as [[-> ->]|[[-> ->]|[[-> ->]|[[-> ->]|[Hy [_ [_ [_ ->]]]]]]]];
    cbn; intros H; try discriminate H;
    try (injection H as H; split; [reflexivity | exact H]);
    try (injection H as H1 H2; first [contradiction Hx; exact H1
                                     | contradiction Hy; symmetry; exact H1
                                     | split; [exact H1 | exact H2]]).
Qed.

Lemma escapeChars_injective (s1 : jsstring) :
  forall s2, escapeChars s1 = escapeChars s2 -> s1 = s2.
Proof.
  unfold escapeChars.
  induction s1 as [|x s1 IH]; intros [|y s2] H.
  - reflexivity.
  - exfalso. cbn [flat_map] in H.
    destruct (escapeChar_cases y)
      as [[_ E]|[[_ E]|[[_ E]|[[_ E]|[_ [_ [_ [_ E]]]]]]]];
      rewrite E in H; discriminate H.
  - exfalso. cbn [flat_map] in H.
    destruct (escapeChar_cases x)
      as [[_ E]|[[_ E]|[[_ E]|[[_ E]|[_ [_ [_ [_ E]]]]]]]];
      rewrite E in H; discriminate H.
  - cbn [flat_map] in H. apply escapeChar_split in H.
    destruct H as [-> H]. f_equal. exact (IH s2 H).
Qed.

Lemma escapeChars_plain (s : jsstring) :
  (forall x, In x s -> x <> AMP /\ x <> NBSP /\ x <> LT /\ x <> GT) ->
  escapeChars s = s.
Proof.
  unfold escapeChars. induction s as [|x s IH]; intros H; [reflexivity|].
  cbn [flat_map].
  destruct (escapeChar_cases x)
    as [[E _]|[[E _]|[[E _]|[[E _]|[_ [_ [_ [_ E]]]]]]]];
    try (exfalso; destruct (H x (or_introl eq_refl)) as [H1 [H2 [H3 H4]]];
         congruence).
  rewrite E, IH; [reflexivity|]. intros y Hy. apply H. right. exact Hy.
Qed.

Lemma escapeChars_length (s : jsstring) :
  List.length s <= List.length (escapeChars s).
Proof.
  unfold escapeChars. induction s as [|x s IH]; [apply le_n|].
  cbn [flat_map]. rewrite length_app. cbn [List.length].
  destruct (escapeChar_cases x)
    as [[_ E]|[[_ E]|[[_ E]|[[_ E]|[_ [_ [_ [_ E]]]]]]]];
    rewrite E; cbn; lia.
Qed.

(** X18.  [escapeHtml] loses nothing: two different texts never get the
    same escaped form.  It works code unit by code unit (the escaped
    form of a concatenation is the concatenation of the escaped forms,
    the empty text stays empty), never shortens a text, and returns a
    text unchanged when the text has no ampersand, angle bracket or
    no-break space. *)
Theorem escapeHtml_faithful :
  (forall s1 s2, escapeHtml s1 = escapeHtml s2 -> s1 = s2) /\
  (forall a b, escapeHtml (a ++ b) = escapeHtml a ++ escapeHtml b) /\
  escapeHtml [] = [] /\
  (forall s, List.length s <= List.length (escapeHtml s)) /\
  (forall s,
      (forall x, In x s -> x <> AMP /\ x <> NBSP /\ x <> LT /\ x <> GT) ->
      escapeHtml s = s).
Proof.
  split.
  { intros s1 s2. rewrite !escapeHtml_escapeChars.
    apply escapeChars_injective. }
  split.
  { intros a b. rewrite !escapeHtml_escapeChars. unfold escapeChars.
    apply flat_map_app. }
  split; [reflexivity|].
  split.
  { intros s. rewrite escapeHtml_escapeChars. apply escapeChars_length. }
  intros s H. rewrite escapeHtml_escapeChars. apply escapeChars_plain.
  exact H.
Qed.


(* ================================================================ *)
(** * The background worker and the popup *)

(** ** The translation relay *)

Lemma lacks_includes (x : codeunit) (s p : jsstring) :
  lacks x s = true -> includes s (x :: p) = false.
Proof.
  induction s as [|c s IH]; [reflexivity|].
  cbn [lacks forallb includes startsWith]. intros H.
  apply andb_true_iff in H. destruct H as [Hc Hs].
  apply negb_true_iff in Hc. rewrite Hc. cbn [andb orb]. exact (IH Hs).
Qed.

Lemma lacks_app (x : codeunit) (a b : jsstring) :
  lacks x (a ++ b) = lacks x a && lacks x b.
Proof. unfold lacks. apply forallb_app. Qed.

Lemma lit_String (ch : ascii) (s : string) :
  lit (String ch s) = N_of_ascii ch :: lit s.
Proof. reflexivity. Qed.

Lemma lacks_cons (x c : codeunit) (s : jsstring) :
  lacks x (c :: s) = negb (N.eqb c x) && lacks x s.
Proof. reflexivity. Qed.

Lemma lacks_digits (d : Decimal.uint) :
  lacks 69%N (lit (NilEmpty.string_of_uint d)) = true.
Proof.
  induction d; cbn [NilEmpty.string_of_uint]; [reflexivity|..];
    rewrite lit_String, lacks_cons, IHd; reflexivity.
Qed.

Lemma lacks_intToString (z : Z) : lacks 69%N (intToString z) = true.
Proof.
  unfold intToString, NilZero.string_of_int, NilZero.string_of_uint.
  destruct (Z.to_int z) as [d|d].
  - destruct d; try reflexivity; apply lacks_digits.
  - rewrite lit_String, lacks_cons.
    destruct d; try reflexivity; rewrite lacks_digits; reflexivity.
Qed.

Lemma http_error_not_invalidated (status : Z) :
  contextInvalidated
    {| message := lit "Translation API error: " ++ intToString status |}
  = false.
Proof.
  unfold contextInvalidated. cbn [message].
  change (lit "Extension context invalidated")
    with (69%N :: lit "xtension context invalidated").
  apply lacks_includes. rewrite lacks_app, lacks_intToString.
  reflexivity.
Qed.

Lemma relay_failure (e : JsError) (p : PendingTranslation) (now : Z)
  (c : Controller) :
  handleRecognitionResult_resume p
    (Resolved (Some (JObj [(lit "success", JBool false);
                           (lit "error", JStr (message e))]))) now c
  = if contextInvalidated e
    then (Normal tt, stateAfter (stopRecognition c),
          effectsOf (stopRecognition c))
    else (Normal tt, c, []).
Proof.
  pose proof (translateText_failure_response (pending_transcript p)
                (pending_sourceLang p) (pending_targetLang p) now c
                (JObj [(lit "success", JBool false);
                       (lit "error", JStr (message e))])
                eq_refl eq_refl) as E.
  assert (failureMessage
            (JObj [(lit "success", JBool false);
                   (lit "error", JStr (message e))])
          = Normal (if isEmpty (message e) then lit "Translation failed"
                    else message e)) as F.
  { cbn [failureMessage]. change (lookup _ _) with (Some (JStr (message e))).
    cbn [truthy toStr]. destruct (isEmpty (message e)); reflexivity. }
  rewrite F in E. clear F.
  assert (contextInvalidated
            {| message := if isEmpty (message e)
                          then lit "Translation failed" else message e |}
          = contextInvalidated e) as X.
  { unfold contextInvalidated. cbn [message].
    destruct (message e) as [|ch r]; reflexivity. }
  rewrite X in E.
  destruct (contextInvalidated e); apply resume_of_null; exact E.
Qed.

(** X19.  The translation round trip through the background worker.
    The request the result handler sends makes the worker query the
    service with client=gtx, sl = the primary subtag, tl = the output
    language, dt=t and q = the transcript, in that order.  When the
    service answers with a status outside 200-299, whatever the status
    and the body, the controller is left as it was and nothing is shown
    or reported.  When it answers in that range with a JSON body, the
    content script extracts the text from that body as it is: the
    result carries the extracted text, and is [null] when the
    extraction throws (a [null] entry, a value that cannot be converted
    to a string) or gives the empty text.  When the
    fetch or the body fails, the session is stopped if the failure's
    message mentions the invalidated extension context and is left
    alone otherwise. *)
Theorem translation_round_trip :
  (forall event c p,
      completionOf (handleRecognitionResult_begin event c)
      = Normal (Some p) ->
      exists m,
        effectsOf (handleRecognitionResult_begin event c) = [SendMessage m] /\
        queryFor m
        = Some [(lit "client", lit "gtx");
                (lit "sl", pending_sourceLang p);
                (lit "tl", pending_targetLang p);
                (lit "dt", lit "t");
                (lit "q", pending_transcript p)]) /\
  (forall status body p now c,
      responseOk status = false ->
      handleRecognitionResult_resume p
        (Resolved (Some (sentResponse
                           (backgroundListener TRANSLATION_RESULT
                              (FetchResponse status body))))) now c
      = (Normal tt, c, [])) /\
  (forall status v text src tgt now c,
      responseOk status = true ->
      translateText_resume text src tgt
        (Resolved (Some (sentResponse
                           (backgroundListener TRANSLATION_RESULT
                              (FetchResponse status (BodyJson v)))))) now c
      = match extractTranslation (Some v) with
        | Normal t => (Normal (resultOf text src tgt now t), c, [])
        | Throw _ => (Normal None, c, [])
        end) /\
  (forall e status p now c,
      let failed outcome :=
        handleRecognitionResult_resume p
          (Resolved (Some (sentResponse
                             (backgroundListener TRANSLATION_RESULT outcome))))
          now c
        = if contextInvalidated e
          then (Normal tt, stateAfter (stopRecognition c),
                effectsOf (stopRecognition c))
          else (Normal tt, c, []) in
      failed (FetchRejected e) /\
      (responseOk status = true ->
       failed (FetchResponse status (BodyRejected e)))).
Proof.
  split.
  { intros event c p. rewrite begin_outcome.
    destruct (config c) as [cfg|]; [|discriminate].
    destruct (isActive c); [|discriminate].
    destruct (lastTranscript event) as [[t fin]|]; [|discriminate].
    destruct (passesGate t fin); [|discriminate].
    cbn. intros [= <-]. eexists. split; reflexivity. }
  split.
  { intros status body p now c Hok.
    cbn [backgroundListener sentResponse handleTranslationRequest].
    rewrite Hok. cbn [negb].
    rewrite (relay_failure
               {| message := lit "Translation API error: "
                             ++ intToString status |} p now c).
    rewrite http_error_not_invalidated. reflexivity. }
  split.
  { intros status v text src tgt now c Hok.
    cbn [backgroundListener sentResponse handleTranslationRequest].
    rewrite Hok. cbn [negb].
    rewrite (translateText_success text src tgt now c
               [(lit "success", JBool true); (lit "data", v)] (JBool true)
               eq_refl eq_refl).
    reflexivity. }
  intros e status p now c failed. subst failed. split.
  - cbn [backgroundListener sentResponse handleTranslationRequest].
    apply relay_failure.
  - intros Hok.
    cbn [backgroundListener sentResponse handleTranslationRequest].
    rewrite Hok. cbn [negb]. apply relay_failure.
Qed.


(** ** Stored settings *)

(** X20.  The stored settings.  What [saveState] writes, [loadState]
    reads back, and keys that are not written keep their value; a key
    that is missing, or a language stored as the empty string, reads as
    its default (en-US, es, inactive).  On "install" the install hook
    stores exactly these three values (en-US, es, false), whatever the
    storage held before, so that a load after it gives the defaults;
    any other [onInstalled] reason leaves the storage alone. *)
Theorem stored_settings_round_trip :
  loadState emptyStorage
  = {| state_inputLang := lit "en-US"; state_outputLang := lit "es";
       state_isActive := false |} /\
  (forall s, onInstalled (lit "install") s
             = {| stored_inputLang := Some (lit "en-US");
                  stored_outputLang := Some (lit "es");
                  stored_isActive := Some false |}) /\
  (forall s, loadState (onInstalled (lit "install") s)
             = loadState emptyStorage) /\
  (forall reason s, reason <> lit "install" -> onInstalled reason s = s) /\
  (forall i o a s,
      i <> [] -> o <> [] ->
      loadState (saveState {| partial_inputLang := Some i;
                              partial_outputLang := Some o;
                              partial_isActive := Some a |} s)
      = {| state_inputLang := i; state_outputLang := o;
           state_isActive := a |}) /\
  (forall o a s,
      state_inputLang
        (loadState (saveState {| partial_inputLang := Some [];
                                 partial_outputLang := o;
                                 partial_isActive := a |} s))
      = lit "en-US") /\
  (forall a s,
      let s' := saveState (onlyIsActive a) s in
      stored_inputLang s' = stored_inputLang s /\
      stored_outputLang s' = stored_outputLang s /\
      state_isActive (loadState s') = a) /\
  (forall s, saveState {| partial_inputLang := None;
                          partial_outputLang := None;
                          partial_isActive := None |} s = s).
Proof.
  split; [reflexivity|]. split; [reflexivity|]. split; [reflexivity|].
  split.
  { intros reason s H. unfold onInstalled.
    apply eqb_neq in H. rewrite H. reflexivity. }
  split.
  { intros [|ci i] [|co o] a s Hi Ho; try contradiction; reflexivity. }
  split; [reflexivity|].
  split; [intros a s; repeat split; reflexivity|].
  intros [i o a]. reflexivity.
Qed.

(** ** The popup's buttons *)

Lemma updateUIState_consistent (b : bool) (u : PopupUI) :
  buttonsConsistent (updateUIState b u).
Proof. repeat split. Qed.

Lemma popup_updateStatus_consistent (t : jsstring) (b : bool) (u : PopupUI) :
  buttonsConsistent u -> buttonsConsistent (popup_updateStatus t b u).
Proof. intros H. exact H. Qed.

(** X21.  The popup's handlers.  A start whose message is delivered
    stores the selected languages and [isActive = true], disables the
    start button and the selectors and enables the stop button; a start
    whose message cannot be delivered stores the selected languages all
    the same but [isActive = false], and leaves the buttons as they
    were.  A stop that is delivered stores [isActive = false] and
    re-enables start; a stop that cannot be delivered changes neither
    the storage nor the buttons.  Every handler, and every message from
    the content script, keeps the buttons consistent: stop is enabled
    exactly when start and the selectors are disabled. *)
Theorem popup_start_stop :
  forall (s : Popup) (e : JsError),
    (let s' := handleStart (Normal tt) s in
     stored_inputLang (storage s') = Some (inputValue (ui s)) /\
     stored_outputLang (storage s') = Some (outputValue (ui s)) /\
     stored_isActive (storage s') = Some true /\
     startDisabled (ui s') = true /\ stopDisabled (ui s') = false /\
     inputDisabled (ui s') = true /\ outputDisabled (ui s') = true /\
     statusText (ui s') = lit "Recognition Started") /\
    (let s' := handleStart (Throw e) s in
     stored_inputLang (storage s') = Some (inputValue (ui s)) /\
     stored_outputLang (storage s') = Some (outputValue (ui s)) /\
     stored_isActive (storage s') = Some false /\
     startDisabled (ui s') = startDisabled (ui s) /\
     stopDisabled (ui s') = stopDisabled (ui s) /\
     statusText (ui s') = lit "Failed to start - reload page") /\
    (let s' := handleStop (Normal tt) s in
     stored_isActive (storage s') = Some false /\
     stored_inputLang (storage s') = stored_inputLang (storage s) /\
     startDisabled (ui s') = false /\ stopDisabled (ui s') = true /\
     statusText (ui s') = lit "Recognition Stopped") /\
    (let s' := handleStop (Throw e) s in
     storage s' = storage s /\
     startDisabled (ui s') = startDisabled (ui s) /\
     stopDisabled (ui s') = stopDisabled (ui s) /\
     statusText (ui s') = lit "Failed to stop") /\
    (buttonsConsistent (ui s) ->
     forall (d : Completion unit) (m : OutMessage),
       buttonsConsistent (ui (handleStart d s)) /\
       buttonsConsistent (ui (handleStop d s)) /\
       buttonsConsistent (ui (handleLanguageChange s)) /\
       buttonsConsistent (ui (fst (popupListener m s)))).
Proof.
  intros s e.
  split; [repeat split|]. split; [repeat split|].
  split; [repeat split|]. split; [repeat split|].
  intros H d m.
  split; [destruct d; [apply updateUIState_consistent | exact H]|].
  split; [destruct d; [apply updateUIState_consistent | exact H]|].
  split; [exact H|].
  destruct m; [exact H | apply updateUIState_consistent | exact H].
Qed.

(** ** Messages between the parts *)

Lemma acknowledgement_dropped (p : PendingTranslation) (now : Z)
  (c : Controller) :
  handleRecognitionResult_resume p (Resolved (Some receivedResponse)) now c
  = (Normal tt, c, []).
Proof.
  apply resume_of_null.
  rewrite (translateText_failure_response _ _ _ now c receivedResponse
             eq_refl eq_refl).
  reflexivity.
Qed.

(** X22.  The popup answers every message of the content script with
    [{received: true}], and so does the background for everything but a
    translation request.  A status update changes the popup's status
    line only (not its buttons, not the storage) and handling it twice
    is the same as handling it once; an ERROR message shows the error,
    re-enables start and stores [isActive = false]; a translation
    request leaves the popup alone.  When [{received: true}] is what a
    translation request gets for an answer, the content script takes it
    for a failed translation: nothing is shown, nothing changes. *)
Theorem popup_listener_replies :
  forall (m : OutMessage) (s : Popup),
    snd (popupListener m s) = receivedResponse /\
    (forall type outcome,
        type <> TRANSLATION_RESULT ->
        sentResponse (backgroundListener type outcome) = receivedResponse) /\
    (forall active status,
        let s' := fst (popupListener (MsgStatusUpdate active status) s) in
        storage s' = storage s /\
        startDisabled (ui s') = startDisabled (ui s) /\
        stopDisabled (ui s') = stopDisabled (ui s) /\
        statusActive (ui s') = active /\
        (status <> [] -> statusText (ui s') = status) /\
        fst (popupListener (MsgStatusUpdate active status) s') = s') /\
    (forall error,
        let s' := fst (popupListener (MsgError error) s) in
        statusText (ui s') = lit "Error: " ++ error /\
        startDisabled (ui s') = false /\ stopDisabled (ui s') = true /\
        stored_isActive (storage s') = Some false) /\
    (forall text src tgt,
        fst (popupListener (MsgTranslationRequest text src tgt) s) = s) /\
    (forall p now c,
        handleRecognitionResult_resume p
          (Resolved (Some (snd (popupListener m s)))) now c
        = (Normal tt, c, [])).
Proof.
  intros m s.
  split; [reflexivity|].
  split; [intros [] outcome H; try reflexivity; contradiction H; reflexivity|].
  split.
  { intros active status s'. subst s'.
    repeat split; try reflexivity.
    intros H. destruct status; [contradiction H|]; reflexivity. }
  split; [intros error; repeat split|].
  split; [reflexivity|].
  intros p now c. apply acknowledgement_dropped.
Qed.

Lemma deliver_stop (c : Controller) (s : Popup) :
  deliverAll (effectsOf (stopRecognition c)) s
  = {| ui := popup_updateStatus (lit "Recognition Stopped") false (ui s);
       storage := saveState (onlyIsActive false) (storage s) |}.
Proof.
  destruct c as [[r|] cf [[[] ct st sz]|] a d off [id|] k]; run_handler;
    reflexivity.
Qed.

Lemma deliver_error (c : Controller) (error : jsstring) (s : Popup) :
  isActive c = false \/ ~ recoverable error ->
  deliverAll (effectsOf (handleRecognitionError error c)) s
  = fst (popupListener (MsgError (errorMessageFor error)) s).
Proof.
  intros H.
  assert (isActive c
          && (eqb error (lit "no-speech") || eqb error (lit "aborted"))
          = false) as E.
  { destruct (isActive c); [|reflexivity]. cbn [andb].
    destruct (eqb error (lit "no-speech") || eqb error (lit "aborted"))
      eqn:Er; [|reflexivity].
    apply recoverable_test in Er. destruct H as [H|H];
      [discriminate H | contradiction]. }
  unfold handleRecognitionError, sendErrorMessage, bind, gets, emit,
    effectsOf.
  cbv zeta. rewrite E. reflexivity.
Qed.

(** X23.  What the settings UI sees of the controller.  A stop of the
    controller (by command, by the overlay's close button or after an
    invalidated context) stores [isActive = false] and, in an open
    popup, changes the status line to "Recognition Stopped" but leaves
    the buttons as they were.  A fatal engine error stores
    [isActive = false] and puts the popup in its inactive state with
    the error shown, while the controller itself is left as it was,
    still active if it was active. *)
Theorem popup_view_of_session :
  forall (c : Controller) (s : Popup),
    (let s' := deliverAll (effectsOf (stopRecognition c)) s in
     stored_isActive (storage s') = Some false /\
     statusText (ui s') = lit "Recognition Stopped" /\
     statusActive (ui s') = false /\
     startDisabled (ui s') = startDisabled (ui s) /\
     stopDisabled (ui s') = stopDisabled (ui s) /\
     isActive (stateAfter (stopRecognition c)) = false) /\
    (forall error,
        isActive c = false \/ ~ recoverable error ->
        let r := handleRecognitionError error c in
        let s' := deliverAll (effectsOf r) s in
        stored_isActive (storage s') = Some false /\
        statusText (ui s') = lit "Error: " ++ errorMessageFor error /\
        startDisabled (ui s') = false /\ stopDisabled (ui s') = true /\
        isActive (stateAfter r) = isActive c /\
        overlay (stateAfter r) = overlay c).
Proof.
  intros c s. split.
  - cbv zeta. rewrite deliver_stop.
    destruct (stopRecognition_state c) as [_ [_ [_ [Ha _]]]].
    repeat split; try reflexivity. exact Ha.
  - intros error H r s'. subst s' r. rewrite (deliver_error c error s H).
    unfold handleRecognitionError, bind, gets. cbv zeta.
    destruct (isActive c
              && (eqb error (lit "no-speech") || eqb error (lit "aborted")));
      repeat split; reflexivity.
Qed.

End Model.


(* ================================================================== *)
(** * Concrete sessions *)

(** C1, counterexample: the session was stopped while a translation was
    in flight, so the display call that follows finds no overlay panel.
    Its key differs from [lastLineKey], yet no history entry is added,
    no panel is created and the key is not stored: [lastLineKey] is
    still [null] afterwards, so the same holds for the next call. *)
Lemma display_without_overlay_counterexample :
  let c := stopped in
  let c' := stateAfter (displayBothLanguages hola helloThere true c) in
  overlay c = None /\
  lastLineKey c <> Some (lineKey hola helloThere) /\
  ~ (List.length (history c') = S (List.length (history c))
     <-> lastLineKey c <> Some (lineKey hola helloThere)) /\
  history c' = [] /\ overlay c' = None /\
  lastLineKey c' = None /\ lastLineKey c' = lastLineKey c.
Proof.
  cbv zeta.
  assert (lastLineKey stopped <> Some (lineKey hola helloThere))
    as K by discriminate.
  split; [reflexivity|]. split; [exact K|]. split.
  - intros [_ H]. specialize (H K). vm_compute in H. discriminate.
  - repeat split; reflexivity.
Qed.

Lemma display_final_dedup_witness :
  exists p,
    overlay listening = Some p /\
    List.length (history (displayFinals [(hola, helloThere);
                                         (hola, helloThere)] listening))
    <= S (List.length (history listening)).
Proof.
  eexists. split; [reflexivity|].
  exact (proj1 (proj2 (proj2 (proj2
           (proj1 (display_final_dedup listening) _ eq_refl))))
           hola helloThere 2).
Defined.

(** C2, counterexample: [onend] while the session is active leaves the
    overlay on the page and the configuration in place. *)
Lemma onend_while_active_counterexample :
  ~ (isActive listening = true ->
     let c' := stateAfter (handleRecognitionEnd listening) in
     overlayPresent c' = false /\ config c' = None).
Proof.
  intros H. destruct (H eq_refl) as [H1 _]. vm_compute in H1. discriminate.
Qed.

Lemma handleRecognitionEnd_witness :
  (isActive listening = true /\
   handleRecognitionEnd listening = (Normal tt, listening, [])) /\
  (isActive orphaned = false /\
   overlayPresent (stateAfter (handleRecognitionEnd orphaned)) = false).
Proof.
  split.
  - split; [reflexivity|].
    exact (proj1 (handleRecognitionEnd_cleans_when_inactive listening)
                 eq_refl).
  - split; [reflexivity|].
    exact (proj1 (proj2 (proj2
             (proj2 (handleRecognitionEnd_cleans_when_inactive orphaned)
                    eq_refl)))).
Defined.

(** C3, at the failing input: after [not-allowed], and after the
    [onend] that follows it, the session is still active, the engine
    handle still held and the overlay still on the page. *)
Lemma not_allowed_counterexample :
  let c' := stateAfter (handleRecognitionError (lit "not-allowed") listening) in
  let c'' := stateAfter (handleRecognitionEnd c') in
  ~ (isActive c' = false) /\ ~ (isActive c'' = false) /\
  ~ (overlayPresent c'' = false) /\ ~ (recognition c'' = None).
Proof.
  cbv zeta. repeat split; vm_compute; discriminate.
Qed.

Lemma handleRecognitionError_policy_witness :
  (isActive listening = true /\ recoverable (lit "no-speech") /\
   effectsOf (handleRecognitionError (lit "no-speech") listening)
   = [SetTimeoutRestart 1000]) /\
  ((isActive listening = false \/ ~ recoverable (lit "not-allowed")) /\
   effectsOf (handleRecognitionError (lit "not-allowed") listening)
   = [SendMessage (MsgError (lit "Microphone permission denied"))]).
Proof.
  assert (~ recoverable (lit "not-allowed")) as Hn
    by (intros [H|H]; discriminate H).
  split.
  - split; [reflexivity|]. split; [left; reflexivity|].
    exact (proj1 (proj2 (proj2
             (handleRecognitionError_policy listening (lit "no-speech"))))
             eq_refl (or_introl eq_refl)).
  - split; [right; exact Hn|].
    exact (proj1 (proj2 (proj2 (proj2
             (handleRecognitionError_policy listening (lit "not-allowed")))))
             (or_intror Hn)).
Defined.

Lemma short_interim_dropped_witness :
  let slot : SpeechRecognitionResult Z :=
    {| alternatives := [ {| transcript := lit "  Hi  ";
                            confidence := 1%Z |} ];
       isFinal := false |} in
  List.length (trim (lit "  Hi  ")) < 5 /\
  handleRecognitionResult_begin Z {| results := [slot] |} listening
  = (Normal None, listening, []).
Proof.
  intros slot.
  assert (List.length (trim (lit "  Hi  ")) < 5) as H by (vm_compute; lia).
  split; [exact H|].
  exact (short_interim_dropped Z listening {| results := [slot] |} [] slot
           _ _ eq_refl eq_refl eq_refl H).
Defined.

Lemma translateText_response_shapes_witness :
  (* {success: true, data: {sentences: [{trans: "Hola"}]}} *)
  let sentences : list (JSON Z) := [JObj Z [(lit "trans", JStr Z hola)]] in
  let response : list (jsstring * JSON Z) :=
    [(lit "success", JBool Z true);
     (lit "data", JObj Z [(lit "sentences", JArr Z sentences)])] in
  lookup Z (lit "success") response = Some (JBool Z true) /\
  textsOf Z (transValue Z intTruthy intToString) sentences [hola] /\
  translateText_resume Z intTruthy intToString helloThere (lit "en") (lit "es")
    (Resolved Z (Some (JObj Z response))) 0 listening
  = (Normal (Some {| originalText := helloThere; translatedText := hola;
                     sourceLang := lit "en"; targetLang := lit "es";
                     timestamp := 0 |}),
     listening, []).
Proof.
  intros sentences response.
  assert (textsOf Z (transValue Z intTruthy intToString) sentences [hola])
    as Ht by (repeat constructor).
  split; [reflexivity|]. split; [exact Ht|].
  exact (proj1 (proj1 (translateText_response_shapes Z intTruthy intToString
                         helloThere (lit "en") (lit "es") 0 listening response
                         (JBool Z true) eq_refl eq_refl)
                  _ sentences eq_refl eq_refl) [hola] Ht).
Defined.

(** C6, counterexample:
    [{success: true, data: {sentences: [{trans: "Hola"}, null]}}].  The
    data is an object with a [sentences] array, and the only [trans]
    value it holds is "Hola"; yet [translateText] returns [null]: the
    read of [trans] on the [null] entry throws and the [catch] turns
    the exception into [null].  With the [null] entry left out the
    result carries "Hola". *)
Lemma null_sentence_counterexample :
  let entry : JSON Z := JObj Z [(lit "trans", JStr Z hola)] in
  let response (sentences : list (JSON Z)) : JSON Z :=
    JObj Z [(lit "success", JBool Z true);
            (lit "data", JObj Z [(lit "sentences", JArr Z sentences)])] in
  let result (sentences : list (JSON Z)) :=
    completionOf (translateText_resume Z intTruthy intToString helloThere
                    (lit "en") (lit "es")
                    (Resolved Z (Some (response sentences))) 0 listening) in
  isShapeA Z (Some (JObj Z [(lit "sentences", JArr Z [entry; JNull Z])]))
  = true /\
  result [entry; JNull Z] = Normal None /\
  result [entry]
  = Normal (Some {| originalText := helloThere; translatedText := hola;
                    sourceLang := lit "en"; targetLang := lit "es";
                    timestamp := 0 |}).
Proof. cbv zeta. repeat split; vm_compute; reflexivity. Qed.

(** C6, a value that cannot be converted:
    [{success: true, data: {sentences: [{trans: {toString: 1}}]}}].  The
    join throws on the object with its own [toString] property, and
    [translateText] returns [null]; without that property the object
    is rendered as "[object Object]". *)
Lemma unconvertible_trans_gives_null :
  let response (trans : JSON Z) : JSON Z :=
    JObj Z [(lit "success", JBool Z true);
            (lit "data",
             JObj Z [(lit "sentences",
                      JArr Z [JObj Z [(lit "trans", trans)]])])] in
  let result (trans : JSON Z) :=
    completionOf (translateText_resume Z intTruthy intToString helloThere
                    (lit "en") (lit "es")
                    (Resolved Z (Some (response trans))) 0 listening) in
  result (JObj Z [(lit "toString", JNum Z 1%Z)]) = Normal None /\
  result (JObj Z [(lit "other", JNum Z 1%Z)])
  = Normal (Some {| originalText := helloThere;
                    translatedText := lit "[object Object]";
                    sourceLang := lit "en"; targetLang := lit "es";
                    timestamp := 0 |}).
Proof. cbv zeta. split; vm_compute; reflexivity. Qed.

(** The same body relayed by the background with status 200: the
    content script gets [{success: true, data: body}] and returns
    [null]. *)
Lemma relayed_unconvertible_body_gives_null :
  let body : JSON Z :=
    JObj Z [(lit "sentences",
             JArr Z [JObj Z [(lit "trans",
                              JObj Z [(lit "toString", JNum Z 1%Z)])]])] in
  translateText_resume Z intTruthy intToString helloThere (lit "en") (lit "es")
    (Resolved Z (Some (sentResponse Z
                         (backgroundListener Z TRANSLATION_RESULT
                            (FetchResponse Z 200 (BodyJson Z body))))))
    0 listening
  = (Normal None, listening, []).
Proof. cbv zeta. vm_compute. reflexivity. Qed.

(** A failure whose [error] value cannot be converted to a string:
    [{success: false,
      error: ["Extension context invalidated", {toString: 1}]}].
    Building the [Error] throws a [TypeError], and the session is left
    alone although the value holds the phrase; with the phrase as a
    plain string the session is stopped. *)
Lemma unconvertible_error_changes_nothing :
  let phrase : JSON Z := JStr Z (lit "Extension context invalidated") in
  let response (error : JSON Z) : JSON Z :=
    JObj Z [(lit "success", JBool Z false); (lit "error", error)] in
  let after (error : JSON Z) :=
    stateAfter (handleRecognitionResult_resume Z intTruthy intToString
                  helloPending (Resolved Z (Some (response error))) 0
                  listening) in
  after (JArr Z [phrase; JObj Z [(lit "toString", JNum Z 1%Z)]]) = listening /\
  isActive (after phrase) = false.
Proof. cbv zeta. split; vm_compute; reflexivity. Qed.

(** C7, at the failing input: the session is listening, a final result
    has been sent for translation, and the request resolves with no
    response.  The session is still active afterwards, the overlay still
    on the page.  Had the request failed with the invalidated-context
    error instead, the session would have been stopped. *)
Lemma no_response_session_still_active :
  let c' := stateAfter (handleRecognitionResult_resume Z intTruthy intToString
                          helloPending (Resolved Z None) 0 listening) in
  let c'' := stateAfter (handleRecognitionResult_resume Z intTruthy intToString
                           helloPending
                           (Rejected Z {| message :=
                               lit "Extension context invalidated." |})
                           0 listening) in
  isActive listening = true /\
  isActive c' = true /\ overlayPresent c' = true /\
  isActive c'' = false /\ overlayPresent c'' = false.
Proof. cbv zeta. repeat split; vm_compute; reflexivity. Qed.

(** C8, counterexample: with the panel wider than the viewport the
    clamped left coordinate is 0, which is not within
    [0, viewport - panel] = [0, -32]. *)
Lemma wide_panel_counterexample :
  let c' := stateAfter (handleDragMove {| clientX := 400; clientY := 300 |}
                                       narrowLayout dragging) in
  exists p' x,
    overlay c' = Some p' /\ style_left (style p') = Px x /\
    ~ (0 <= x <= innerWidth narrowLayout - offsetWidth narrowLayout)%Z.
Proof.
  cbv zeta. eexists. exists 0%Z.
  split; [reflexivity|]. split; [reflexivity|].
  cbn [innerWidth offsetWidth narrowLayout]. lia.
Qed.

Lemma handleDragMove_clamps_witness :
  isDragging dragging = true /\
  (offsetWidth wideLayout <= innerWidth wideLayout)%Z /\
  (0 <= Z.max 0 (Z.min (5000 - fst (dragOffset dragging))
                       (innerWidth wideLayout - offsetWidth wideLayout))
     <= innerWidth wideLayout - offsetWidth wideLayout)%Z.
Proof.
  assert (offsetWidth wideLayout <= innerWidth wideLayout)%Z as Hw
    by (cbn; lia).
  split; [reflexivity|]. split; [exact Hw|].
  exact (proj1 (proj2 (proj2
           (handleDragMove_clamps dragging _
              {| clientX := 5000; clientY := -40 |} wideLayout
              eq_refl eq_refl)))
           Hw).
Defined.

(** C10, counterexample: a no-break space is rewritten too, which the
    replacement of the three markup characters does not do. *)
Lemma escapeHtml_nbsp_counterexample :
  escapeHtml [NBSP] = lit "&nbsp;" /\
  escapeHtml [NBSP] <> specEscape [NBSP].
Proof. split; [reflexivity | discriminate]. Qed.

Lemma escapeHtml_neutralises_markup_witness :
  ~ In NBSP (lit "a<b>&c") /\
  escapeHtml (lit "a<b>&c") = specEscape (lit "a<b>&c") /\
  exists p b,
    overlay listening = Some p /\
    find isLive (stListOf (stateAfter
                   (displayBothLanguages (lit "<b>Hola</b>") helloThere false
                                         listening)))
    = Some b /\
    markup b = liveMarkup (lit "<b>Hola</b>") helloThere.
Proof.
  assert (~ In NBSP (lit "a<b>&c")) as Hn.
  { cbn. intros H. repeat (destruct H as [H|H]; [discriminate H|]).
    exact H. }
  split; [exact Hn|].
  split;
    [exact (proj1 (proj2 escapeHtml_neutralises_markup) _ Hn)|].
  destruct (proj1 (proj2 (proj2 (proj2 (proj2 escapeHtml_neutralises_markup))))
              (lit "<b>Hola</b>") helloThere false listening _ eq_refl)
    as [b Hb].
  eexists. exists b. split; [reflexivity | exact Hb].
Defined.

(** ** The specification's scenarios *)

(** A final "Hello there" is sent for translation with ("Hello there",
    "en", "es"); on the response {sentences: [{trans: "Hola"}]} the
    overlay shows the live block "Hola" / "Hello there" and one history
    entry with the same content. *)
Lemma scenario_hello_there :
  let event : SpeechRecognitionEvent Z :=
    {| results := [ {| alternatives := [ {| transcript := helloThere;
                                            confidence := 1%Z |} ];
                       isFinal := true |} ] |} in
  let response : JSON Z :=
    JObj Z [(lit "success", JBool Z true);
            (lit "data",
             JObj Z [(lit "sentences",
                      JArr Z [JObj Z [(lit "trans", JStr Z hola)]])])] in
  handleRecognitionResult_begin Z event listening
  = (Normal (Some helloPending), listening,
     [SendMessage (MsgTranslationRequest helloThere (lit "en") (lit "es"))]) /\
  let c' := stateAfter (handleRecognitionResult_resume Z intTruthy intToString
                          helloPending (Resolved Z (Some response)) 0
                          listening) in
  stListOf c'
  = [ {| isLive := true; markup := liveMarkup hola helloThere;
         marginBottom := lit "8px";
         borderBottom := lit "1px solid rgba(255,255,255,0.15)";
         paddingBottom := lit "6px" |};
      historyEntry hola helloThere ] /\
  (* the same final result once more adds nothing *)
  stListOf (stateAfter (handleRecognitionResult_resume Z intTruthy intToString
                          helloPending (Resolved Z (Some response)) 1 c'))
  = stListOf c'.
Proof. cbv zeta. repeat split; vm_compute; reflexivity. Qed.

(** [no-speech] while active: after the timer the engine is started
    again and nothing has been sent to the UI. *)
Lemma scenario_no_speech :
  effectsOf (handleRecognitionError (lit "no-speech") listening)
  = [SetTimeoutRestart 1000] /\
  effectsOf (restartCallback listening) = [RecognitionStart].
Proof. split; reflexivity. Qed.

(** ** Instances of the further properties *)

Lemma history_newest_first_witness :
  let c := run Z intTruthy intToString [OnMessage Z true startCommand]
               initialController in
  exists p,
    overlay c = Some p /\
    history (stateAfter (displayBothLanguages hola helloThere true c))
    = [historyEntry hola helloThere].
Proof.
  cbv zeta. eexists. split; [reflexivity|].
  exact (proj2 (history_newest_first Z intTruthy intToString
                  [OnMessage Z true startCommand] hola helloThere true _
                  eq_refl)).
Defined.

Lemma late_reply_renders_nothing_witness :
  let evs := [OnMessage Z true startCommand; OnMessage Z true stopCommand] in
  let c := run Z intTruthy intToString evs initialController in
  isActive c = false /\
  overlay (stateAfter (handleRecognitionResult_resume Z intTruthy intToString
                         helloPending
                         (Resolved Z (Some (JObj Z
                            [(lit "success", JBool Z true);
                             (lit "data", JObj Z
                                [(lit "sentences",
                                  JArr Z [JObj Z [(lit "trans",
                                                   JStr Z hola)]])])])))
                         0 c))
  = None.
Proof.
  cbv zeta. split; [reflexivity|].
  exact (proj1 (proj2 (late_reply_renders_nothing Z intTruthy intToString
                         [OnMessage Z true startCommand;
                          OnMessage Z true stopCommand]
                         helloPending _ 0 eq_refl))).
Defined.

Lemma error_only_from_engine_or_start_witness :
  let ev := OnReply Z helloPending
              (Rejected Z {| message := lit "Failed to fetch" |}) 0 in
  mayReportError Z ev = false /\
  Forall (fun e => isErrorMessage e = false)
         (effectsOf (dispatch Z intTruthy intToString ev listening)).
Proof.
  cbv zeta. split; [reflexivity|].
  exact (error_only_from_engine_or_start Z intTruthy intToString
           (OnReply Z helloPending
              (Rejected Z {| message := lit "Failed to fetch" |}) 0)
           listening eq_refl).
Defined.

Lemma blank_interim_dropped_witness :
  let blank := lit "          " in
  let event : SpeechRecognitionEvent Z :=
    {| results := [ {| alternatives := [ {| transcript := blank;
                                            confidence := 0%Z |} ];
                       isFinal := false |} ] |} in
  lastTranscript Z event = Some (blank, false) /\
  forallb isWhiteSpace blank = true /\
  handleRecognitionResult_begin Z event listening
  = (Normal None, listening, []).
Proof.
  intros blank event. split; [reflexivity|]. split; [reflexivity|].
  exact (proj1 (blank_interim_dropped Z listening event blank false
                  eq_refl eq_refl) eq_refl).
Defined.

Lemma request_source_language_witness :
  let event : SpeechRecognitionEvent Z :=
    {| results := [ {| alternatives := [ {| transcript := helloThere;
                                            confidence := 1%Z |} ];
                       isFinal := true |} ] |} in
  completionOf (handleRecognitionResult_begin Z event listening)
  = Normal (Some helloPending) /\
  config listening = Some demoConfig /\
  ~ In HYPHEN (pending_sourceLang helloPending).
Proof.
  intros event. split; [reflexivity|]. split; [reflexivity|].
  exact (proj1 (request_source_language Z event listening helloPending
                  demoConfig eq_refl eq_refl)).
Defined.

Lemma drag_follows_pointer_witness :
  exists p p2,
    overlay listening = Some p /\
    overlay (stateAfter
               (handleDragMove {| clientX := 130; clientY := 490 |} wideLayout
                  (stateAfter
                     (handleDragStart {| clientX := 100; clientY := 500 |}
                        {| rect_left := 20; rect_top := 480 |} listening))))
    = Some p2 /\
    style_left (style p2) = Px 50 /\ style_top (style p2) = Px 470.
Proof.
  destruct (drag_follows_pointer listening _
              {| clientX := 100; clientY := 500 |}
              {| clientX := 130; clientY := 490 |}
              {| rect_left := 20; rect_top := 480 |} wideLayout eq_refl)
    as [p2 [H1 [_ [_ [H4 [H5 _]]]]]].
  eexists. exists p2. split; [reflexivity|]. split; [exact H1|].
  split; [apply H4 | apply H5]; cbn; lia.
Defined.

Lemma interrupted_drag_persists_witness :
  isDragging dragging = true /\ panelAttached dragging /\
  isDragging
    (stateAfter (startRecognition true demoConfig
       (stateAfter (handleDragEnd (stateAfter (stopRecognition dragging))))))
  = true.
Proof.
  split; [reflexivity|]. split; [reflexivity|].
  exact (proj1 (proj2 (proj2
           (interrupted_drag_persists demoConfig dragging
              eq_refl eq_refl)))).
Defined.

Lemma lineKey_collision_witness :
  exists p,
    overlay listening = Some p /\
    lineKey (lit "a" ++ lit "|||" ++ lit "b") (lit "c")
    = lineKey (lit "a") (lit "b" ++ lit "|||" ++ lit "c").
Proof.
  eexists. split; [reflexivity|].
  exact (proj1 (proj2 (lineKey_collision listening _ (lit "a") (lit "b")
                         (lit "c") eq_refl))).
Defined.

Lemma restart_keeps_dedup_key_witness :
  let shown := stateAfter (displayBothLanguages hola helloThere true
                             listening) in
  exists p,
    overlay shown = Some p /\
    lastLineKey shown = Some (lineKey hola helloThere) /\
    history (stateAfter (displayBothLanguages hola helloThere true
                           (stateAfter (startRecognition true demoConfig
                                          shown))))
    = [].
Proof.
  intros shown. eexists. split; [reflexivity|]. split; [reflexivity|].
  exact (proj1 (proj2 (proj2 (proj2
           (restart_keeps_dedup_key demoConfig shown _ hola helloThere
              eq_refl))))
           eq_refl).
Defined.
